(** * serverless-plugin-monorepo: the symlink materialiser and its cleaner

    A shallow embedding of [src/index.js].  The plugin walks the dependency
    graph declared by [package.json] manifests and creates, under the
    [node_modules] directory of a package, one symbolic link per hoisted
    dependency ([linkPackage], [processLinkages], [initialise]); [clean]
    removes such links again.  The constructor, which settles the paths,
    and the table of hooks it fills are [ServerlessMonoRepo] and [hooks].

    The JavaScript runs on Node.js.  Three pieces of the runtime are modelled
    next to the code of the plugin, because the plugin's behaviour is defined
    through them:

    - the POSIX flavour of the [path] module ([path.join], [path.dirname],
      [path.relative], [path.sep]), on strings;
    - a file system: a finite map from canonical paths to files, directories
      and symbolic links, with the path walk that follows links;
    - the module loader: [require(file)] with its module cache, and
      [require.resolve], which is taken as a parameter of the development
      (its answer depends on package export maps that live outside the
      repository).

    Asynchronous code is embedded by explicit state passing.  A
    [Promise.all (xs.map f)] starts every [f x] and waits for all of them;
    it is embedded as a left to right fold that runs the branches one after
    the other, threads the world through them and, when several reject,
    reports the rejection of the first in the list.  The branches of a real
    run interleave at their [await]s: a real run may make the calls of
    different branches in another order, and reports the rejection that
    came first in time.  The order of calls across branches and the choice
    among several rejections are therefore those of this embedding; the
    statements below do not rest on them.  The test [created.has(name)] and
    the [created.add(name)] that follows it have no [await] between them,
    so they are one step in every interleaving, as they are here. *)

From Stdlib Require Import String Ascii.
From stdpp Require Import base option list gmap strings.

(** ** Strings as JavaScript sees them *)

Module Str.

Definition slash : ascii := "/"%char.

Definition is_slash (c : ascii) : bool := Ascii.eqb c slash.

Fixpoint to_list (s : string) : list ascii :=
  match s with
  | EmptyString => []
  | String c r => c :: to_list r
  end.

Fixpoint of_list (l : list ascii) : string :=
  match l with
  | [] => EmptyString
  | c :: r => String c (of_list r)
  end.

(** [s.split('/')]: the pieces between separators; never the empty list. *)
Fixpoint split (s : string) : list string :=
  match s with
  | EmptyString => [EmptyString]
  | String c r =>
      if is_slash c then EmptyString :: split r
      else match split r with
           | [] => [String c EmptyString]
           | h :: t => String c h :: t
           end
  end.

(** [l.join('/')]. *)
Fixpoint join (l : list string) : string :=
  match l with
  | [] => EmptyString
  | [x] => x
  | x :: r => x +:+ String slash (join r)
  end.

(** [s.startsWith(p)]. *)
Definition startsWith (p s : string) : bool := String.prefix p s.

(** Last character test, for the trailing separator of [path.normalize]. *)
Definition ends_with_slash (s : string) : bool :=
  match last (to_list s) with
  | Some c => is_slash c
  | None => false
  end.

Fixpoint drop_while (f : ascii → bool) (l : list ascii) : list ascii :=
  match l with
  | [] => []
  | c :: r => if f c then drop_while f r else l
  end.

Definition is_empty (s : string) : bool :=
  match s with EmptyString => true | _ => false end.

(** [(s.match(/pat/g) || []).length] for a literal, non-empty pattern: the
    scan goes left to right and resumes after the end of each match.
    [skip] counts the characters of the current match still to be passed. *)
Fixpoint count_from (pat : string) (skip : nat) (s : string) : nat :=
  match s with
  | EmptyString => 0
  | String _ r =>
      match skip with
      | S k => count_from pat k r
      | O =>
          if String.prefix pat s
          then S (count_from pat (String.length pat - 1) r)
          else count_from pat 0 r
      end
  end.

Definition count_matches (pat s : string) : nat := count_from pat 0 s.

End Str.

(** ** The [path] module (POSIX) *)

Module Path.

(** [path.sep] *)
Definition sep : string := "/".

Definition isAbsolute (p : string) : bool :=
  match p with
  | String c _ => Str.is_slash c
  | EmptyString => false
  end.

(** Node's [normalizeString]: empty and [.] segments vanish, [..] removes
    the segment before it; above the start it is kept only when
    [allowAboveRoot].  [acc] is the result so far, last segment first. *)
Fixpoint normalize_segs (allowAboveRoot : bool) (acc segs : list string)
  : list string :=
  match segs with
  | [] => rev acc
  | s :: r =>
      if decide (s = "" ∨ s = ".") then normalize_segs allowAboveRoot acc r
      else if decide (s = "..") then
        match acc with
        | top :: acc' =>
            if decide (top = "..")
            then normalize_segs allowAboveRoot
                   (if allowAboveRoot then ".." :: acc else acc) r
            else normalize_segs allowAboveRoot acc' r
        | [] =>
            normalize_segs allowAboveRoot
              (if allowAboveRoot then [".."] else []) r
        end
      else normalize_segs allowAboveRoot (s :: acc) r
  end.

(** [path.normalize] *)
Definition normalize (p : string) : string :=
  if Str.is_empty p then "."
  else
    let abs := isAbsolute p in
    let trailing := Str.ends_with_slash p in
    let body := Str.join (normalize_segs (negb abs) [] (Str.split p)) in
    if Str.is_empty body
    then (if abs then "/" else if trailing then "./" else ".")
    else (if abs then "/" else "") +:+ body +:+ (if trailing then "/" else "").

(** [path.join(...args)]: the non-empty arguments, joined and normalised. *)
Definition join (args : list string) : string :=
  match filter (λ a, a ≠ "") args with
  | [] => "."
  | parts => normalize (Str.join parts)
  end.

(** [path.dirname]: scan from the right, skipping trailing separators and
    then the last segment; the first character is never scanned. *)
Definition dirname (p : string) : string :=
  match p with
  | EmptyString => "."
  | String c0 rest =>
      let hasRoot := Str.is_slash c0 in
      let r := rev (Str.to_list rest) in
      let r1 := Str.drop_while Str.is_slash r in
      let r2 := Str.drop_while (λ c, negb (Str.is_slash c)) r1 in
      match r2 with
      | [] => if hasRoot then "/" else "."
      | _ :: kept =>
          if hasRoot && bool_decide (kept = []) then "//"
          else String c0 (Str.of_list (rev kept))
      end
  end.

(** [path.resolve(p)] for one argument, as segments below the root: a
    relative path is taken from the working directory [cwd]. *)
Definition resolve_segs (cwd p : string) : list string :=
  normalize_segs false []
    (Str.split (if isAbsolute p then p else cwd +:+ "/" +:+ p)).

Fixpoint strip_common (a b : list string) : list string * list string :=
  match a, b with
  | x :: a', y :: b' => if decide (x = y) then strip_common a' b' else (a, b)
  | _, _ => (a, b)
  end.

(** [path.relative(from, to)]: both resolved, the common leading segments
    dropped, one [..] for every segment left of [from]. *)
Definition relative (cwd from to : string) : string :=
  let '(f, t) := strip_common (resolve_segs cwd from) (resolve_segs cwd to) in
  Str.join (map (λ _, "..") f ++ t).

End Path.

(** [getNodeModulePaths]: the loop pops one segment per turn, so the number
    of turns is the number of segments. *)
Fixpoint getNodeModulePaths_loop (turns : nat) (paths result : list string)
  : list string :=
  match turns with
  | O => result
  | S n =>
      match paths with
      | [] => result
      | _ =>
          let joined := Str.join paths in
          let base := if Str.is_empty joined then Path.sep else joined in
          getNodeModulePaths_loop n (removelast paths)
            (result ++ [Path.join [base; "node_modules"]])
      end
  end.

Definition getNodeModulePaths (p : string) : list string :=
  let paths := Str.split p in
  getNodeModulePaths_loop (length paths) paths [].

(** ** Errors

    A JavaScript error is identified by its [code]. *)

Inductive Error :=
  | ENOENT | EEXIST | ENOTDIR | ENOTEMPTY | EISDIR | ELOOP | EBUSY
  | EACCES
  | MODULE_NOT_FOUND          (* [require] of a file that is not there *)
  | JSON_SYNTAX_ERROR         (* [require] of a file that is not JSON *)
  | ERR_INVALID_ARG_TYPE.     (* [path.dirname(undefined)] *)

Global Instance Error_eq_dec : EqDecision Error.
Proof. solve_decision. Defined.

Inductive res (A : Type) :=
  | Ok (a : A)
  | Err (e : Error).
Global Arguments Ok {A} a.
Global Arguments Err {A} e.

(** ** Manifests and the file system *)

(** A parsed [package.json]: [dependencies] lists the own properties of the
    object in [Object.keys] order, with the version specifications as values;
    a field is [None] when the manifest does not have it. *)
Record Manifest := {
  dependencies : option (list (string * string));
  workspaces : option (list string)
}.

Inductive Node :=
  | NFile (content : option Manifest)   (* [None]: not a JSON manifest *)
  | NDir
  | NLink (target : string).

Global Instance Manifest_eq_dec : EqDecision Manifest.
Proof. solve_decision. Defined.
Global Instance Node_eq_dec : EqDecision Node.
Proof. solve_decision. Defined.

(** The file system maps canonical absolute paths, written as the list of
    their segments, to what is there.  The root is the empty list and is
    always a directory. *)
Abbreviation FS := (gmap (list string) Node).

Module Fs.

(** Links followed in one path walk before [ELOOP]. *)
Definition max_links : nat := 40.

Definition is_dir (fs : FS) (k : list string) : bool :=
  bool_decide (k = []) || bool_decide (fs !! k = Some NDir).

(** The path walk: [cur] is the canonical directory reached so far, [todo]
    the segments still to walk.  A symbolic link is replaced by the
    segments of its target; the last segment is followed too. *)
Fixpoint walk (links : nat) (fs : FS) : list string → list string →
                                        res (list string) :=
  fix go (cur todo : list string) {struct todo} : res (list string) :=
    match todo with
    | [] => Ok cur
    | s :: rest =>
        if decide (s = "" ∨ s = ".") then go cur rest
        else if decide (s = "..") then go (removelast cur) rest
        else
          match fs !! (cur ++ [s]) with
          | None => Err ENOENT
          | Some NDir => go (cur ++ [s]) rest
          | Some (NFile _) =>
              match rest with [] => Ok (cur ++ [s]) | _ => Err ENOTDIR end
          | Some (NLink t) =>
              match links with
              | O => Err ELOOP
              | S l =>
                  if Str.is_empty t then Err ENOENT
                  else walk l fs (if Path.isAbsolute t then [] else cur)
                         (Str.split t ++ rest)
              end
          end
    end.

(** Segments of a path string, from the root. *)
Definition segments (cwd p : string) : list string :=
  if Path.isAbsolute p then Str.split p else Str.split cwd ++ Str.split p.

(** Where a path leads, every link followed. *)
Definition realpath (fs : FS) (cwd p : string) : res (list string) :=
  if Str.is_empty p then Err ENOENT
  else walk max_links fs [] (segments cwd p).

Fixpoint unsnoc (l : list string) : option (list string * string) :=
  match l with
  | [] => None
  | x :: r =>
      match unsnoc r with
      | None => Some ([], x)
      | Some (i, y) => Some (x :: i, y)
      end
  end.

(** The entry a path names, its last segment not followed: the key of the
    entry (which may be absent) in its canonical parent directory. *)
Definition lkey (fs : FS) (cwd p : string) : res (list string) :=
  if Str.is_empty p then Err ENOENT
  else
    let segs := filter (λ s, s ≠ "" ∧ s ≠ ".") (segments cwd p) in
    match unsnoc segs with
    | None => Ok []
    | Some (parent, name) =>
        if decide (name = "..") then walk max_links fs [] segs
        else
          match walk max_links fs [] parent with
          | Err e => Err e
          | Ok k => if is_dir fs k then Ok (k ++ [name]) else Err ENOTDIR
          end
    end.

Definition child_of (k key : list string) : option string :=
  match unsnoc key with
  | Some (parent, name) => if decide (parent = k) then Some name else None
  | None => None
  end.

(** Names of the direct entries of the directory [k]. *)
Definition children (fs : FS) (k : list string) : list string :=
  omap (λ kv, child_of k kv.1) (map_to_list fs).

(** [fs.pathExists], [fs.existsSync] *)
Definition exists_ (fs : FS) (cwd p : string) : bool :=
  match realpath fs cwd p with Ok _ => true | Err _ => false end.

(** [fs.readdir] *)
Definition readdir (fs : FS) (cwd p : string) : res (list string) :=
  match realpath fs cwd p with
  | Err e => Err e
  | Ok k => if is_dir fs k then Ok (children fs k) else Err ENOTDIR
  end.

(** [fs.lstat]: the node itself. *)
Definition lstat (fs : FS) (cwd p : string) : res Node :=
  match lkey fs cwd p with
  | Err e => Err e
  | Ok k =>
      if decide (k = []) then Ok NDir
      else match fs !! k with Some n => Ok n | None => Err ENOENT end
  end.

(** [fs.unlink] *)
Definition unlink (fs : FS) (cwd p : string) : res FS :=
  match lkey fs cwd p with
  | Err e => Err e
  | Ok k =>
      if decide (k = []) then Err EISDIR
      else match fs !! k with
           | None => Err ENOENT
           | Some NDir => Err EISDIR
           | Some _ => Ok (delete k fs)
           end
  end.

(** [fs.rmdir] *)
Definition rmdir (fs : FS) (cwd p : string) : res FS :=
  match lkey fs cwd p with
  | Err e => Err e
  | Ok k =>
      if decide (k = []) then Err EBUSY
      else match fs !! k with
           | None => Err ENOENT
           | Some NDir =>
               match children fs k with
               | [] => Ok (delete k fs)
               | _ => Err ENOTEMPTY
               end
           | Some _ => Err ENOTDIR
           end
  end.

(** [fs.symlink(target, p)]: an empty target is refused before the path
    is looked at. *)
Definition symlink (fs : FS) (cwd target p : string) : res FS :=
  if Str.is_empty target then Err ENOENT
  else
    match lkey fs cwd p with
    | Err e => Err e
    | Ok k =>
        if decide (k = []) then Err EEXIST
        else match fs !! k with
             | Some _ => Err EEXIST
             | None => Ok (<[k := NLink target]> fs)
             end
    end.

(** [mkdir -p] along [todo] from the canonical directory [cur]: missing
    directories are created, links to directories are followed. *)
Fixpoint mkdirs (fs : FS) (cur todo : list string) : res FS :=
  match todo with
  | [] => Ok fs
  | s :: rest =>
      if decide (s = "" ∨ s = ".") then mkdirs fs cur rest
      else if decide (s = "..") then mkdirs fs (removelast cur) rest
      else
        match fs !! (cur ++ [s]) with
        | None => mkdirs (<[cur ++ [s] := NDir]> fs) (cur ++ [s]) rest
        | Some NDir => mkdirs fs (cur ++ [s]) rest
        | Some (NFile _) =>
            match rest with [] => Err EEXIST | _ => Err ENOTDIR end
        | Some (NLink t) =>
            match walk max_links fs cur [s] with
            | Err e => Err e
            | Ok k => if is_dir fs k then mkdirs fs k rest else Err ENOTDIR
            end
        end
  end.

(** [fs.ensureDir] *)
Definition ensureDir (fs : FS) (cwd p : string) : res FS :=
  if Str.is_empty p then Err ENOENT
  else mkdirs fs [] (segments cwd p).

End Fs.

(** ** The world

    What the plugin reads and changes: the file system, the working
    directory of the process, the loader's module cache (by canonical file
    name) and, as a record of what happened, the list of [link] calls made
    by [linkPackage]. *)

Record LinkCall := {
  lc_name : string;     (* the package name *)
  lc_pkg : string;      (* the manifest path it resolved to *)
  lc_target : string;   (* the link's target *)
  lc_file : string      (* the link's own path *)
}.

Record World := {
  w_fs : FS;
  w_cwd : string;
  w_cache : gmap (list string) Manifest;
  w_trace : list LinkCall
}.

Definition set_fs (w : World) (fs : FS) : World :=
  {| w_fs := fs; w_cwd := w_cwd w; w_cache := w_cache w;
     w_trace := w_trace w |}.

Definition cache_insert (w : World) (k : list string) (m : Manifest) : World :=
  {| w_fs := w_fs w; w_cwd := w_cwd w; w_cache := <[k := m]> (w_cache w);
     w_trace := w_trace w |}.

Definition record_link (w : World) (c : LinkCall) : World :=
  {| w_fs := w_fs w; w_cwd := w_cwd w; w_cache := w_cache w;
     w_trace := w_trace w ++ [c] |}.

(** [require(file)] for a manifest.  An absolute file name is resolved to
    its canonical name; a module already in the cache is returned as it was
    loaded, and only a module that is not there is read, parsed and cached.
    A name that is not absolute is no path below the working directory for
    the loader: it names an installed module, or a file beside the plugin's
    own source, and the plugin's own directory has none of the manifests it
    asks for.  Such a name is not found. *)
Definition require (w : World) (file : string) : World * res Manifest :=
  if negb (Path.isAbsolute file) then (w, Err MODULE_NOT_FOUND)
  else
    match Fs.realpath (w_fs w) (w_cwd w) file with
    | Err _ => (w, Err MODULE_NOT_FOUND)
    | Ok k =>
        match w_cache w !! k with
        | Some m => (w, Ok m)
        | None =>
            match w_fs w !! k with
            | Some (NFile (Some m)) => (cache_insert w k m, Ok m)
            | Some (NFile None) => (w, Err JSON_SYNTAX_ERROR)
            | _ => (w, Err MODULE_NOT_FOUND)
            end
        end
    end.

(** Reading the manifest file itself, the cache left aside: what
    [JSON.parse(fs.readFileSync(file))] would give. *)
Definition read_manifest (w : World) (file : string) : res Manifest :=
  match Fs.realpath (w_fs w) (w_cwd w) file with
  | Err _ => Err MODULE_NOT_FOUND
  | Ok k =>
      match w_fs w !! k with
      | Some (NFile (Some m)) => Ok m
      | Some (NFile None) => Err JSON_SYNTAX_ERROR
      | _ => Err MODULE_NOT_FOUND
      end
  end.

(** [const { dependencies = {} } = manifest] *)
Definition deps_of (m : Manifest) : list (string * string) :=
  default [] (dependencies m).

(** [const { workspaces = [] } = manifest] *)
Definition workspaces_of (m : Manifest) : list string :=
  default [] (workspaces m).

(** [Object.keys(dependencies)] *)
Definition keys (deps : list (string * string)) : list string := deps.*1.

(** Own properties first, then those every object inherits from
    [Object.prototype]. *)
Definition object_prototype_keys : list string :=
  ["constructor"; "__proto__"; "hasOwnProperty"; "isPrototypeOf";
   "propertyIsEnumerable"; "toLocaleString"; "toString"; "valueOf";
   "__defineGetter__"; "__defineSetter__"; "__lookupGetter__";
   "__lookupSetter__"].

Fixpoint own_property (deps : list (string * string)) (k : string)
  : option string :=
  match deps with
  | [] => None
  | (k', v) :: r => if decide (k' = k) then Some v else own_property r k
  end.

(** Truth value of [dependencies[k]]: an own version string is truthy unless
    empty; an inherited member is a function or object, hence truthy; a
    missing property is [undefined]. *)
Definition truthy_get (deps : list (string * string)) (k : string) : bool :=
  match own_property deps k with
  | Some v => negb (Str.is_empty v)
  | None => bool_decide (k ∈ object_prototype_keys)
  end.

(** ** Asynchronous tasks

    A task takes the state and gives the state and its result, or [None]
    when the model ran out of fuel. *)
Definition Task (S A : Type) : Type := S → option (S * res A).

(** [Promise.all(tasks)]: every task runs, here one after the other; the
    results in order, or the rejection of the first task in the list that
    rejects. *)
Fixpoint promise_all {S A : Type} (tasks : list (Task S A)) : Task S (list A) :=
  λ s,
    match tasks with
    | [] => Some (s, Ok [])
    | t :: ts =>
        match t s with
        | None => None
        | Some (s1, r1) =>
            match promise_all ts s1 with
            | None => None
            | Some (s2, rs) =>
                Some (s2, match r1, rs with
                          | Err e, _ => Err e
                          | Ok _, Err e => Err e
                          | Ok a, Ok l => Ok (a :: l)
                          end)
            end
        end
    end.

(** ** The plugin *)

(** The handler of [link]: [e.code === 'EEXIST'] is swallowed, everything
    else is thrown again. *)
Definition link_catch (e : Error) : res unit :=
  if decide (e = EEXIST) then Ok () else Err e.

(** [link(target, f)] *)
Definition link (target f : string) (w : World) : World * res unit :=
  match Fs.ensureDir (w_fs w) (w_cwd w) (Path.dirname f) with
  | Err e => (w, Err e)
  | Ok fs1 =>
      match Fs.symlink fs1 (w_cwd w) target f with
      | Ok fs2 => (set_fs w fs2, Ok ())
      | Err e => (set_fs w fs1, link_catch e)
      end
  end.

Record Settings := {
  settings_path : string
}.

(** [settings.workspacePath], computed by the constructor: one directory up. *)
Definition workspacePath (s : Settings) : string :=
  Str.join (removelast (Str.split (settings_path s))).

(** The loop of [getWorkspaceDependencies] (and of [initialise]): the
    entries of [workspaces] whose property of [dependencies] is truthy are
    pushed, in order, onto [acc]. *)
Fixpoint push_relevant (deps : list (string * string))
    (workspaces acc : list string) : list string :=
  match workspaces with
  | [] => acc
  | currentWorkspace :: rest =>
      push_relevant deps rest
        (if truthy_get deps currentWorkspace
         then acc ++ [currentWorkspace] else acc)
  end.

(** [getWorkspaceDependencies()] *)
Definition getWorkspaceDependencies (s : Settings) (w : World)
  : World * res (list string) :=
  match require w (Path.join [settings_path s; "package.json"]) with
  | (w1, Err e) => (w1, Err e)
  | (w1, Ok target) =>
      match require w1 (Path.join [workspacePath s; "package.json"]) with
      | (w2, Err e) => (w2, Err e)
      | (w2, Ok root) =>
          (w2, Ok (push_relevant (deps_of target) (workspaces_of root) []))
      end
  end.

Definition is_symlink (n : Node) : bool :=
  match n with NLink _ => true | _ => false end.

Definition is_directory (n : Node) : bool :=
  match n with NDir => true | _ => false end.

(** [isScopedPkgDir] *)
Definition isScopedPkgDir (c : string * Node) : bool :=
  is_directory c.2 && Str.startsWith "@" c.1.

(** The inner [clean(p)] of the [clean] hook. *)
Fixpoint clean (fuel : nat) (p : string) : Task World unit :=
  λ w,
    match fuel with
    | O => None
    | S fuel' =>
        if negb (Fs.exists_ (w_fs w) (w_cwd w) p) then Some (w, Ok ())
        else
          match Fs.readdir (w_fs w) (w_cwd w) p with
          | Err e => Some (w, Err e)
          | Ok files =>
              match
                promise_all
                  (map (λ f w0,
                          Some (w0,
                                match Fs.lstat (w_fs w0) (w_cwd w0)
                                        (Path.join [p; f]) with
                                | Ok n => Ok (f, n)
                                | Err e => Err e
                                end)) files) w
              with
              | None => None
              | Some (w1, Err e) => Some (w1, Err e)
              | Some (w1, Ok contents) =>
                  match
                    promise_all
                      (map (λ c w0,
                              Some match Fs.unlink (w_fs w0) (w_cwd w0)
                                           (Path.join [p; c.1]) with
                                   | Ok fs' => (set_fs w0 fs', Ok ())
                                   | Err e => (w0, Err e)
                                   end)
                           (filter (λ c, is_symlink c.2) contents)) w1
                  with
                  | None => None
                  | Some (w2, Err e) => Some (w2, Err e)
                  | Some (w2, Ok _) =>
                      let contents1 :=
                        filter (λ c, ¬ is_symlink c.2) contents in
                      match
                        promise_all
                          (map (λ c, clean fuel' (Path.join [p; c.1]))
                               (filter (λ c, isScopedPkgDir c) contents1)) w2
                      with
                      | None => None
                      | Some (w3, Err e) => Some (w3, Err e)
                      | Some (w3, Ok _) =>
                          let contents2 :=
                            filter (λ c, ¬ isScopedPkgDir c) contents1 in
                          match contents2 with
                          | [] =>
                              match Fs.rmdir (w_fs w3) (w_cwd w3) p with
                              | Ok fs' => Some (set_fs w3 fs', Ok ())
                              | Err e => Some (w3, Err e)
                              end
                          | _ => Some (w3, Ok ())
                          end
                      end
                  end
              end
          end
    end.

(** The [clean()] hook: the target's [node_modules], then those of the
    relevant workspaces. *)
Definition cleanHook (fuel : nat) (s : Settings) : Task World unit :=
  λ w,
    match clean fuel (Path.join [settings_path s; "node_modules"]) w with
    | None => None
    | Some (w1, Err e) => Some (w1, Err e)
    | Some (w1, Ok _) =>
        match getWorkspaceDependencies s w1 with
        | (w2, Err e) => Some (w2, Err e)
        | (w2, Ok peripheralWorkspaces) =>
            match
              promise_all
                (map (λ workspace,
                        clean fuel
                          (Path.join [workspacePath s; workspace;
                                      "node_modules"]))
                     peripheralWorkspaces) w2
            with
            | None => None
            | Some (w3, Err e) => Some (w3, Err e)
            | Some (w3, Ok _) => Some (w3, Ok ())
            end
        end
    end.

Section Linking.

(** [require.resolve(request, { paths })] of Node: the file name of the
    module, or [None] when it throws.  It honours the export maps of
    packages; nothing is assumed about it. *)
Variable require_resolve : World → string → list string → option string.

(** The fallback scan of [linkPackage]: the first candidate directory
    under which the manifest exists. *)
Fixpoint scan_paths (w : World) (name : string) (paths : list string)
  : option string :=
  match paths with
  | [] => None
  | pth :: rest =>
      if Fs.exists_ (w_fs w) (w_cwd w) (Path.join [pth; name; "package.json"])
      then Some (Path.join [pth; name; "package.json"])
      else scan_paths w name rest
  end.

(** The value of [pkg] after both attempts; [None] is [undefined].  An
    empty string is as falsy as [undefined] for [if (!pkg)]. *)
Definition locate (w : World) (name : string) (paths : list string)
  : option string :=
  match require_resolve w (Path.join [name; "package.json"]) paths with
  | Some pkg => if Str.is_empty pkg then scan_paths w name paths else Some pkg
  | None => scan_paths w name paths
  end.

(** [(pkg.match(/node_modules/g) || []).length <= 1] *)
Definition hoisted (pkg : string) : bool :=
  bool_decide (Str.count_matches "node_modules" pkg ≤ 1).

(** Lines 83 to 88 of [linkPackage]: the link, made when the manifest path
    is hoisted and the name not yet in [created]; the name is added to the
    set before [link] is called. *)
Definition create_link (name toPath pkg : string)
  : World * gset string → (World * gset string) * res unit :=
  λ '(w, created),
    let target :=
      Path.relative (w_cwd w)
        (Path.join [toPath; Path.dirname name]) (Path.dirname pkg) in
    if hoisted pkg && bool_decide (name ∉ created) then
      let f := Path.join [toPath; name] in
      let c := {| lc_name := name; lc_pkg := pkg;
                  lc_target := target; lc_file := f |} in
      let '(w1, r) := link target f (record_link w c) in
      ((w1, {[name]} ∪ created), r)
    else ((w, created), Ok ()).

(** Lines 90 to 96: the manifest of the package is loaded and [self], the
    recursive call, runs on every dependency. *)
Definition link_dependencies
    (self : string → string → string → list string →
            Task (World * gset string) unit)
    (name toPath pkg : string) (resolved : list string)
  : Task (World * gset string) unit :=
  λ '(w, created),
    match require w pkg with
    | (w1, Err e) => Some ((w1, created), Err e)
    | (w1, Ok manifest) =>
        match
          promise_all
            (map (λ dep,
                    self dep (Path.dirname pkg) toPath (resolved ++ [name]))
                 (keys (deps_of manifest))) (w1, created)
        with
        | None => None
        | Some (st, Err e) => Some (st, Err e)
        | Some (st, Ok _) => Some (st, Ok ())
        end
    end.

(** [linkPackage(name, fromPath, toPath, created, resolved)]; the state is
    the world and the [created] set the pass shares.  With [pkg] undefined,
    [path.dirname(pkg)] throws before anything is changed. *)
Fixpoint linkPackage (fuel : nat) (name fromPath toPath : string)
    (resolved : list string) : Task (World * gset string) unit :=
  λ st,
    match fuel with
    | O => None
    | S fuel' =>
        if bool_decide (name ∈ resolved) then Some (st, Ok ())
        else
          match locate st.1 name (getNodeModulePaths fromPath) with
          | None => Some (st, Err ERR_INVALID_ARG_TYPE)
          | Some pkg =>
              match create_link name toPath pkg st with
              | (st1, Err e) => Some (st1, Err e)
              | (st1, Ok _) =>
                  link_dependencies (linkPackage fuel') name toPath pkg
                    resolved st1
              end
          end
    end.

(** [processLinkages(linkagePath)]: one pass, with its own [created]. *)
Definition processLinkages (fuel : nat) (linkagePath : string)
  : Task World unit :=
  λ w,
    match require w (Path.join [linkagePath; "package.json"]) with
    | (w1, Err e) => Some (w1, Err e)
    | (w1, Ok manifest) =>
        let contents : gset string := ∅ in
        match
          promise_all
            (map (λ name,
                    linkPackage fuel name linkagePath
                      (Path.join [linkagePath; "node_modules"]) [])
                 (keys (deps_of manifest))) (w1, contents)
        with
        | None => None
        | Some ((w2, _), Err e) => Some (w2, Err e)
        | Some ((w2, _), Ok _) => Some (w2, Ok ())
        end
    end.

(** The list [workspacesToLink] of [initialise] once its loop has run. *)
Definition workspacesToLink (deps : list (string * string))
    (workspaces relevant : list string) : list string :=
  push_relevant deps workspaces relevant.

(** [initialise()] *)
Definition initialise (fuel : nat) (s : Settings) : Task World unit :=
  λ w,
    match require w (Path.join [settings_path s; "package.json"]) with
    | (w1, Err e) => Some (w1, Err e)
    | (w1, Ok target) =>
        match require w1 (Path.join [workspacePath s; "package.json"]) with
        | (w2, Err e) => Some (w2, Err e)
        | (w2, Ok root) =>
            match getWorkspaceDependencies s w2 with
            | (w3, Err e) => Some (w3, Err e)
            | (w3, Ok relevant) =>
                match
                  promise_all
                    (map (λ currentWorkspace,
                            processLinkages fuel
                              (Path.join [workspacePath s; currentWorkspace]))
                         (workspacesToLink (deps_of target)
                            (workspaces_of root) relevant)) w3
                with
                | None => None
                | Some (w4, Err e) => Some (w4, Err e)
                | Some (w4, Ok _) => processLinkages fuel (settings_path s) w4
                end
            end
        end
    end.

End Linking.

(** ** Scenarios *)

Module Scenario.

(** A manifest that depends on [deps], any version. *)
Definition manifest_of (deps : list string) : Manifest :=
  {| dependencies := Some (map (λ d, (d, "*")) deps); workspaces := None |}.

Definition package (deps : list string) : Node :=
  NFile (Some (manifest_of deps)).

(** The manifest of a workspace root. *)
Definition root_manifest (members : list string) : Node :=
  NFile (Some {| dependencies := None; workspaces := Some members |}).

(** A file system from a list of absolute paths. *)
Definition disk (entries : list (string * Node)) : FS :=
  list_to_map (map (λ e, (tail (Str.split e.1), e.2)) entries).

(** The world of a process that has just started in [/]. *)
Definition boot (fs : FS) : World :=
  {| w_fs := fs; w_cwd := "/"; w_cache := ∅; w_trace := [] |}.

(** [require.resolve] when every package hides its manifest behind an
    export map: it always throws, and the fallback scan decides. *)
Definition resolve_never : World → string → list string → option string :=
  λ _ _ _, None.

(** [require.resolve] when no package has an export map: the first
    candidate directory that has the file, as a canonical path. *)
Fixpoint resolve_plain (w : World) (request : string) (paths : list string)
  : option string :=
  match paths with
  | [] => None
  | pth :: rest =>
      match Fs.realpath (w_fs w) (w_cwd w) (Path.join [pth; request]) with
      | Ok k =>
          match w_fs w !! k with
          | Some (NFile _) => Some ("/" +:+ Str.join k)
          | _ => resolve_plain w request rest
          end
      | Err _ => resolve_plain w request rest
      end
  end.

(** The state a run ends in; [d] when the fuel did not suffice. *)
Definition state_after {S A : Type} (d : S) (o : option (S * res A)) : S :=
  match o with
  | Some (s, _) => s
  | None => d
  end.

(** The result of a run. *)
Definition result_of {S A : Type} (o : option (S * res A)) : option (res A) :=
  snd <$> o.

(** The entries of the file system a run of [clean] ends in, and its
    result. *)
Definition listing (o : option (World * res unit))
  : option (list (list string * Node) * res unit) :=
  match o with
  | Some (w, r) => Some (map_to_list (w_fs w), r)
  | None => None
  end.

(** The symbolic links of a world, with their targets. *)
Definition symlinks (w : World) : list (list string * string) :=
  omap (λ kv, match kv.2 with NLink t => Some (kv.1, t) | _ => None end)
       (map_to_list (w_fs w)).

(** The paths [link] was called for during a run, in order. *)
Definition pass_files (o : option (World * res unit))
  : option (list string) :=
  match o with
  | Some (w, _) => Some (lc_file <$> w_trace w)
  | None => None
  end.

(** Another process rewrites the file at the canonical path [k]. *)
Definition overwrite (w : World) (k : list string) (n : Node) : World :=
  set_fs w (<[k := n]> (w_fs w)).

(** The names [link] was called for, in order, and the result. *)
Definition link_names (o : option (World * gset string * res unit))
  : option (list string * res unit) :=
  match o with
  | Some ((w, _), r) => Some (lc_name <$> w_trace w, r)
  | None => None
  end.

(** A→B→A, both hoisted. *)
Definition cycle : World := boot (disk [
  ("/ws", NDir); ("/ws/app", NDir); ("/ws/app/package.json", package ["A"]);
  ("/ws/node_modules", NDir);
  ("/ws/node_modules/A", NDir);
  ("/ws/node_modules/A/package.json", package ["B"]);
  ("/ws/node_modules/B", NDir);
  ("/ws/node_modules/B/package.json", package ["A"])]).

(** A→B, A→C, B→D, C→D. *)
Definition diamond : World := boot (disk [
  ("/ws", NDir); ("/ws/app", NDir); ("/ws/app/package.json", package ["A"]);
  ("/ws/node_modules", NDir);
  ("/ws/node_modules/A", NDir);
  ("/ws/node_modules/A/package.json", package ["B"; "C"]);
  ("/ws/node_modules/B", NDir);
  ("/ws/node_modules/B/package.json", package ["D"]);
  ("/ws/node_modules/C", NDir);
  ("/ws/node_modules/C/package.json", package ["D"]);
  ("/ws/node_modules/D", NDir);
  ("/ws/node_modules/D/package.json", package [])]).


(** [app] depends on [A], hoisted; [A] carries its own copy of [B]. *)
Definition nested : World := boot (disk [
  ("/ws", NDir); ("/ws/app", NDir); ("/ws/app/package.json", package ["A"]);
  ("/ws/node_modules", NDir);
  ("/ws/node_modules/A", NDir);
  ("/ws/node_modules/A/package.json", package ["B"]);
  ("/ws/node_modules/A/node_modules", NDir);
  ("/ws/node_modules/A/node_modules/B", NDir);
  ("/ws/node_modules/A/node_modules/B/package.json", package ["C"]);
  ("/ws/node_modules/C", NDir);
  ("/ws/node_modules/C/package.json", package [])]).

(** The end-to-end scenario of the specification: a workspace root with
    the members [pkgA] and [pkgB]; [pkgA] depends on [pkgB] and
    [lodash]. *)
Definition monorepo : World := boot (disk [
  ("/ws", NDir); ("/ws/package.json", root_manifest ["pkgA"; "pkgB"]);
  ("/ws/pkgA", NDir); ("/ws/pkgA/package.json", package ["pkgB"; "lodash"]);
  ("/ws/pkgB", NDir); ("/ws/pkgB/package.json", package ["lodash"]);
  ("/ws/node_modules", NDir);
  ("/ws/node_modules/lodash", NDir);
  ("/ws/node_modules/lodash/package.json", package []);
  ("/ws/node_modules/pkgA", NLink "../pkgA");
  ("/ws/node_modules/pkgB", NLink "../pkgB")]).

Definition pkgA : Settings := {| settings_path := "/ws/pkgA" |}.

(** [app] depends on [P]; [P] depends on [M]; a hoisted [M] has no
    dependencies, while a copy of [M] under [app] depends on [Z]. *)
Definition shadowed : World := boot (disk [
  ("/ws", NDir); ("/ws/package.json", root_manifest ["app"]);
  ("/ws/app", NDir); ("/ws/app/package.json", package ["P"]);
  ("/ws/app/node_modules", NDir);
  ("/ws/app/node_modules/M", NDir);
  ("/ws/app/node_modules/M/package.json", package ["Z"]);
  ("/ws/node_modules", NDir);
  ("/ws/node_modules/P", NDir);
  ("/ws/node_modules/P/package.json", package ["M"]);
  ("/ws/node_modules/M", NDir);
  ("/ws/node_modules/M/package.json", package []);
  ("/ws/node_modules/Z", NDir);
  ("/ws/node_modules/Z/package.json", package [])]).

Definition app_pkg : Settings := {| settings_path := "/ws/app" |}.

(** A [node_modules] with one link and one scope directory that holds a
    link and a package installed in place. *)
Definition scoped_install : World := boot (disk [
  ("/ws", NDir); ("/ws/app", NDir);
  ("/ws/app/node_modules", NDir);
  ("/ws/app/node_modules/x", NLink "../../node_modules/x");
  ("/ws/app/node_modules/@s", NDir);
  ("/ws/app/node_modules/@s/l", NLink "../../../node_modules/@s/l");
  ("/ws/app/node_modules/@s/real", NDir);
  ("/ws/app/node_modules/@s/real/package.json", package [])]).

(** A [node_modules] with links, a scope directory of links only, a
    regular file and a package installed in place. *)
Definition mixed_install : World := boot (disk [
  ("/ws", NDir); ("/ws/app", NDir);
  ("/ws/app/node_modules", NDir);
  ("/ws/app/node_modules/x", NLink "../../node_modules/x");
  ("/ws/app/node_modules/@s", NDir);
  ("/ws/app/node_modules/@s/l", NLink "../../../node_modules/@s/l");
  ("/ws/app/node_modules/.yarn-integrity", NFile None);
  ("/ws/app/node_modules/real", NDir);
  ("/ws/app/node_modules/real/package.json", package [])]).

(** A directory with one link and one file in it. *)
Definition tiny : World :=
  boot (disk [("/d", NDir); ("/d/x", NLink "t"); ("/d/f", NFile None)]).

(** A workspace root whose members are listed by name; [pkgA] depends
    on two of them. *)
Definition flat_root : World := boot (disk [
  ("/ws", NDir); ("/ws/package.json", root_manifest ["pkgA"; "pkgB"; "pkgC"]);
  ("/ws/pkgA", NDir);
  ("/ws/pkgA/package.json", package ["pkgC"; "lodash"; "pkgB"])]).

(** A workspace root that lists its member by a path; [app] depends on
    the member by its name. *)
Definition pathed_root : World := boot (disk [
  ("/ws", NDir); ("/ws/package.json", root_manifest ["packages/pkgB"]);
  ("/ws/app", NDir); ("/ws/app/package.json", package ["pkgB"]);
  ("/ws/packages", NDir); ("/ws/packages/pkgB", NDir);
  ("/ws/packages/pkgB/package.json", package [])]).

(** The target manifest of the monorepo, read once and then rewritten to
    depend on nothing. *)
Definition monorepo_rewritten : World :=
  overwrite (require monorepo "/ws/pkgA/package.json").1
    ["ws"; "pkgA"; "package.json"] (package []).

(** The world of [shadowed] after one run of setup. *)
Definition shadowed_once : World :=
  state_after shadowed (initialise resolve_never 4 app_pkg shadowed).

(** The world of [diamond] after the pass on [app]. *)
Definition diamond_linked : World :=
  state_after diamond (processLinkages resolve_never 4 "/ws/app" diamond).

(** The world of [nested] after the pass on [app]. *)
Definition nested_linked : World :=
  state_after nested (processLinkages resolve_never 4 "/ws/app" nested).


(** The world of [mixed_install] after [clean]. *)
Definition mixed_cleaned : World :=
  state_after mixed_install (clean 3 "/ws/app/node_modules" mixed_install).

End Scenario.

Import Scenario.

(** ** Notions for the statements *)

(** *** Names and segments *)

Definition no_slash (s : string) : Prop :=
  Forall (λ c, Str.is_slash c = false) (Str.to_list s).

Global Instance no_slash_dec s : Decision (no_slash s).
Proof. unfold no_slash. apply _. Defined.

(** A name that is one path segment: no separator, and not one of the
    segments [path.normalize] interprets. *)
Definition proper (f : string) : Prop :=
  f ≠ "" ∧ f ≠ "." ∧ f ≠ ".." ∧ no_slash f.

(** The first segment of a path string, and the segments after it. *)
Definition first_seg (s : string) : string := default "" (head (Str.split s)).
Definition later_segs (s : string) : list string := tail (Str.split s).

(** How many of the segments [l] are [pat]. *)
Definition count_segs (pat : string) (l : list string) : nat :=
  length (filter (λ s, s = pat) l).

(** Path segments equal to [node_modules]: the count the specification
    speaks of, where the code counts matches of a pattern. *)
Definition nm_segments (pkg : string) : nat :=
  length (filter (λ s, s = "node_modules") (Str.split pkg)).

(** The selection of workspaces as the specification words it: the members
    whose final path component names a key of the dependencies. *)
Definition final_component (member : string) : string :=
  default "" (last (Str.split member)).

Definition selected_by_spec (deps : list (string * string))
    (workspaces : list string) : list string :=
  filter (λ member, final_component member ∈ keys deps) workspaces.

(** *** Growth of the file system *)

(** [fs'] has everything [fs] has, unchanged, and no file that [fs] lacks. *)
Definition fs_extends (fs fs' : FS) : Prop :=
  fs ⊆ fs' ∧ ∀ k c, fs' !! k = Some (NFile c) → fs !! k = Some (NFile c).


(** *** The names a world can mention *)

Definition manifest_names (m : Manifest) : gset string :=
  list_to_set (keys (deps_of m)).

Definition node_names (n : Node) : gset string :=
  match n with NFile (Some m) => manifest_names m | _ => ∅ end.

(** Every dependency name of every manifest on disk or in the cache. *)
Definition world_names (w : World) : gset string :=
  ⋃ (map (λ kv, node_names kv.2) (map_to_list (w_fs w))) ∪
  ⋃ (map (λ kv, manifest_names kv.2) (map_to_list (w_cache w))).

(** *** What one pass records *)

(** The calls of [link] a pass has added to the record [t0] it started
    from: one per name at most, every name in [created], every link under
    [toPath], every manifest path hoisted. *)
Definition pass_invariant (toPath : string) (t0 : list LinkCall)
    (st : World * gset string) : Prop :=
  ∃ added,
    w_trace st.1 = t0 ++ added ∧
    NoDup (lc_name <$> added) ∧
    Forall (λ x, lc_name x ∈ st.2 ∧
                 lc_file x = Path.join [toPath; lc_name x] ∧
                 hoisted (lc_pkg x) = true) added.

(** *** A dependency nothing locates *)





(** *** What [clean] may remove *)

(** An entry whose own name begins with the scope marker. *)
Definition scoped_key (k : list string) : Prop :=
  ∃ f, last k = Some f ∧ Str.startsWith "@" f = true.

(** No entry name of the file system contains the separator. *)
Definition wf_names (fs : FS) : Prop :=
  map_Forall (λ k _, Forall no_slash k) fs.

Global Instance wf_names_dec fs : Decision (wf_names fs).
Proof. unfold wf_names. apply _. Defined.

(** [fs'] is [fs] less some symbolic links and some directories that are
    empty in [fs'] and satisfy [Q]; nothing else differs. *)
Definition cleaned_by (Q : list string → Prop) (fs fs' : FS) : Prop :=
  fs' ⊆ fs ∧
  ∀ k n, fs !! k = Some n → fs' !! k = None →
         is_symlink n = true ∨ (n = NDir ∧ Fs.children fs' k = [] ∧ Q k).

(** The invariant of a run of [clean] that started in the world [w0]: only
    the file system has changed, by removals [Q] allows. *)
Definition clean_inv (Q : list string → Prop) (w0 w : World) : Prop :=
  cleaned_by Q (w_fs w0) (w_fs w) ∧ w_cwd w = w_cwd w0 ∧
  w_cache w = w_cache w0 ∧ w_trace w = w_trace w0.

(** ** The constructor and the hooks *)

(** What the constructor reads of the [serverless] object:
    [service.custom], its entry [serverlessMonoRepo] and the [path] of that
    entry, each of which may be missing, and [config.servicePath]. *)
Record MonoRepoCustom := {
  custom_path : option string
}.

Record Custom := {
  serverlessMonoRepo : option MonoRepoCustom
}.

Record Serverless := {
  service_custom : option Custom;
  config_servicePath : option string
}.

(** [a || b] on strings that may be [undefined]: the empty string is as
    falsy as [undefined]. *)
Definition or_else (a b : option string) : option string :=
  match a with
  | Some s => if Str.is_empty s then b else Some s
  | None => b
  end.

(** The constructor, lines 40 to 47.  With neither a configured path nor a
    service path, [this.settings.path.split] throws a [TypeError]: [None]. *)
Definition ServerlessMonoRepo (serverless : Serverless) : option Settings :=
  let custom :=
    default {| serverlessMonoRepo := None |} (service_custom serverless) in
  let settings :=
    default {| custom_path := None |} (serverlessMonoRepo custom) in
  match or_else (custom_path settings) (config_servicePath serverless) with
  | None => None
  | Some p => Some {| settings_path := p |}
  end.

(** The three entries of [this.hooks]. *)
Inductive Hook :=
  | package_cleanup
  | package_initialize
  | deploy_function_initialize.

Section Hooks.

Variable require_resolve : World → string → list string → option string.

Definition hooks (fuel : nat) (s : Settings) (h : Hook) : Task World unit :=
  match h with
  | package_cleanup => cleanHook fuel s
  | package_initialize => initialise require_resolve fuel s
  | deploy_function_initialize =>
      λ w,
        match cleanHook fuel s w with
        | None => None
        | Some (w1, Err e) => Some (w1, Err e)
        | Some (w1, Ok _) => initialise require_resolve fuel s w1
        end
  end.

End Hooks.

(** ** More notions for the statements *)

(** The test of the fallback scan of [linkPackage]: the candidate
    directory [q] has a manifest for [name]. *)
Definition has_manifest (w : World) (name q : string) : bool :=
  Fs.exists_ (w_fs w) (w_cwd w) (Path.join [q; name; "package.json"]).

(** The calls of [link] made since the record [t0] have left their
    entries in the world [w]. *)
Definition calls_made (t0 : list LinkCall) (w : World) : Prop :=
  ∃ added,
    w_trace w = t0 ++ added ∧
    Forall (λ x, ∃ n, Fs.lstat (w_fs w) (w_cwd w) (lc_file x) = Ok n) added.

(** The same for the state of a pass, which carries [created]. *)
Definition links_made (t0 : list LinkCall) (st : World * gset string) : Prop :=
  calls_made t0 st.1.

(** What a run of [clean] keeps of the world [w]: nothing is added, every
    regular file stays as it is, and only the file system changes. *)
Definition keeps (w w' : World) : Prop :=
  w_fs w' ⊆ w_fs w ∧
  (∀ k c, w_fs w !! k = Some (NFile c) → w_fs w' !! k = Some (NFile c)) ∧
  w_cwd w' = w_cwd w ∧ w_cache w' = w_cache w ∧ w_trace w' = w_trace w.

(** The regular files of two file systems are the same, with the same
    content. *)
Definition same_files (fs fs' : FS) : Prop :=
  ∀ k c, fs !! k = Some (NFile c) ↔ fs' !! k = Some (NFile c).

(** The file system has lost entries at most, and the working directory
    is the same. *)
Definition shrinks (w w' : World) : Prop :=
  w_fs w' ⊆ w_fs w ∧ w_cwd w' = w_cwd w.

(** What the [clean] hook keeps of the world: as [keeps], but the module
    cache may have grown by the manifests loaded. *)
Definition keeps_files (w w' : World) : Prop :=
  w_fs w' ⊆ w_fs w ∧
  (∀ k c, w_fs w !! k = Some (NFile c) → w_fs w' !! k = Some (NFile c)) ∧
  w_cwd w' = w_cwd w ∧ w_trace w' = w_trace w.

(** A segment that [path.normalize] keeps as it is. *)
Definition plain (s : string) : Prop := s ≠ "" ∧ s ≠ "." ∧ s ≠ "..".

(** What one turn of the loop of [getNodeModulePaths] pushes, for the
    segments [paths] that are left. *)
Definition candidate (paths : list string) : string :=
  Path.join [if Str.is_empty (Str.join paths) then Path.sep
             else Str.join paths; "node_modules"].

(** The target of the call [x] of [link], read from the directory the code
    took it relative to, leads to the directory of the package. *)
Definition leads_to_package (cwd toPath : string) (x : LinkCall) : Prop :=
  Path.resolve_segs cwd
    (Path.join [toPath; Path.dirname (lc_name x)] +:+ "/" +:+ lc_target x)
  = Path.resolve_segs cwd (Path.dirname (lc_pkg x)).

(** The length of the longest canonical path of the file system. *)
Definition depth (fs : FS) : nat :=
  max_list ((λ kv, length kv.1) <$> map_to_list fs).

(** A path as [path.join] gives it when its last argument is a proper
    name: the normal form of a string that ends in that name. *)
Definition settled (P : string) : Prop :=
  ∃ s l c, proper c ∧ Str.split s = l ++ [c] ∧ P = Path.normalize s.

(** Every entry name of the file system is a proper name. *)
Definition wf_entries (fs : FS) : Prop :=
  map_Forall (λ k _, Forall proper k) fs.

Global Instance proper_dec f : Decision (proper f).
Proof. unfold proper. apply _. Defined.

Global Instance wf_entries_dec fs : Decision (wf_entries fs).
Proof. unfold wf_entries. apply _. Defined.

(** What a run of [clean] below the directory [kp] may have done to the
    world [w]: entries are lost at most, and only at or below [kp]. *)
Definition lost_below (kp : list string) (w w' : World) : Prop :=
  shrinks w w' ∧
  ∀ k n, w_fs w !! k = Some n → w_fs w' !! k = None → kp `prefix_of` k.

(** The directories the [clean] hook, started in the world [w], calls
    [clean] on: the [node_modules] of the target and, once that is cleaned,
    the [node_modules] of every workspace [getWorkspaceDependencies] then
    returns. *)
Definition cleaned_path (fuel : nat) (s : Settings) (w : World) (p : string)
  : Prop :=
  p = Path.join [settings_path s; "node_modules"] ∨
  ∃ w1 w2 peripheralWorkspaces workspace,
    clean fuel (Path.join [settings_path s; "node_modules"]) w
      = Some (w1, Ok ()) ∧
    getWorkspaceDependencies s w1 = (w2, Ok peripheralWorkspaces) ∧
    workspace ∈ peripheralWorkspaces ∧
    p = Path.join [workspacePath s; workspace; "node_modules"].

(** *** Manifest files rewritten behind the cache *)

(** What a path walk sees of an entry: its kind, and the target of a
    link, but not the content of a file. *)
Definition shape (n : Node) : Node :=
  match n with NFile _ => NFile None | _ => n end.

Definition shape_entry (c : string * Node) : string * Node :=
  (c.1, shape c.2).

Definition res_map {A B} (f : A → B) (r : res A) : res B :=
  match r with Ok a => Ok (f a) | Err e => Err e end.

(** [wA] is [w] after regular files whose manifest the module cache holds
    have been rewritten: the same entries of the same kinds, the same
    content in every file whose canonical name is not in the cache, the
    same cache, working directory and record of calls. *)
Definition rewritten (w wA : World) : Prop :=
  w_cwd wA = w_cwd w ∧ w_cache wA = w_cache w ∧ w_trace wA = w_trace w ∧
  shape <$> w_fs wA = shape <$> w_fs w ∧
  ∀ k c, w_cache w !! k = None → w_fs w !! k = Some (NFile c) →
         w_fs wA !! k = Some (NFile c).

(** Two runs end alike: both out of fuel, or both with the same result in
    states that [R] relates. *)
Definition out_rel {S A} (R : S → S → Prop) (o oA : option (S * res A))
  : Prop :=
  match o, oA with
  | Some (s', r), Some (sA', rA) => rA = r ∧ R s' sA'
  | None, None => True
  | _, _ => False
  end.

Definition same_outcome {A} (o oA : option (World * res A)) : Prop :=
  out_rel rewritten o oA.

(** The same for the state of a pass, with the same [created]. *)
Definition same_state (st stA : World * gset string) : Prop :=
  rewritten st.1 stA.1 ∧ stA.2 = st.2.

(** The module cache of [w'] against that of [w]: every manifest [w] had
    loaded is there unchanged, and every other one is the content of the
    file of that name in [w]. *)
Definition cache_grown (w w' : World) : Prop :=
  w_cache w ⊆ w_cache w' ∧
  ∀ k m, w_cache w' !! k = Some m →
         w_cache w !! k = Some m ∨ w_fs w !! k = Some (NFile (Some m)).

(** The invariant of a run of a hook that started in [w0]: the cache has
    grown as [cache_grown] says, and every regular file is a file of
    [w0]. *)
Definition cache_inv (w0 w : World) : Prop :=
  cache_grown w0 w ∧
  ∀ k c, w_fs w !! k = Some (NFile c) → w_fs w0 !! k = Some (NFile c).

(** *** More scenarios *)


(** A workspace root with two members; [leaf] depends on nothing. *)
Definition lone : World := boot (disk [
  ("/ws", NDir); ("/ws/package.json", root_manifest ["leaf"; "other"]);
  ("/ws/leaf", NDir); ("/ws/leaf/package.json", package [])]).

Definition leaf : Settings := {| settings_path := "/ws/leaf" |}.

(** The world of [monorepo] after setup for [pkgA]. *)
Definition monorepo_linked : World :=
  state_after monorepo (initialise resolve_plain 3 pkgA monorepo).


(** * Proofs *)

Global Arguments Fs.walk : simpl never.

(** ** Tasks in sequence *)

Section PromiseAll.
Context {S A : Type}.
Implicit Types (tasks pre post : list (Task S A)) (t : Task S A) (s : S).

(** What every task keeps, [Promise.all] keeps. *)
Lemma promise_all_preserves (I : S → Prop) tasks s s' r :
  (∀ t s0 s1 r0, t ∈ tasks → t s0 = Some (s1, r0) → I s0 → I s1) →
  promise_all tasks s = Some (s', r) → I s → I s'.
Proof.
  revert s s' r. induction tasks as [|t ts IH]; intros s s' r Hstep Hrun Hs.
  - simpl in Hrun. by simplify_eq.
  - simpl in Hrun.
    destruct (t s) as [[s1 r1]|] eqn:Ht; [|done].
    destruct (promise_all ts s1) as [[s2 rs]|] eqn:Hts; [|done].
    simplify_eq.
    eapply IH; [|exact Hts|].
    + intros t' s0 s1' r0 Hin. apply Hstep. by right.
    + eapply Hstep; [by left|exact Ht|done].
Qed.

(** Tasks that all return, return together. *)
Lemma promise_all_returns (I : S → Prop) tasks s :
  (∀ t s0, t ∈ tasks → I s0 → ∃ s1 r0, t s0 = Some (s1, r0) ∧ I s1) →
  I s → ∃ s' r, promise_all tasks s = Some (s', r) ∧ I s'.
Proof.
  revert s. induction tasks as [|t ts IH]; intros s Hstep Hs.
  - simpl. eauto.
  - simpl.
    destruct (Hstep t s) as (s1 & r1 & Ht & Hs1); [by left|done|].
    rewrite Ht.
    destruct (IH s1) as (s2 & rs & Hts & Hs2); [|done|].
    { intros t' s0 Hin. apply Hstep. by right. }
    rewrite Hts. eauto.
Qed.

(** A rejected task rejects the whole. *)
Lemma promise_all_rejects pre t post s s1 s2 e s' r :
  promise_all pre s = Some (s1, r) →
  t s1 = Some (s2, Err e) →
  ∀ r', promise_all (pre ++ t :: post) s = Some (s', r') → ∃ e', r' = Err e'.
Proof.
  revert s r. induction pre as [|t0 pre IH]; intros s r Hpre Ht r' Hall.
  - simpl in *. simplify_eq. rewrite Ht in Hall.
    destruct (promise_all post s2) as [[??]|]; [|done]. simplify_eq. eauto.
  - simpl in *.
    destruct (t0 s) as [[s0 r0]|]; [|done].
    destruct (promise_all pre s0) as [[s3 r3]|] eqn:Hp; [|done].
    destruct (promise_all (pre ++ t :: post) s0) as [[s4 r4]|] eqn:Hq; [|done].
    simplify_eq.
    destruct (IH s0 r3 Hp Ht r4 Hq) as [e' ->].
    destruct r0; eauto.
Qed.
End PromiseAll.

(** ** The file system only grows under [link] *)

Lemma fs_extends_refl fs : fs_extends fs fs.
Proof. split; [done|auto]. Qed.

Lemma fs_extends_trans fs1 fs2 fs3 :
  fs_extends fs1 fs2 → fs_extends fs2 fs3 → fs_extends fs1 fs3.
Proof.
  intros [H1 F1] [H2 F2]. split; [by etrans|]. intros k c H. eauto.
Qed.

Lemma fs_extends_insert (fs : FS) k n :
  fs !! k = None → (∀ c, n ≠ NFile c) → fs_extends fs (<[k := n]> fs).
Proof.
  intros Hk Hn. split; [by apply insert_subseteq|].
  intros k' c. rewrite lookup_insert. case_decide; [|done].
  intros ?; simplify_eq. by destruct (Hn c).
Qed.

Lemma mkdirs_extends todo : ∀ fs cur fs',
  Fs.mkdirs fs cur todo = Ok fs' → fs_extends fs fs'.
Proof.
  induction todo as [|s rest IH]; intros fs cur fs' H; simpl in H.
  - simplify_eq. apply fs_extends_refl.
  - repeat case_decide; eauto.
    destruct (fs !! (cur ++ [s])) as [[c| |t]|] eqn:Hk.
    + by destruct rest.
    + eauto.
    + destruct (Fs.walk _ _ _ _) as [k|]; [|done].
      destruct (Fs.is_dir fs k); [eauto|done].
    + eapply fs_extends_trans; [|by eapply IH].
      by apply fs_extends_insert.
Qed.

Lemma ensureDir_extends fs cwd p fs' :
  Fs.ensureDir fs cwd p = Ok fs' → fs_extends fs fs'.
Proof.
  unfold Fs.ensureDir. destruct (Str.is_empty p); [done|]. apply mkdirs_extends.
Qed.

Lemma symlink_extends fs cwd target p fs' :
  Fs.symlink fs cwd target p = Ok fs' → fs_extends fs fs'.
Proof.
  unfold Fs.symlink. destruct (Str.is_empty target); [done|].
  destruct (Fs.lkey fs cwd p) as [k|]; [|done].
  case_decide; [done|]. destruct (fs !! k) eqn:Hk; [done|].
  intros ?; simplify_eq. by apply fs_extends_insert.
Qed.

(** [link] leaves the working directory, the module cache and the record of
    calls alone, and the file system only gains directories and links. *)
Lemma link_world target f w w' r :
  link target f w = (w', r) →
  fs_extends (w_fs w) (w_fs w') ∧ w_cwd w' = w_cwd w ∧
  w_cache w' = w_cache w ∧ w_trace w' = w_trace w.
Proof.
  unfold link. destruct (Fs.ensureDir _ _ _) as [fs1|e] eqn:Hd.
  - apply ensureDir_extends in Hd.
    destruct (Fs.symlink _ _ _ _) as [fs2|e] eqn:Hs; intros ?; simplify_eq;
      simpl; [|done].
    apply symlink_extends in Hs. eauto using fs_extends_trans.
  - intros ?; simplify_eq. eauto using fs_extends_refl.
Qed.

(** ** The loader *)

Lemma require_world w file w' r :
  require w file = (w', r) →
  w_fs w' = w_fs w ∧ w_cwd w' = w_cwd w ∧ w_trace w' = w_trace w ∧
  (w' = w ∨ ∃ k m, r = Ok m ∧ w_cache w !! k = None ∧
                   w_fs w !! k = Some (NFile (Some m)) ∧
                   w' = cache_insert w k m).
Proof.
  unfold require.
  destruct (negb (Path.isAbsolute file)); [intros; simplify_eq; eauto|].
  destruct (Fs.realpath _ _ _) as [k|]; [|intros; simplify_eq; eauto].
  destruct (w_cache w !! k) eqn:Hc; [intros; simplify_eq; eauto|].
  destruct (w_fs w !! k) as [[[m|]| |]|] eqn:Hk; intros; simplify_eq; eauto 10.
Qed.

(** A manifest [require] returns is in the cache afterwards. *)
Lemma require_cached w file w' m :
  require w file = (w', Ok m) → ∃ k, w_cache w' !! k = Some m.
Proof.
  unfold require. destruct (negb (Path.isAbsolute file)); [done|].
  destruct (Fs.realpath _ _ _) as [k|]; [|done].
  destruct (w_cache w !! k) eqn:Hc; [intros; simplify_eq; eauto|].
  destruct (w_fs w !! k) as [[[m'|]| |]|] eqn:Hk; intros; simplify_eq.
  exists k. simpl. by rewrite lookup_insert_eq.
Qed.

(** ** The names a world can mention *)

Lemma elem_of_world_names w n :
  n ∈ world_names w ↔
  (∃ k m, w_fs w !! k = Some (NFile (Some m)) ∧ n ∈ manifest_names m) ∨
  (∃ k m, w_cache w !! k = Some m ∧ n ∈ manifest_names m).
Proof.
  unfold world_names. rewrite elem_of_union, !elem_of_union_list.
  split.
  - intros [(X & HX & Hn)|(X & HX & Hn)].
    + apply list_elem_of_fmap in HX as ([k nd] & -> & Hin).
      apply elem_of_map_to_list in Hin. simpl in *.
      destruct nd as [[m|]| |]; simpl in Hn; [left; eauto|set_solver..].
    + apply list_elem_of_fmap in HX as ([k m] & -> & Hin).
      apply elem_of_map_to_list in Hin. right; eauto.
  - intros [(k & m & Hk & Hn)|(k & m & Hk & Hn)].
    + left. exists (manifest_names m). split; [|done].
      apply list_elem_of_fmap. exists (k, NFile (Some m)). split; [done|].
      by apply elem_of_map_to_list.
    + right. exists (manifest_names m). split; [|done].
      apply list_elem_of_fmap. exists (k, m). split; [done|].
      by apply elem_of_map_to_list.
Qed.

Lemma world_names_link target f w w' r :
  link target f w = (w', r) → world_names w' ⊆ world_names w.
Proof.
  intros ([_ Hf] & _ & Hc & _)%link_world n.
  rewrite !elem_of_world_names, Hc.
  intros [(k & m & Hk & Hn)|?]; [left|by right]. eauto.
Qed.

Lemma world_names_record w c : world_names (record_link w c) = world_names w.
Proof. done. Qed.

Lemma world_names_require w file w' r :
  require w file = (w', r) → world_names w' ⊆ world_names w.
Proof.
  intros (Hfs & _ & _ & [->|(k & m & -> & Hc & Hk & ->)])%require_world; [done|].
  intros n. rewrite !elem_of_world_names. simpl.
  intros [?|(k' & m' & Hk' & Hn)]; [by left|].
  rewrite lookup_insert in Hk'. case_decide; simplify_eq; [left|right]; eauto.
Qed.

Lemma require_names w file w' m :
  require w file = (w', Ok m) → manifest_names m ⊆ world_names w'.
Proof.
  intros [k Hk]%require_cached n Hn. apply elem_of_world_names. right; eauto.
Qed.

(** ** One call of [linkPackage], step by step *)

(** The two ways through lines 83 to 88: nothing happens, or the name joins
    [created], the call is recorded and [link] runs. *)
Lemma create_link_cases name toPath pkg w c st1 r :
  create_link name toPath pkg (w, c) = (st1, r) →
  (st1 = (w, c) ∧ r = Ok tt ∧ ((hoisted pkg = false) ∨ (name ∈ c))) ∨
  (∃ w1 call,
      st1 = (w1, {[name]} ∪ c) ∧ hoisted pkg = true ∧ (name ∉ c) ∧
      lc_name call = name ∧ lc_pkg call = pkg ∧
      lc_file call = Path.join [toPath; name] ∧
      link (lc_target call) (lc_file call) (record_link w call) = (w1, r)).
Proof.
  unfold create_link.
  destruct (hoisted pkg) eqn:Hh; simpl; [|intros; simplify_eq; left; eauto].
  case_bool_decide as Hc; simpl.
  - destruct (link _ _ _) as [w1 r1] eqn:Hl. intros; simplify_eq. right.
    eexists w1, (Build_LinkCall _ _ _ _). simpl. split_and!; try done.
  - intros; simplify_eq. left. split_and!; [done..|].
    by right.
Qed.

Section LinkingFacts.

Variable require_resolve : World → string → list string → option string.

(** A property of the state that both steps of a call keep is kept by the
    whole recursion. *)
Lemma linkPackage_preserves (I : World * gset string → Prop) toPath :
  (∀ name pkg st st1 r,
      I st → create_link name toPath pkg st = (st1, r) → I st1) →
  (∀ w c file w1 r, I (w, c) → require w file = (w1, r) → I (w1, c)) →
  ∀ fuel name fromPath resolved st st' r,
    linkPackage require_resolve fuel name fromPath toPath resolved st
      = Some (st', r) →
    I st → I st'.
Proof.
  intros Hcreate Hrequire.
  induction fuel as [|fuel IH]; intros name fromPath resolved st st' r;
    [done|].
  simpl. case_bool_decide; [by intros; simplify_eq|].
  destruct (locate _ _ _ _) as [pkg|]; [|by intros; simplify_eq].
  destruct (create_link name toPath pkg st) as [st1 [[]|e]] eqn:Hc;
    [|intros; simplify_eq; eauto].
  intros Hrun Hst.
  assert (I st1) as Hst1 by eauto.
  destruct st1 as [w1 c1]. unfold link_dependencies in Hrun.
  destruct (require w1 pkg) as [w2 [m|e]] eqn:Hr;
    [|simplify_eq; eauto].
  assert (I (w2, c1)) as Hst2 by eauto.
  destruct (promise_all _ _) as [[st3 r3]|] eqn:Hall; [|done].
  assert (I st3).
  { eapply promise_all_preserves; [|exact Hall|exact Hst2].
    intros t s0 s1 r0 (dep & -> & _)%list_elem_of_fmap. apply IH. }
  destruct r3; by simplify_eq.
Qed.

(** The same for a whole pass. *)
Lemma processLinkages_preserves (I : World * gset string → Prop) fuel p w w' r :
  (∀ name pkg st st1 r,
      I st → create_link name (Path.join [p; "node_modules"]) pkg st
             = (st1, r) → I st1) →
  (∀ w c file w1 r, I (w, c) → require w file = (w1, r) → I (w1, c)) →
  processLinkages require_resolve fuel p w = Some (w', r) →
  I (w, ∅) → ∃ c, I (w', c).
Proof.
  intros Hcreate Hrequire. unfold processLinkages.
  destruct (require w _) as [w1 [m|e]] eqn:Hr;
    [|intros; simplify_eq; eauto].
  destruct (promise_all _ _) as [[[w2 c2] r2]|] eqn:Hall; [|done].
  intros Hrun Hw. exists c2.
  assert (I (w2, c2)).
  { eapply promise_all_preserves; [|exact Hall|by eauto].
    intros t s0 s1 r0 (dep & -> & _)%list_elem_of_fmap.
    by apply linkPackage_preserves. }
  destruct r2; by simplify_eq.
Qed.

(** *** Termination

    [U] bounds the names the world mentions.  A call adds its name to the
    ancestry before it recurses, the name is in [U] and was not in the
    ancestry: the part of [U] outside the ancestry shrinks at every level,
    and fuel above its size is never used up. *)
Lemma create_link_names name toPath pkg st st1 r (U : gset string) :
  create_link name toPath pkg st = (st1, r) →
  world_names st.1 ⊆ U → world_names st1.1 ⊆ U.
Proof.
  destruct st as [w c].
  intros [(-> & _)|(w1 & call & -> & _ & _ & _ & _ & _ & Hl)]%create_link_cases;
    [done|].
  apply world_names_link in Hl. rewrite world_names_record in Hl.
  simpl. set_solver.
Qed.

Lemma linkPackage_returns (U : gset string) toPath :
  ∀ fuel name fromPath resolved st,
    world_names st.1 ⊆ U → name ∈ U →
    size (U ∖ list_to_set resolved) < fuel →
    ∃ st' r,
      linkPackage require_resolve fuel name fromPath toPath resolved st
        = Some (st', r) ∧
      world_names st'.1 ⊆ U.
Proof.
  induction fuel as [|fuel IH]; intros name fromPath resolved st HU Hname Hfuel;
    [lia|].
  simpl. case_bool_decide as Hin; [eauto|].
  destruct (locate _ _ _ _) as [pkg|]; [|eauto].
  destruct (create_link name toPath pkg st) as [st1 [[]|e]] eqn:Hc;
    pose proof (create_link_names _ _ _ _ _ _ U Hc HU) as HU1; [|eauto].
  destruct st1 as [w1 c1]. unfold link_dependencies.
  destruct (require w1 pkg) as [w2 [m|e]] eqn:Hr;
    pose proof (world_names_require _ _ _ _ Hr) as HU2;
    [|eexists _, _; split; [done|simpl in *; set_solver]].
  pose proof (require_names _ _ _ _ Hr) as Hm.
  destruct (promise_all_returns (λ st, world_names st.1 ⊆ U)
              (map (λ dep, linkPackage require_resolve fuel dep
                             (Path.dirname pkg) toPath (resolved ++ [name]))
                   (keys (deps_of m))) (w2, c1))
    as (st3 & r3 & Hall & HU3).
  - intros t s0 (dep & -> & Hdep)%list_elem_of_fmap Hs0.
    apply IH; [done| |].
    + apply (elem_of_list_to_set (C:=gset string)) in Hdep.
      simpl in *. set_solver.
    + rewrite list_to_set_app_L. simpl.
      assert (U ∖ (list_to_set resolved ∪ ({[name]} ∪ ∅))
                ⊂ U ∖ list_to_set resolved) as Hlt%subset_size; [|lia].
      assert (name ∉ (list_to_set resolved : gset string)) by set_solver.
      set_solver.
  - simpl in *. set_solver.
  - rewrite Hall. destruct r3; eauto.
Qed.

(** Fuel above the number of names of the world, plus one for the name
    called, suffices. *)
Lemma linkPackage_returns_bound fuel name fromPath toPath resolved w created :
  size (world_names w) + 1 < fuel →
  ∃ st' r,
    linkPackage require_resolve fuel name fromPath toPath resolved
      (w, created) = Some (st', r).
Proof.
  intros Hfuel.
  destruct (linkPackage_returns (world_names w ∪ {[name]})
              toPath fuel name fromPath resolved (w, created))
    as (st' & r & Hrun & _); [simpl; set_solver|set_solver| |eauto].
  eapply Nat.le_lt_trans; [|exact Hfuel].
  etrans; [apply subseteq_size, subseteq_difference_l; reflexivity|].
  rewrite size_union_alt.
  assert (size ({[name]} ∖ world_names w : gset string) ≤ 1); [|lia].
  etrans; [apply subseteq_size, subseteq_difference_l; reflexivity|].
  by rewrite size_singleton.
Qed.

End LinkingFacts.

(** ** Segments against matches

    [linkPackage] counts the matches of [/node_modules/g] in the manifest
    path; the specification counts path segments.  Every segment that is
    [node_modules] is a match, so the count of matches bounds the count of
    segments. *)

Module StrFacts.

Lemma split_cons s : Str.split s = first_seg s :: later_segs s.
Proof.
  unfold first_seg, later_segs.
  destruct s as [|c r]; simpl; [done|].
  destruct (Str.is_slash c); [done|]. by destruct (Str.split r).
Qed.

Lemma split_String c r :
  Str.split (String c r) =
  if Str.is_slash c then "" :: Str.split r
  else String c (first_seg r) :: later_segs r.
Proof.
  simpl. destruct (Str.is_slash c); [done|]. by rewrite (split_cons r).
Qed.

Lemma first_seg_String c r :
  first_seg (String c r) =
  if Str.is_slash c then "" else String c (first_seg r).
Proof. unfold first_seg at 1. rewrite split_String. by destruct (Str.is_slash c). Qed.

Lemma later_segs_String c r :
  later_segs (String c r) =
  if Str.is_slash c then Str.split r else later_segs r.
Proof. unfold later_segs at 1. rewrite split_String. by destruct (Str.is_slash c). Qed.

(** A separator-free prefix lies inside the first segment. *)
Lemma prefix_in_first_seg pat : ∀ s,
  no_slash pat → String.prefix pat s = true →
  String.length pat ≤ String.length (first_seg s).
Proof.
  induction pat as [|a pat IH]; intros s Hns Hp; simpl; [lia|].
  destruct s as [|c r]; [done|]. simpl in Hp.
  destruct (ascii_dec a c) as [->|]; [|done].
  apply Forall_cons in Hns as [Hc Hns].
  rewrite first_seg_String, Hc. simpl. apply IH in Hp; [lia|done].
Qed.

(** The first segment is a prefix. *)
Lemma first_seg_prefix s : String.prefix (first_seg s) s = true.
Proof.
  induction s as [|c r IH]; [done|].
  rewrite first_seg_String. destruct (Str.is_slash c); [done|].
  simpl. by destruct (ascii_dec c c).
Qed.

Lemma count_segs_cons pat x l :
  count_segs pat (x :: l) =
  (if decide (x = pat) then 1 else 0) + count_segs pat l.
Proof. unfold count_segs. rewrite filter_cons. by case_decide. Qed.

(** While [skip] stays inside the first segment, the scan finds every
    later segment that is the pattern, and the first one too when it
    starts there. *)
Lemma count_from_segments pat :
  no_slash pat → pat ≠ "" →
  ∀ s skip,
    skip ≤ String.length (first_seg s) →
    count_segs pat (later_segs s) +
      (if decide (skip = 0 ∧ first_seg s = pat) then 1 else 0)
    ≤ Str.count_from pat skip s.
Proof.
  intros Hns Hne. induction s as [|c r IH]; intros skip Hskip.
  - simpl. case_decide as H; [|done]. destruct H as [_ H].
    by destruct pat.
  - rewrite first_seg_String in *. rewrite later_segs_String.
    destruct skip as [|k].
    + change (Str.count_from pat 0 (String c r)) with
        (if String.prefix pat (String c r)
         then S (Str.count_from pat (String.length pat - 1) r)
         else Str.count_from pat 0 r).
      destruct (Str.is_slash c) eqn:Hc.
      * assert (String.prefix pat (String c r) = false) as ->.
        { destruct pat as [|a pat]; [done|]. simpl.
          destruct (ascii_dec a c) as [->|]; [|done].
          apply Forall_cons in Hns as [Hns _]. congruence. }
        specialize (IH 0 ltac:(lia)). rewrite (split_cons r), count_segs_cons.
        repeat case_decide; destruct_and?; simplify_eq; try lia.
        all: naive_solver.
      * destruct (String.prefix pat (String c r)) eqn:Hp.
        -- pose proof (prefix_in_first_seg _ _ Hns Hp) as Hlen.
           rewrite first_seg_String, Hc in Hlen. simpl in Hlen.
           specialize (IH (String.length pat - 1) ltac:(lia)).
           repeat case_decide; lia.
        -- specialize (IH 0 ltac:(lia)).
           destruct (decide (0 = 0 ∧ String c (first_seg r) = pat))
             as [[_ H1]|_].
           { pose proof (first_seg_prefix (String c r)) as Hf.
             rewrite first_seg_String, Hc, H1 in Hf. congruence. }
           case_decide; lia.
    + simpl. destruct (Str.is_slash c); simpl in Hskip; [lia|].
      specialize (IH k ltac:(lia)).
      destruct (decide (S k = 0 ∧ String c (first_seg r) = pat))
        as [[? _]|_]; [lia|].
      case_decide; lia.
Qed.

End StrFacts.

(** Segments named [node_modules] are among the matches of the pattern. *)
Lemma nm_segments_le_matches pkg :
  nm_segments pkg ≤ Str.count_matches "node_modules" pkg.
Proof.
  unfold nm_segments, Str.count_matches.
  pose proof (StrFacts.count_from_segments "node_modules") as H.
  specialize (H ltac:(by repeat constructor) ltac:(done) pkg 0 ltac:(lia)).
  rewrite (StrFacts.split_cons pkg).
  change (length (filter _ (?x :: ?l))) with (count_segs "node_modules" (x :: l)).
  rewrite StrFacts.count_segs_cons.
  repeat case_decide; naive_solver lia.
Qed.

Lemma pass_invariant_create toPath t0 name pkg st st1 r :
  pass_invariant toPath t0 st →
  create_link name toPath pkg st = (st1, r) →
  pass_invariant toPath t0 st1.
Proof.
  destruct st as [w c]. intros (added & Ht & Hnd & Hall).
  intros [(-> & _)|(w1 & call & -> & Hh & Hc & Hn & Hp & Hf & Hl)]%create_link_cases.
  { by exists added. }
  apply link_world in Hl as (_ & _ & _ & Htr). simpl in *.
  exists (added ++ [call]). split_and!.
  - simpl. by rewrite Htr, Ht, (assoc_L (++)).
  - rewrite fmap_app. apply NoDup_app. split_and!; [done| |apply NoDup_singleton].
    intros n Hin ->%list_elem_of_singleton.
    apply list_elem_of_fmap in Hin as (x & Hx & Hin).
    rewrite Forall_forall in Hall. apply Hall in Hin as (Hin & _).
    congruence.
  - apply Forall_app. split.
    + eapply Forall_impl; [done|]. intros x (? & ? & ?). split_and!; [set_solver|done..].
    + apply Forall_singleton. rewrite Hn, Hp. split_and!; [set_solver|congruence|done].
Qed.

Lemma pass_invariant_require toPath t0 w c file w1 r :
  pass_invariant toPath t0 (w, c) → require w file = (w1, r) →
  pass_invariant toPath t0 (w1, c).
Proof.
  intros (added & Ht & ?) (_ & _ & Htr & _)%require_world.
  exists added. simpl in *. by rewrite Htr.
Qed.


(** ** The path walk *)

Module FsFacts.

Lemma walk_nil n fs cur : Fs.walk n fs cur [] = Ok cur.
Proof. by destruct n. Qed.

Lemma walk_cons n fs cur s rest :
  Fs.walk n fs cur (s :: rest) =
  if decide (s = "" ∨ s = ".") then Fs.walk n fs cur rest
  else if decide (s = "..") then Fs.walk n fs (removelast cur) rest
  else
    match fs !! (cur ++ [s]) with
    | None => Err ENOENT
    | Some NDir => Fs.walk n fs (cur ++ [s]) rest
    | Some (NFile _) =>
        match rest with [] => Ok (cur ++ [s]) | _ => Err ENOTDIR end
    | Some (NLink t) =>
        match n with
        | O => Err ELOOP
        | S l =>
            if Str.is_empty t then Err ENOENT
            else Fs.walk l fs (if Path.isAbsolute t then [] else cur)
                   (Str.split t ++ rest)
        end
    end.
Proof. by destruct n. Qed.

(** A walk that succeeds in a smaller file system succeeds, with the same
    result, in a larger one. *)
Lemma walk_mono (fs0 fs : FS) :
  fs0 ⊆ fs → ∀ n cur todo k,
    Fs.walk n fs0 cur todo = Ok k → Fs.walk n fs cur todo = Ok k.
Proof.
  intros Hsub. induction n as [|n IHn].
  - intros cur todo. revert cur.
    induction todo as [|s rest IH]; intros cur k; [by rewrite !walk_nil|].
    rewrite !walk_cons. repeat case_decide; eauto.
    destruct (fs0 !! (cur ++ [s])) as [nd|] eqn:Hk; [|done].
    rewrite (lookup_weaken _ _ _ _ Hk Hsub). destruct nd; eauto.
  - intros cur todo. revert cur.
    induction todo as [|s rest IH]; intros cur k; [by rewrite !walk_nil|].
    rewrite !walk_cons. repeat case_decide; eauto.
    destruct (fs0 !! (cur ++ [s])) as [nd|] eqn:Hk; [|done].
    rewrite (lookup_weaken _ _ _ _ Hk Hsub). destruct nd; eauto.
    destruct (Str.is_empty target); eauto.
Qed.

Lemma is_dir_mono (fs0 fs : FS) k :
  fs0 ⊆ fs → Fs.is_dir fs0 k = true → Fs.is_dir fs k = true.
Proof.
  unfold Fs.is_dir. intros Hsub [H|H]%orb_true_iff; apply orb_true_iff.
  - by left.
  - right. apply bool_decide_eq_true in H. apply bool_decide_eq_true.
    by eapply lookup_weaken.
Qed.

Lemma lkey_mono (fs0 fs : FS) cwd p k :
  fs0 ⊆ fs → Fs.lkey fs0 cwd p = Ok k → Fs.lkey fs cwd p = Ok k.
Proof.
  intros Hsub. unfold Fs.lkey. destruct (Str.is_empty p); [done|].
  destruct (Fs.unsnoc _) as [[parent name]|]; [|done].
  case_decide; [by apply walk_mono|].
  destruct (Fs.walk _ fs0 _ _) as [k0|] eqn:Hw; [|done].
  rewrite (walk_mono _ _ Hsub _ _ _ _ Hw).
  destruct (Fs.is_dir fs0 k0) eqn:Hd; [|done].
  by rewrite (is_dir_mono _ _ _ Hsub Hd).
Qed.

Lemma unsnoc_snoc l x : Fs.unsnoc (l ++ [x]) = Some (l, x).
Proof. induction l as [|y l IH]; simpl; [done|]. by rewrite IH. Qed.

Lemma unsnoc_Some l i x : Fs.unsnoc l = Some (i, x) → l = i ++ [x].
Proof.
  revert i. induction l as [|y l IH]; intros i; simpl; [done|].
  destruct (Fs.unsnoc l) as [[i' x']|] eqn:Hu.
  - intros; simplify_eq. by rewrite (IH i' eq_refl).
  - intros; simplify_eq. destruct l; [done|]. simpl in Hu.
    by destruct (Fs.unsnoc l) as [[??]|].
Qed.

Lemma child_of_Some k key f : Fs.child_of k key = Some f ↔ key = k ++ [f].
Proof.
  unfold Fs.child_of. split.
  - destruct (Fs.unsnoc key) as [[i x]|] eqn:Hu; [|done].
    case_decide; [|done]. intros; simplify_eq. by apply unsnoc_Some.
  - intros ->. rewrite unsnoc_snoc. by rewrite decide_True.
Qed.

Lemma elem_of_children (fs : FS) k f :
  f ∈ Fs.children fs k ↔ is_Some (fs !! (k ++ [f])).
Proof.
  unfold Fs.children. rewrite list_elem_of_omap. split.
  - intros ([key n] & Hin%elem_of_map_to_list & Hc). simpl in Hc.
    apply child_of_Some in Hc as ->. eauto.
  - intros [n Hn]. exists (k ++ [f], n). split.
    + by apply elem_of_map_to_list.
    + by apply child_of_Some.
Qed.

Lemma children_nil (fs : FS) k :
  Fs.children fs k = [] ↔ ∀ f, fs !! (k ++ [f]) = None.
Proof.
  split.
  - intros H f. apply eq_None_not_Some. rewrite <-elem_of_children, H.
    apply not_elem_of_nil.
  - intros H. apply elem_of_nil_inv. intros f Hf%elem_of_children.
    rewrite H in Hf. by destruct Hf.
Qed.

Lemma children_nil_mono (fs0 fs : FS) k :
  fs0 ⊆ fs → Fs.children fs k = [] → Fs.children fs0 k = [].
Proof.
  rewrite !children_nil. intros Hsub H f.
  destruct (fs0 !! (k ++ [f])) eqn:Hk; [|done].
  specialize (H f). by rewrite (lookup_weaken _ _ _ _ Hk Hsub) in H.
Qed.

End FsFacts.

(** ** Joining a name to a path *)

Module PathFacts.
Import StrFacts.

Lemma app_String (c : ascii) (a b : string) :
  String c a +:+ b = String c (a +:+ b).
Proof. done. Qed.

Lemma app_empty_r (s : string) : s +:+ "" = s.
Proof. induction s as [|c s IH]; [done|]. by rewrite app_String, IH. Qed.

Lemma app_assoc (a b c : string) : (a +:+ b) +:+ c = a +:+ (b +:+ c).
Proof. induction a as [|x a IH]; [done|]. by rewrite !app_String, IH. Qed.

Lemma split_app_slash a b :
  Str.split (a +:+ String Str.slash b) = Str.split a ++ Str.split b.
Proof.
  induction a as [|c a IH].
  - done.
  - rewrite app_String. simpl. rewrite IH.
    destruct (Str.is_slash c); [done|].
    rewrite (split_cons a). done.
Qed.

Lemma split_no_slash f : no_slash f → Str.split f = [f].
Proof.
  induction f as [|c f IH]; [done|].
  intros [Hc Hf]%Forall_cons. simpl. rewrite Hc, (IH Hf). done.
Qed.

Lemma no_slash_split s : Forall no_slash (Str.split s).
Proof.
  induction s as [|c s IH]; simpl.
  - repeat constructor.
  - destruct (Str.is_slash c) eqn:Hc.
    + constructor; [constructor|done].
    + rewrite (split_cons s) in IH |- *.
      apply Forall_cons in IH as [H1 H2].
      constructor; [|done]. by constructor.
Qed.

Lemma join_cons2 x y r :
  Str.join (x :: y :: r) = x +:+ String Str.slash (Str.join (y :: r)).
Proof. done. Qed.

Lemma split_join ys :
  ys ≠ [] → Forall no_slash ys → Str.split (Str.join ys) = ys.
Proof.
  induction ys as [|x [|y r] IH]; intros Hne Hall; [done| |].
  - apply Forall_cons in Hall as [Hx _]. by apply split_no_slash.
  - apply Forall_cons in Hall as [Hx Hr].
    rewrite join_cons2, split_app_slash, IH by done.
    by rewrite (split_no_slash x).
Qed.

Lemma join_snoc_nonempty ys f : f ≠ "" → Str.is_empty (Str.join (ys ++ [f])) = false.
Proof.
  intros Hf. destruct ys as [|x [|y r]].
  - simpl. by destruct f.
  - simpl. by destruct x.
  - change (x :: y :: r) with ([x] ++ y :: r). rewrite <-(assoc_L (++)).
    simpl. destruct (r ++ [f]) eqn:E; [by destruct r|]. by destruct x.
Qed.

Lemma normalize_segs_no_slash b segs : ∀ acc,
  Forall no_slash acc → Forall no_slash segs →
  Forall no_slash (Path.normalize_segs b acc segs).
Proof.
  assert (no_slash "..") as Hdd by repeat constructor.
  induction segs as [|s r IH]; intros acc Hacc Hsegs; simpl.
  - by apply Forall_rev.
  - apply Forall_cons in Hsegs as [Hs Hr].
    repeat case_decide; try (by apply IH).
    + destruct acc as [|top acc'].
      * apply IH; [|done]. destruct b; by repeat constructor.
      * apply Forall_cons in Hacc as [? ?].
        case_decide; apply IH; try done.
        destruct b; by repeat constructor.
    + apply IH; [|done]. by constructor.
Qed.

Lemma normalize_segs_snoc b f : proper f → ∀ l acc,
  Path.normalize_segs b acc (l ++ [f]) = Path.normalize_segs b acc l ++ [f].
Proof.
  intros (Hne & Hd & Hdd & _). induction l as [|s r IH]; intros acc; simpl.
  - rewrite decide_False by naive_solver. by rewrite decide_False.
  - repeat case_decide; try apply IH.
    destruct acc as [|top acc']; [apply IH|]. case_decide; apply IH.
Qed.

(** The segments [Fs.lkey] walks for a joined path end with the name. *)
Lemma segments_join cwd p f :
  proper f →
  ∃ l, filter (λ s, s ≠ "" ∧ s ≠ ".") (Fs.segments cwd (Path.join [p; f]))
       = l ++ [f] ∧
       Str.is_empty (Path.join [p; f]) = false.
Proof.
  intros Hf. pose proof Hf as (Hne & Hd & Hdd & Hns).
  assert (∃ s, Path.join [p; f] = Path.normalize s ∧
               ∃ l, Str.split s = l ++ [f]) as (s & -> & l & Hs).
  { unfold Path.join. rewrite filter_cons.
    case_decide as Hp.
    - rewrite filter_cons, decide_True by done. simpl.
      exists (p +:+ String Str.slash f). split; [done|].
      exists (Str.split p). by rewrite split_app_slash, (split_no_slash f).
    - rewrite filter_cons, decide_True by done. simpl.
      exists f. split; [done|]. exists []. by rewrite split_no_slash. }
  unfold Path.normalize.
  destruct (Str.is_empty s) eqn:Hes.
  { destruct s; [|done]. simpl in Hs.
    destruct l as [|? [|? ?]]; by simplify_eq/=. }
  rewrite Hs, normalize_segs_snoc by done.
  set (ys := Path.normalize_segs _ _ l).
  assert (Forall no_slash ys) as Hys.
  { apply normalize_segs_no_slash; [constructor|].
    pose proof (no_slash_split s) as H. rewrite Hs in H.
    by apply Forall_app in H as [? _]. }
  rewrite join_snoc_nonempty by done.
  set (pre := if Path.isAbsolute s then "/" else "").
  set (post := if Str.ends_with_slash s then "/" else "").
  assert (Str.split (pre +:+ Str.join (ys ++ [f]) +:+ post) =
          (if Path.isAbsolute s then [""] else []) ++ (ys ++ [f]) ++
          (if Str.ends_with_slash s then [""] else [])) as Hsplit.
  { assert (Str.split (Str.join (ys ++ [f]) +:+ post) =
            (ys ++ [f]) ++ (if Str.ends_with_slash s then [""] else [])) as H1.
    { unfold post. destruct (Str.ends_with_slash s).
      - change "/" with (String Str.slash ""). rewrite split_app_slash.
        rewrite split_join; [done|by destruct ys|].
        apply Forall_app; split; [done|by constructor].
      - rewrite app_empty_r, (right_id_L [] (++)).
        apply split_join; [by destruct ys|].
        apply Forall_app; split; [done|by constructor]. }
    unfold pre. destruct (Path.isAbsolute s).
    - change ("/" +:+ ?x) with (String Str.slash x). simpl.
      replace (Str.is_slash Str.slash) with true by done. by rewrite H1.
    - exact H1. }
  assert (Str.is_empty (pre +:+ Str.join (ys ++ [f]) +:+ post) = false) as Hne'.
  { destruct (pre +:+ Str.join (ys ++ [f]) +:+ post) eqn:E; [|done].
    simpl in Hsplit.
    destruct (Path.isAbsolute s); [done|]. simpl in Hsplit.
    destruct ys as [|y ys]; simpl in Hsplit; [|destruct ys; simplify_eq/=].
    by simplify_eq/=. }
  unfold Fs.segments.
  assert (∀ pfx, ∃ l0,
             filter (λ s, s ≠ "" ∧ s ≠ ".")
               (pfx ++ Str.split (pre +:+ Str.join (ys ++ [f]) +:+ post))
             = l0 ++ [f]) as H.
  { intros pfx. rewrite Hsplit, !filter_app.
    rewrite (filter_cons _ f), decide_True by done. rewrite filter_nil.
    assert (filter (λ s0, s0 ≠ "" ∧ s0 ≠ ".")
              (if Str.ends_with_slash s then [""] else []) = []) as ->.
    { destruct (Str.ends_with_slash s); [|done].
      rewrite filter_cons, decide_False; [done|naive_solver]. }
    eexists. rewrite (right_id_L [] (++)), !(assoc_L (++)). done. }
  destruct (Path.isAbsolute (pre +:+ _)).
  - destruct (H []) as [l0 Hl0]. eauto.
  - destruct (H (Str.split cwd)) as [l0 Hl0]. eauto.
Qed.

(** The entry a joined path names is an entry called by the name. *)
Lemma lkey_join fs cwd p f key :
  proper f → Fs.lkey fs cwd (Path.join [p; f]) = Ok key →
  ∃ k, key = k ++ [f].
Proof.
  intros Hf. destruct (segments_join cwd p f Hf) as (l & Hl & Hne).
  unfold Fs.lkey. rewrite Hne, Hl, FsFacts.unsnoc_snoc.
  destruct Hf as (_ & _ & Hdd & _). rewrite decide_False by done.
  destruct (Fs.walk _ _ _ _) as [k|]; [|done].
  destruct (Fs.is_dir fs k); [|done]. intros; simplify_eq. eauto.
Qed.

End PathFacts.

Lemma cleaned_by_refl Q fs : cleaned_by Q fs fs.
Proof. split; [done|]. intros k n H1 H2. congruence. Qed.

Lemma cleaned_by_trans (Q Q' : list string → Prop) fs0 fs1 fs2 :
  (∀ k, Q' k → Q k) →
  cleaned_by Q fs0 fs1 → cleaned_by Q' fs1 fs2 → cleaned_by Q fs0 fs2.
Proof.
  intros HQ [S1 R1] [S2 R2]. split; [by etrans|].
  intros k n H0 H2. destruct (fs1 !! k) as [n1|] eqn:H1.
  - rewrite (lookup_weaken _ _ _ _ H1 S1) in H0. simplify_eq.
    destruct (R2 k n H1 H2) as [?|(? & ? & ?)]; auto.
  - destruct (R1 k n H0 H1) as [?|(? & ? & ?)]; [auto|].
    right. split_and!; [done| |done]. by eapply FsFacts.children_nil_mono.
Qed.

Lemma wf_names_subseteq (fs fs' : FS) : fs' ⊆ fs → wf_names fs → wf_names fs'.
Proof. intros Hsub Hwf k n Hk. eapply Hwf, lookup_weaken; done. Qed.

Lemma unlink_Ok fs cwd p fs' :
  Fs.unlink fs cwd p = Ok fs' →
  ∃ k n, Fs.lkey fs cwd p = Ok k ∧ k ≠ [] ∧ fs !! k = Some n ∧ n ≠ NDir ∧
         fs' = delete k fs.
Proof.
  unfold Fs.unlink. destruct (Fs.lkey fs cwd p) as [k|]; [|done].
  case_decide; [done|]. destruct (fs !! k) as [[c| |t]|] eqn:Hk; intros;
    simplify_eq; eauto 10.
Qed.

Lemma rmdir_Ok fs cwd p fs' :
  Fs.rmdir fs cwd p = Ok fs' →
  ∃ k, Fs.lkey fs cwd p = Ok k ∧ fs !! k = Some NDir ∧
       Fs.children fs k = [] ∧ fs' = delete k fs.
Proof.
  unfold Fs.rmdir. destruct (Fs.lkey fs cwd p) as [k|]; [|done].
  case_decide; [done|]. destruct (fs !! k) as [[c| |t]|] eqn:Hk; try done.
  destruct (Fs.children fs k) eqn:Hc; [|done]. intros; simplify_eq. eauto.
Qed.

Lemma lstat_Ok fs cwd p n :
  Fs.lstat fs cwd p = Ok n →
  ∃ k, Fs.lkey fs cwd p = Ok k ∧ (k = [] ∧ n = NDir ∨ k ≠ [] ∧ fs !! k = Some n).
Proof.
  unfold Fs.lstat. destruct (Fs.lkey fs cwd p) as [k|]; [|done].
  case_decide; [intros; simplify_eq; eauto|].
  destruct (fs !! k) eqn:Hk; intros; simplify_eq; eauto.
Qed.

Lemma readdir_Ok fs cwd p files :
  Fs.readdir fs cwd p = Ok files →
  ∃ k, Fs.realpath fs cwd p = Ok k ∧ Fs.is_dir fs k = true ∧
       files = Fs.children fs k.
Proof.
  unfold Fs.readdir. destruct (Fs.realpath fs cwd p) as [k|]; [|done].
  destruct (Fs.is_dir fs k) eqn:Hd; [|done]. intros; simplify_eq. eauto.
Qed.

(** The listing of [clean]: the [lstat] of every name, the world untouched. *)
Lemma lstat_all p files w w1 r :
  promise_all
    (map (λ f w0,
            Some (w0,
                  match Fs.lstat (w_fs w0) (w_cwd w0) (Path.join [p; f]) with
                  | Ok n => Ok (f, n)
                  | Err e => Err e
                  end)) files) w = Some (w1, r) →
  w1 = w ∧
  ∀ contents, r = Ok contents →
    Forall (λ c, c.1 ∈ files ∧
                 Fs.lstat (w_fs w) (w_cwd w) (Path.join [p; c.1]) = Ok c.2)
           contents.
Proof.
  revert w1 r. induction files as [|f files IH]; intros w1 r; simpl.
  - intros; simplify_eq. split; [done|]. intros ? [= <-]. constructor.
  - destruct (promise_all _ w) as [[w2 r2]|] eqn:Hall; [|done].
    destruct (IH _ _ eq_refl) as [-> Hc].
    intros; simplify_eq. split; [done|]. intros contents Hr.
    destruct (Fs.lstat _ _ _) as [n|] eqn:Hl; [|done].
    destruct r2 as [l|]; [|done]. simplify_eq.
    constructor; [split; [by left|done]|].
    eapply Forall_impl; [by apply Hc|]. intros c [? ?]. split; [by right|done].
Qed.

Lemma startsWith_at_proper f :
  Str.startsWith "@" f = true → no_slash f → proper f.
Proof.
  intros Hs Hns. split_and!; [..|done]; intros ->; done.
Qed.

Section Clean.

Lemma clean_inv_refl Q w : clean_inv Q w w.
Proof. split; [apply cleaned_by_refl|done]. Qed.

Lemma clean_inv_trans (Q Q' : list string → Prop) w0 w1 w2 :
  (∀ k, Q' k → Q k) →
  clean_inv Q w0 w1 → clean_inv Q' w1 w2 → clean_inv Q w0 w2.
Proof.
  intros HQ (? & ? & ? & ?) (? & ? & ? & ?).
  split; [by eapply cleaned_by_trans|]. split_and!; congruence.
Qed.

(** One [unlink] of the removal step: the entry was a link when listed. *)
Lemma unlink_step Q p w0 w (c : string * Node) w' r :
  clean_inv Q w0 w →
  Fs.lstat (w_fs w0) (w_cwd w0) (Path.join [p; c.1]) = Ok c.2 →
  is_symlink c.2 →
  match Fs.unlink (w_fs w) (w_cwd w) (Path.join [p; c.1]) with
  | Ok fs' => (set_fs w fs', Ok ())
  | Err e => (w, Err e)
  end = (w', r) →
  clean_inv Q w0 w'.
Proof.
  intros Hinv Hl Hs.
  destruct (Fs.unlink _ _ _) as [fs'|e] eqn:Hu; intros; simplify_eq; [|done].
  destruct Hinv as ([Hsub Hrem] & Hcwd & Hcache & Htrace).
  apply unlink_Ok in Hu as (k & n & Hk & Hne & Hn & _ & ->).
  rewrite Hcwd in Hk. apply (FsFacts.lkey_mono _ _ _ _ _ Hsub) in Hk.
  apply lstat_Ok in Hl as (k' & Hk' & [[? _]|[_ Hn']]); [congruence|].
  assert (k' = k) as -> by congruence.
  split; [|done]. simpl. split.
  - etrans; [apply delete_subseteq|done].
  - intros k0 n0 H0 Hd. rewrite lookup_delete in Hd.
    case_decide as Heq.
    + subst k0. left. rewrite Hn' in H0. simplify_eq. by apply Is_true_true.
    + destruct (Hrem k0 n0 H0 Hd) as [?|(? & ? & ?)]; [auto|].
      right. split_and!; [done| |done].
      eapply FsFacts.children_nil_mono; [apply delete_subseteq|done].
Qed.

(** [clean] changes nothing but the file system, and that only by
    removing links and by removing emptied directories: the directory it
    was called on, or directories whose name begins with the scope
    marker. *)
Lemma clean_cleaned : ∀ fuel p w w' r,
  wf_names (w_fs w) → clean fuel p w = Some (w', r) →
  clean_inv (λ k, Fs.lkey (w_fs w) (w_cwd w) p = Ok k ∨ scoped_key k) w w'.
Proof.
  induction fuel as [|fuel IH]; intros p w w' r Hwf; [done|].
  simpl. destruct (Fs.exists_ _ _ _); simpl;
    [|intros; simplify_eq; apply clean_inv_refl].
  destruct (Fs.readdir _ _ _) as [files|e] eqn:Hrd;
    [|intros; simplify_eq; apply clean_inv_refl].
  apply readdir_Ok in Hrd as (kp & _ & _ & Hfiles).
  destruct (promise_all _ w) as [[w1 r1]|] eqn:Hls; [|done].
  apply lstat_all in Hls as [-> Hcontents].
  destruct r1 as [contents|e]; [|intros; simplify_eq; apply clean_inv_refl].
  specialize (Hcontents _ eq_refl). rewrite Forall_forall in Hcontents.
  set (Q := λ k, Fs.lkey (w_fs w) (w_cwd w) p = Ok k ∨ scoped_key k).
  destruct (promise_all _ w) as [[w2 r2]|] eqn:Hul; [|done].
  assert (clean_inv Q w w2) as Hinv2.
  { eapply (promise_all_preserves (clean_inv Q w)); [|exact Hul|apply clean_inv_refl].
    intros t s0 s1 r0 (c & -> & Hc)%list_elem_of_fmap Ht Hs0.
    apply list_elem_of_filter in Hc as [Hsym Hc].
    apply Hcontents in Hc as [_ Hl].
    eapply unlink_step; [exact Hs0|exact Hl|exact Hsym|].
    by simplify_eq. }
  destruct r2 as [?|e]; [|intros; simplify_eq; exact Hinv2].
  destruct (promise_all _ w2) as [[w3 r3]|] eqn:Hrec; [|done].
  assert (clean_inv Q w w3) as Hinv3.
  { eapply (promise_all_preserves (clean_inv Q w)); [|exact Hrec|exact Hinv2].
    intros t s0 s1 r0 (c & -> & Hc)%list_elem_of_fmap Ht Hs0.
    apply list_elem_of_filter in Hc as [Hsc Hc].
    apply list_elem_of_filter in Hc as [_ Hc].
    apply Hcontents in Hc as [Hin _].
    assert (proper c.1) as Hproper.
    { apply andb_prop_elim in Hsc as [_ Hat]. apply Is_true_true in Hat.
      apply startsWith_at_proper; [done|].
      rewrite Hfiles in Hin. apply FsFacts.elem_of_children in Hin as [n Hn].
      apply Hwf in Hn. by apply Forall_app in Hn as [_ [? _]%Forall_cons]. }
    assert (wf_names (w_fs s0)) as Hwf0.
    { destruct Hs0 as ([? _] & _). by eapply wf_names_subseteq. }
    eapply clean_inv_trans; [|exact Hs0|eapply IH; [exact Hwf0|exact Ht]].
    intros k [Hk|Hk]; [|by right]. right.
    apply PathFacts.lkey_join in Hk as [k' ->]; [|done].
    exists c.1. rewrite last_snoc. split; [done|].
    apply andb_prop_elim in Hsc as [_ Hat]. by apply Is_true_true. }
  destruct r3 as [?|e]; [|intros; simplify_eq; exact Hinv3].
  destruct (filter (λ c, ¬ isScopedPkgDir c) _);
    [|intros; simplify_eq; exact Hinv3].
  destruct (Fs.rmdir _ _ _) as [fs'|e] eqn:Hrm; intros; simplify_eq; [|done].
  apply rmdir_Ok in Hrm as (k & Hk & Hn & Hch & ->).
  destruct Hinv3 as ([Hsub Hrem] & Hcwd & Hcache & Htrace).
  rewrite Hcwd in Hk. apply (FsFacts.lkey_mono _ _ _ _ _ Hsub) in Hk.
  split; [|done]. simpl. split.
  - etrans; [apply delete_subseteq|done].
  - intros k0 n0 H0 Hd. rewrite lookup_delete in Hd. case_decide as Heq.
    + subst k0. right. rewrite (lookup_weaken _ _ _ _ Hn Hsub) in H0.
      simplify_eq. split_and!; [done| |by left].
      eapply FsFacts.children_nil_mono; [apply delete_subseteq|done].
    + destruct (Hrem k0 n0 H0 Hd) as [?|(? & ? & ?)]; [auto|].
      right. split_and!; [done| |done].
      eapply FsFacts.children_nil_mono; [apply delete_subseteq|done].
Qed.

End Clean.

(** ** More fuel changes nothing *)

Lemma promise_all_map_mono {S A X} (f g : X → Task S A) l :
  (∀ x s y, f x s = Some y → g x s = Some y) →
  ∀ s y, promise_all (map f l) s = Some y → promise_all (map g l) s = Some y.
Proof.
  intros Hfg. induction l as [|x l IH]; intros s y; simpl; [done|].
  destruct (f x s) as [[s1 r1]|] eqn:Hf; [|done].
  rewrite (Hfg _ _ _ Hf).
  destruct (promise_all (map f l) s1) as [[s2 r2]|] eqn:Hl; [|done].
  by rewrite (IH _ _ Hl).
Qed.

Lemma clean_fuel_mono : ∀ fuel fuel' p w y,
  fuel ≤ fuel' → clean fuel p w = Some y → clean fuel' p w = Some y.
Proof.
  induction fuel as [|fuel IH]; intros fuel' p w y Hle; [done|].
  destruct fuel' as [|fuel']; [lia|]. simpl.
  destruct (Fs.exists_ _ _ _); simpl; [|done].
  destruct (Fs.readdir _ _ _) as [files|]; [|done].
  destruct (promise_all _ w) as [[w1 [contents|]]|]; [|done..].
  destruct (promise_all _ w1) as [[w2 [?|]]|]. 2,3: done.
  destruct (promise_all _ w2) as [[w3 r3]|] eqn:Hrec; [|done].
  rewrite (promise_all_map_mono _ (λ c, clean fuel' (Path.join [p; c.1]))
             _ (λ c s y0, IH fuel' _ s y0 ltac:(lia)) _ _ Hrec).
  done.
Qed.

Section FuelFacts.

Variable require_resolve : World → string → list string → option string.

Lemma linkPackage_fuel_mono : ∀ fuel fuel' name fromPath toPath resolved st y,
  fuel ≤ fuel' →
  linkPackage require_resolve fuel name fromPath toPath resolved st = Some y →
  linkPackage require_resolve fuel' name fromPath toPath resolved st = Some y.
Proof.
  induction fuel as [|fuel IH];
    intros fuel' name fromPath toPath resolved st y Hle; [done|].
  destruct fuel' as [|fuel']; [lia|]. simpl.
  case_bool_decide; [done|].
  destruct (locate _ _ _ _) as [pkg|]; [|done].
  destruct (create_link _ _ _ _) as [[w1 c1] [[]|]]; [|done].
  unfold link_dependencies.
  destruct (require w1 pkg) as [w2 [m|]]; [|done].
  destruct (promise_all _ (w2, c1)) as [[st3 r3]|] eqn:Hall; [|done].
  rewrite (promise_all_map_mono _
             (λ dep, linkPackage require_resolve fuel' dep (Path.dirname pkg)
                       toPath (resolved ++ [name]))
             _ (λ d s y0, IH fuel' _ _ _ _ s y0 ltac:(lia)) _ _ Hall).
  done.
Qed.

Lemma processLinkages_fuel_mono fuel fuel' p w y :
  fuel ≤ fuel' →
  processLinkages require_resolve fuel p w = Some y →
  processLinkages require_resolve fuel' p w = Some y.
Proof.
  intros Hle. unfold processLinkages.
  destruct (require w _) as [w1 [m|]]; [|done].
  destruct (promise_all _ (w1, ∅)) as [[st r]|] eqn:Hall; [|done].
  rewrite (promise_all_map_mono _
             (λ name, linkPackage require_resolve fuel' name p
                        (Path.join [p; "node_modules"]) [])
             _ (λ d s y0, linkPackage_fuel_mono fuel fuel' _ _ _ _ s y0 Hle)
             _ _ Hall).
  done.
Qed.

Lemma initialise_fuel_mono fuel fuel' s w y :
  fuel ≤ fuel' →
  initialise require_resolve fuel s w = Some y →
  initialise require_resolve fuel' s w = Some y.
Proof.
  intros Hle. unfold initialise.
  destruct (require w _) as [w1 [target|]]; [|done].
  destruct (require w1 _) as [w2 [root|]]; [|done].
  destruct (getWorkspaceDependencies s w2) as [w3 [relevant|]]; [|done].
  destruct (promise_all _ w3) as [[w4 r4]|] eqn:Hall; [|done].
  rewrite (promise_all_map_mono _
             (λ currentWorkspace,
                processLinkages require_resolve fuel'
                  (Path.join [workspacePath s; currentWorkspace]))
             _ (λ d s0 y0, processLinkages_fuel_mono fuel fuel' _ s0 y0 Hle)
             _ _ Hall).
  destruct r4; [|done]. by apply processLinkages_fuel_mono.
Qed.

End FuelFacts.

(** ** Reading off a run *)

Lemma pair_snd_eq {A B} (x : A * B) (b : B) : x.2 = b → x = (x.1, b).
Proof. destruct x. simpl. congruence. Qed.

Lemma triple_snd_eq {A B C} (x : A * B * C) (c : C) :
  x.2 = c → x = ((x.1.1, x.1.2), c).
Proof. destruct x as [[a b] c0]. simpl. congruence. Qed.

Lemma run_result_eq {S A} (d : S) (o : option (S * res A)) (r : res A) :
  result_of o = Some r → o = Some (state_after d o, r).
Proof. destruct o as [[s r0]|]; simpl; [|done]. congruence. Qed.

(** ** The selection of workspaces *)

Lemma push_relevant_filter deps wss : ∀ acc,
  push_relevant deps wss acc = acc ++ filter (λ ws, truthy_get deps ws) wss.
Proof.
  induction wss as [|ws wss IH]; intros acc.
  - by rewrite filter_nil, (right_id_L [] (++)).
  - cbn [push_relevant]. rewrite IH, filter_cons.
    destruct (truthy_get deps ws); simpl.
    + by rewrite <-(assoc_L (++)).
    + done.
Qed.

Lemma own_property_Some deps k v :
  own_property deps k = Some v → (k, v) ∈ deps.
Proof.
  induction deps as [|[k' v'] deps IH]; simpl; [done|].
  case_decide; intros; simplify_eq; [by left|right; auto].
Qed.

Lemma own_property_None deps k : own_property deps k = None ↔ k ∉ keys deps.
Proof.
  unfold keys. induction deps as [|[k' v'] deps IH]; simpl.
  - split; [intros _; apply not_elem_of_nil|done].
  - rewrite not_elem_of_cons. case_decide; [naive_solver|]. rewrite IH. naive_solver.
Qed.

(** C4, as the code has it.  [getWorkspaceDependencies] returns, in their
    order, exactly the entries of the root manifest's [workspaces] for which
    the property of the target manifest's [dependencies] named by the whole
    entry is truthy; it changes nothing on disk.  Where every version is a
    non-empty string and the entry is not the name of a member of
    [Object.prototype], truthy means that the entry is a key. *)
Theorem getWorkspaceDependencies_selects s w w' selected :
  getWorkspaceDependencies s w = (w', Ok selected) →
  ∃ target root,
    (require w (Path.join [settings_path s; "package.json"])).2 = Ok target ∧
    (require (require w (Path.join [settings_path s; "package.json"])).1
       (Path.join [workspacePath s; "package.json"])).2 = Ok root ∧
    selected =
      filter (λ ws, truthy_get (deps_of target) ws) (workspaces_of root) ∧
    (∀ ws, ws ∈ selected ↔
           ws ∈ workspaces_of root ∧ truthy_get (deps_of target) ws = true) ∧
    selected `sublist_of` workspaces_of root ∧
    (∀ ws, ws ∉ object_prototype_keys →
           (∀ k v, (k, v) ∈ deps_of target → v ≠ "") →
           (truthy_get (deps_of target) ws = true ↔ ws ∈ keys (deps_of target))) ∧
    w_fs w' = w_fs w ∧ w_cwd w' = w_cwd w ∧ w_trace w' = w_trace w.
Proof.
  unfold getWorkspaceDependencies.
  destruct (require w _) as [w1 [target|]] eqn:H1; [|done].
  destruct (require w1 _) as [w2 [root|]] eqn:H2; [|done].
  intros ?; simplify_eq. exists target, root. simpl. rewrite H2. simpl.
  rewrite push_relevant_filter. simpl.
  apply require_world in H1 as (F1 & C1 & T1 & _).
  apply require_world in H2 as (F2 & C2 & T2 & _).
  split_and!; try done; try congruence.
  - intros ws. rewrite list_elem_of_filter. rewrite Is_true_true. naive_solver.
  - apply sublist_filter.
  - intros ws Hproto Hvers. unfold truthy_get.
    destruct (own_property (deps_of target) ws) as [v|] eqn:Ho.
    + pose proof (own_property_Some _ _ _ Ho) as Hin.
      split.
      * intros _. apply list_elem_of_fmap. by exists (ws, v).
      * intros _. specialize (Hvers _ _ Hin). by destruct v.
    + apply own_property_None in Ho. rewrite bool_decide_eq_true. naive_solver.
Qed.

Lemma getWorkspaceDependencies_selects_witness :
  ∃ target root,
    (require flat_root (Path.join ["/ws/pkgA"; "package.json"])).2 = Ok target ∧
    (require (require flat_root (Path.join ["/ws/pkgA"; "package.json"])).1
       (Path.join ["/ws"; "package.json"])).2 = Ok root ∧
    ["pkgB"; "pkgC"] =
      filter (λ ws, truthy_get (deps_of target) ws) (workspaces_of root).
Proof.
  destruct (getWorkspaceDependencies_selects pkgA flat_root
              (getWorkspaceDependencies pkgA flat_root).1 ["pkgB"; "pkgC"])
    as (target & root & H1 & H2 & H3 & _).
  - apply pair_snd_eq. vm_compute. reflexivity.
  - exists target, root. split_and!; [exact H1|exact H2|exact H3].
Defined.

(** C4, as the claim words it, fails: a member listed by a path is
    selected by its final component in the claim and by the whole entry in
    the code. *)
Lemma getWorkspaceDependencies_whole_entry :
  read_manifest pathed_root "/ws/app/package.json"
    = Ok (manifest_of ["pkgB"]) ∧
  read_manifest pathed_root "/ws/package.json"
    = Ok {| dependencies := None; workspaces := Some ["packages/pkgB"] |} ∧
  (getWorkspaceDependencies app_pkg pathed_root).2 = Ok [] ∧
  selected_by_spec (deps_of (manifest_of ["pkgB"])) ["packages/pkgB"]
    = ["packages/pkgB"].
Proof. split_and!; vm_compute; reflexivity. Qed.

(** ** The passes of [initialise] *)

Lemma pass_files_fuel require_resolve fuel extra s w v :
  pass_files (initialise require_resolve fuel s w) = Some v →
  pass_files (initialise require_resolve (fuel + extra) s w) = Some v.
Proof.
  destruct (initialise require_resolve fuel s w) as [y|] eqn:H; [|done].
  by rewrite (initialise_fuel_mono _ fuel (fuel + extra) _ _ _ ltac:(lia) H).
Qed.

(** C3 on the code.  [initialise] starts from the list
    [getWorkspaceDependencies] returns and pushes the same selection onto it
    once more: every selected workspace is on [workspacesToLink] twice and
    gets two passes.  In the monorepo of the specification, [link] is called
    twice for [lodash] under [pkgB], once in each pass on [pkgB]. *)
Theorem initialise_passes_twice :
  (∀ deps wss,
      workspacesToLink deps wss (push_relevant deps wss [])
      = push_relevant deps wss [] ++ push_relevant deps wss []) ∧
  (∀ extra,
      pass_files (initialise resolve_plain (3 + extra) pkgA monorepo)
      = Some ["/ws/pkgB/node_modules/lodash"; "/ws/pkgB/node_modules/lodash";
              "/ws/pkgA/node_modules/pkgB"; "/ws/pkgA/node_modules/lodash"]).
Proof.
  split.
  - intros deps wss. unfold workspacesToLink.
    by rewrite !push_relevant_filter.
  - intros extra. apply pass_files_fuel. vm_compute. reflexivity.
Qed.

(** ** Setup keeps what is there *)

Section Keeps.

Variable require_resolve : World → string → list string → option string.

Lemma create_link_extends name toPath pkg st st1 r fs0 :
  fs_extends fs0 (w_fs st.1) →
  create_link name toPath pkg st = (st1, r) →
  fs_extends fs0 (w_fs st1.1).
Proof.
  destruct st as [w c]. intros H0.
  intros [(-> & _)|(w1 & call & -> & _ & _ & _ & _ & _ & Hl)]%create_link_cases;
    [done|].
  apply link_world in Hl as (Hl & _). simpl in *.
  by eapply fs_extends_trans.
Qed.

Lemma processLinkages_extends fuel p w w' r :
  processLinkages require_resolve fuel p w = Some (w', r) →
  fs_extends (w_fs w) (w_fs w').
Proof.
  intros Hrun.
  destruct (processLinkages_preserves require_resolve
              (λ st, fs_extends (w_fs w) (w_fs st.1)) fuel p w w' r)
    as [c Hc]; [| |exact Hrun|apply fs_extends_refl|exact Hc].
  - intros name pkg st st1 r0 Hst. by apply create_link_extends.
  - intros w0 c file w1 r0 Hst (Hfs & _)%require_world. simpl in *.
    by rewrite Hfs.
Qed.

Lemma getWorkspaceDependencies_fs s w w' r :
  getWorkspaceDependencies s w = (w', r) → w_fs w' = w_fs w.
Proof.
  unfold getWorkspaceDependencies.
  destruct (require w _) as [w1 [target|]] eqn:H1;
    apply require_world in H1 as (F1 & _);
    [|intros; simplify_eq; done].
  destruct (require w1 _) as [w2 [root|]] eqn:H2;
    apply require_world in H2 as (F2 & _);
    intros; simplify_eq; congruence.
Qed.

Lemma initialise_extends fuel s w w' r :
  initialise require_resolve fuel s w = Some (w', r) →
  fs_extends (w_fs w) (w_fs w').
Proof.
  unfold initialise.
  destruct (require w _) as [w1 [target|]] eqn:H1;
    apply require_world in H1 as (F1 & _);
    [|intros; simplify_eq; rewrite F1; apply fs_extends_refl].
  destruct (require w1 _) as [w2 [root|]] eqn:H2;
    apply require_world in H2 as (F2 & _);
    [|intros; simplify_eq; rewrite F2, F1; apply fs_extends_refl].
  destruct (getWorkspaceDependencies s w2) as [w3 [relevant|]] eqn:H3;
    apply getWorkspaceDependencies_fs in H3 as F3;
    [|intros; simplify_eq; rewrite F3, F2, F1; apply fs_extends_refl].
  destruct (promise_all _ w3) as [[w4 r4]|] eqn:Hall; [|done].
  assert (fs_extends (w_fs w) (w_fs w4)) as H4.
  { eapply (promise_all_preserves (λ w0, fs_extends (w_fs w) (w_fs w0)));
      [|exact Hall|rewrite F3, F2, F1; apply fs_extends_refl].
    intros t s0 s1 r0 (ws & -> & _)%list_elem_of_fmap Hrun Hs0.
    eapply fs_extends_trans; [exact Hs0|by eapply processLinkages_extends]. }
  destruct r4; [|by intros; simplify_eq].
  intros Hrun. eapply fs_extends_trans; [exact H4|].
  by eapply processLinkages_extends.
Qed.

End Keeps.





(** ** Termination and cycles *)

Lemma link_names_fuel require_resolve fuel extra name fromPath toPath
    resolved st v :
  link_names (linkPackage require_resolve fuel name fromPath toPath resolved st)
    = Some v →
  link_names (linkPackage require_resolve (fuel + extra) name fromPath toPath
                resolved st) = Some v.
Proof.
  destruct (linkPackage require_resolve fuel name fromPath toPath resolved st)
    as [y|] eqn:H; [|done].
  by rewrite (linkPackage_fuel_mono _ fuel (fuel + extra) _ _ _ _ _ _
                ltac:(lia) H).
Qed.

(** C1.  [linkPackage] returns on every world, whatever [require.resolve]
    answers: fuel above the number of dependency names the manifests
    mention, plus one for the name called, is never used up.  A call whose
    name is in the ancestry returns at once and leaves the state as it
    was: no link, no recursion.  For the cycle A→B→A, linking [A] returns
    with success, [link] having been called once for [A] and once for
    [B]. *)
Theorem linkPackage_terminates :
  (∀ require_resolve fuel name fromPath toPath resolved w created,
      size (world_names w) + 1 < fuel →
      ∃ st' r,
        linkPackage require_resolve fuel name fromPath toPath resolved
          (w, created) = Some (st', r)) ∧
  (∀ require_resolve fuel name fromPath toPath resolved st,
      name ∈ resolved →
      linkPackage require_resolve (S fuel) name fromPath toPath resolved st
      = Some (st, Ok ())) ∧
  (∀ extra,
      link_names (linkPackage resolve_never (3 + extra) "A" "/ws/app"
                    "/ws/app/node_modules" [] (cycle, ∅))
      = Some (["A"; "B"], Ok ()) ∧
      link_names (linkPackage resolve_plain (3 + extra) "A" "/ws/app"
                    "/ws/app/node_modules" [] (cycle, ∅))
      = Some (["A"; "B"], Ok ())) ∧
  (symlinks <$> (fst <$> processLinkages resolve_never 3 "/ws/app" cycle))
    = Some [(["ws"; "app"; "node_modules"; "B"], "../../node_modules/B");
            (["ws"; "app"; "node_modules"; "A"], "../../node_modules/A")].
Proof.
  split_and!.
  - intros require_resolve. apply linkPackage_returns_bound.
  - intros require_resolve fuel name fromPath toPath resolved st Hin.
    simpl. by rewrite bool_decide_eq_true_2.
  - intros extra. split; apply link_names_fuel; vm_compute; reflexivity.
  - vm_compute. reflexivity.
Qed.

Lemma linkPackage_terminates_witness :
  (∃ st' r,
      linkPackage resolve_never 4 "A" "/ws/app" "/ws/app/node_modules" []
        (cycle, ∅) = Some (st', r)) ∧
  linkPackage resolve_never 1 "A" "/ws/node_modules/B" "/ws/app/node_modules"
    ["A"; "B"] (cycle, ∅) = Some ((cycle, ∅), Ok ()).
Proof.
  pose proof linkPackage_terminates as (H1 & H2 & _).
  split.
  - apply H1. vm_compute. lia.
  - apply H2. apply (bool_decide_unpack _). vm_compute. exact I.
Defined.

(** ** The depth policy *)

Lemma hoisted_segments pkg : hoisted pkg = true → nm_segments pkg ≤ 1.
Proof.
  unfold hoisted. rewrite bool_decide_eq_true.
  pose proof (nm_segments_le_matches pkg). lia.
Qed.

(** C5.  Every call of [link] a pass makes is for a manifest path with at
    most one [node_modules] segment.  A call of [linkPackage] whose manifest
    path has two or more goes through lines 83 to 88 without a change,
    neither a link nor an entry in [created], and is then the loading of
    the manifest and the recursion on its dependencies. *)
Theorem deep_packages_get_no_link :
  (∀ require_resolve fuel p w w' r,
      processLinkages require_resolve fuel p w = Some (w', r) →
      ∃ added,
        w_trace w' = w_trace w ++ added ∧
        Forall (λ x, nm_segments (lc_pkg x) ≤ 1) added) ∧
  (∀ require_resolve fuel name fromPath toPath resolved st pkg,
      name ∉ resolved →
      locate require_resolve st.1 name (getNodeModulePaths fromPath)
        = Some pkg →
      2 ≤ nm_segments pkg →
      create_link name toPath pkg st = (st, Ok ()) ∧
      linkPackage require_resolve (S fuel) name fromPath toPath resolved st
      = link_dependencies (linkPackage require_resolve fuel) name toPath pkg
          resolved st).
Proof.
  split.
  - intros require_resolve fuel p w w' r Hrun.
    destruct (processLinkages_preserves require_resolve
                (pass_invariant (Path.join [p; "node_modules"]) (w_trace w))
                fuel p w w' r) as [c (added & Ht & Hnd & Hall)];
      [| |exact Hrun| |].
    + intros name pkg st st1 r0. apply pass_invariant_create.
    + intros w0 c file w1 r0. apply pass_invariant_require.
    + exists []. simpl. rewrite (right_id_L [] (++)).
      split_and!; [done|constructor|constructor].
    + exists added. split; [done|].
      eapply Forall_impl; [exact Hall|].
      intros x (_ & _ & ?). by apply hoisted_segments.
  - intros require_resolve fuel name fromPath toPath resolved st pkg
      Hin Hloc Hseg.
    assert (hoisted pkg = false) as Hh.
    { destruct (hoisted pkg) eqn:Hh; [|done].
      apply hoisted_segments in Hh. lia. }
    assert (create_link name toPath pkg st = (st, Ok ())) as Hc.
    { destruct st as [w c]. unfold create_link. by rewrite Hh. }
    split; [done|]. simpl.
    by rewrite bool_decide_eq_false_2, Hloc, Hc.
Qed.

Lemma deep_packages_get_no_link_witness :
  (∃ added,
      w_trace nested_linked = w_trace nested ++ added ∧
      Forall (λ x, nm_segments (lc_pkg x) ≤ 1) added) ∧
  create_link "B" "/ws/app/node_modules"
    "/ws/node_modules/A/node_modules/B/package.json" (nested, ∅)
  = ((nested, ∅), Ok ()) ∧
  link_names (linkPackage resolve_never 3 "B" "/ws/node_modules/A"
                "/ws/app/node_modules" ["A"] (nested, ∅))
  = Some (["C"], Ok ()).
Proof.
  pose proof deep_packages_get_no_link as (H1 & H2).
  destruct (H2 resolve_never 2 "B" "/ws/node_modules/A" "/ws/app/node_modules"
              ["A"] (nested, ∅)
              "/ws/node_modules/A/node_modules/B/package.json")
    as [Hcreate Hcall].
  - apply (bool_decide_unpack _). vm_compute. exact I.
  - vm_compute. reflexivity.
  - vm_compute. lia.
  - split_and!.
    + apply (H1 resolve_never 4 "/ws/app" nested nested_linked (Ok ())).
      apply run_result_eq. vm_compute. reflexivity.
    + exact Hcreate.
    + rewrite Hcall. vm_compute. reflexivity.
Defined.

(** ** What [clean] leaves alone *)

(** C10.  Whatever [clean] is called on, what it leaves differs from what
    it found by removals only.  No regular file is removed.  An entry that
    is removed was a symbolic link, or it was a directory, is empty at the
    end, and is the directory [clean] was called on or a directory whose
    name begins with the scope marker.  Every other entry is there
    unchanged; the cache and the working directory are untouched. *)
Theorem clean_removes_links_and_emptied_directories fuel p w w' r :
  wf_names (w_fs w) →
  clean fuel p w = Some (w', r) →
  w_fs w' ⊆ w_fs w ∧
  (∀ k c, w_fs w !! k = Some (NFile c) → w_fs w' !! k = Some (NFile c)) ∧
  (∀ k n, w_fs w !! k = Some n → w_fs w' !! k = None →
          is_symlink n = true ∨
          (n = NDir ∧ Fs.children (w_fs w') k = [] ∧
           (Fs.lkey (w_fs w) (w_cwd w) p = Ok k ∨ scoped_key k))) ∧
  (∀ k n, w_fs w !! k = Some n → is_symlink n = false →
          ¬ (n = NDir ∧ scoped_key k) →
          Fs.lkey (w_fs w) (w_cwd w) p ≠ Ok k →
          w_fs w' !! k = Some n) ∧
  w_cache w' = w_cache w ∧ w_cwd w' = w_cwd w.
Proof.
  intros Hwf Hrun.
  destruct (clean_cleaned fuel p w w' r Hwf Hrun)
    as ([Hsub Hrem] & Hcwd & Hcache & _).
  assert (∀ k n, w_fs w !! k = Some n → w_fs w' !! k = Some n ∨ w_fs w' !! k = None)
    as Hcases.
  { intros k n Hk. destruct (w_fs w' !! k) as [n'|] eqn:Hk'; [left|by right].
    by rewrite (lookup_weaken _ _ _ _ Hk' Hsub) in Hk. }
  split_and!; [done| | | |done..].
  - intros k c Hk. destruct (Hcases _ _ Hk) as [?|Hnone]; [done|].
    by destruct (Hrem _ _ Hk Hnone) as [?|(? & _)].
  - exact Hrem.
  - intros k n Hk Hsym Hscoped Htop.
    destruct (Hcases _ _ Hk) as [?|Hnone]; [done|].
    destruct (Hrem _ _ Hk Hnone) as [?|(? & _ & [?|?])]; [congruence|done|].
    destruct Hscoped. by split.
Qed.

Lemma clean_removes_links_and_emptied_directories_witness :
  w_fs mixed_cleaned ⊆ w_fs mixed_install ∧
  w_fs mixed_cleaned !! ["ws"; "app"; "node_modules"; ".yarn-integrity"]
    = Some (NFile None) ∧
  w_fs mixed_cleaned !! ["ws"; "app"; "node_modules"; "real"] = Some NDir.
Proof.
  destruct (clean_removes_links_and_emptied_directories 3
              "/ws/app/node_modules" mixed_install mixed_cleaned (Ok ()))
    as (H1 & H2 & _ & H4 & _).
  - apply (bool_decide_unpack _). vm_compute. exact I.
  - apply run_result_eq. vm_compute. reflexivity.
  - split_and!; [exact H1| |].
    + apply H2. vm_compute. reflexivity.
    + apply H4.
      * vm_compute. reflexivity.
      * reflexivity.
      * intros [_ (f & Hf & Hat)]. vm_compute in Hf. injection Hf as <-.
        vm_compute in Hat. discriminate.
      * vm_compute. discriminate.
Defined.

(** ** The directory that is not empty *)

Lemma listing_fuel fuel extra p w v :
  listing (clean fuel p w) = Some v →
  listing (clean (fuel + extra) p w) = Some v.
Proof.
  destruct (clean fuel p w) as [y|] eqn:H; [|done].
  by rewrite (clean_fuel_mono fuel (fuel + extra) _ _ _ ltac:(lia) H).
Qed.

Lemma clean_absent fuel p w :
  Fs.exists_ (w_fs w) (w_cwd w) p = false → clean (S fuel) p w = Some (w, Ok ()).
Proof. intros H. simpl. by rewrite H. Qed.

(** C7 on the code.  [clean] decides on the listing it took before the
    recursion whether to remove the directory: with the links and the scope
    directories taken out of the listing, nothing may be left.  A scope
    directory that is still there, because it holds a package installed in
    place, is not counted: [fs.rmdir] is called on a directory that is not
    empty, fails with [ENOTEMPTY], and [clean] rejects.  (On a path that
    does not exist, [clean] returns at once with success.) *)
Theorem clean_rejects_when_a_scope_survives :
  (∀ fuel p w,
      Fs.exists_ (w_fs w) (w_cwd w) p = false →
      clean (S fuel) p w = Some (w, Ok ())) ∧
  (∀ extra,
      listing (clean (3 + extra) "/ws/app/node_modules" scoped_install)
      = Some ([(["ws"], NDir);
               (["ws"; "app"; "node_modules"], NDir);
               (["ws"; "app"; "node_modules"; "@s"], NDir);
               (["ws"; "app"], NDir);
               (["ws"; "app"; "node_modules"; "@s"; "real"; "package.json"],
                package []);
               (["ws"; "app"; "node_modules"; "@s"; "real"], NDir)],
              Err ENOTEMPTY)).
Proof.
  split; [apply clean_absent|].
  intros extra. apply listing_fuel. vm_compute. reflexivity.
Qed.

Lemma clean_rejects_when_a_scope_survives_witness :
  clean 1 "/ws/app/node_modules" cycle = Some (cycle, Ok ()).
Proof.
  apply (proj1 clean_rejects_when_a_scope_survives 0 "/ws/app/node_modules"
           cycle).
  vm_compute. reflexivity.
Defined.

(** * More of the code *)

(** ** The constructor *)

Lemma join_split s : Str.join (Str.split s) = s.
Proof.
  induction s as [|c r IH]; [done|]. cbn [Str.split].
  pose proof (StrFacts.split_cons r) as Hr.
  destruct (Str.split r) as [|h t]; [done|].
  destruct (Str.is_slash c) eqn:Hc.
  - apply Ascii.eqb_eq in Hc. subst c.
    rewrite PathFacts.join_cons2, IH. done.
  - rewrite <-IH. by destruct t.
Qed.

Lemma removelast_snoc {A} (l : list A) x : removelast (l ++ [x]) = l.
Proof. induction l as [|y l IH]; [done|]. simpl. rewrite IH. by destruct l. Qed.

(** X1.  The constructor takes the configured path unless it is missing
    or empty, and the service path then.  [workspacePath] is that path with
    its last piece cut off at the separator: for [d/name] it is [d], so
    that a trailing separator gives the path itself, and for a path without
    a separator it is the empty string. *)
Theorem constructor_moves_up serverless s :
  ServerlessMonoRepo serverless = Some s →
  (∀ c m p, service_custom serverless = Some c →
            serverlessMonoRepo c = Some m → custom_path m = Some p →
            p ≠ "" → settings_path s = p) ∧
  ((∀ c m p, service_custom serverless = Some c →
             serverlessMonoRepo c = Some m → custom_path m = Some p →
             p = "") →
   config_servicePath serverless = Some (settings_path s)) ∧
  (∀ d name, no_slash name → settings_path s = d +:+ "/" +:+ name →
             workspacePath s = d) ∧
  (no_slash (settings_path s) → workspacePath s = "").
Proof.
  unfold ServerlessMonoRepo. intros Hs. split_and!.
  - intros c m p Hc Hm Hp Hne. rewrite Hc in Hs. simpl in Hs.
    rewrite Hm in Hs. simpl in Hs. rewrite Hp in Hs. simpl in Hs.
    destruct p; [done|]. simpl in Hs. by simplify_eq.
  - intros Hnone.
    destruct (service_custom serverless) as [c|]; simpl in Hs.
    + destruct (serverlessMonoRepo c) as [m|] eqn:Hm; simpl in Hs.
      * destruct (custom_path m) as [p|] eqn:Hp; simpl in Hs.
        -- rewrite (Hnone c m p eq_refl Hm Hp) in Hs. simpl in Hs.
           destruct (config_servicePath serverless); by simplify_eq.
        -- destruct (config_servicePath serverless); by simplify_eq.
      * destruct (config_servicePath serverless); by simplify_eq.
    + destruct (config_servicePath serverless); by simplify_eq.
  - intros d name Hname Hp. unfold workspacePath. rewrite Hp.
    change "/" with (String Str.slash "").
    rewrite PathFacts.app_String. change ("" +:+ name) with name.
    rewrite PathFacts.split_app_slash, (PathFacts.split_no_slash name) by done.
    by rewrite removelast_snoc, join_split.
  - intros Hp. unfold workspacePath.
    by rewrite (PathFacts.split_no_slash _ Hp).
Qed.

Lemma constructor_moves_up_witness :
  workspacePath {| settings_path := "/ws/app" |} = "/ws" ∧
  workspacePath {| settings_path := "/ws/app/" |} = "/ws/app".
Proof.
  split.
  - destruct (constructor_moves_up
                {| service_custom := None;
                   config_servicePath := Some "/ws/app" |}
                {| settings_path := "/ws/app" |} eq_refl) as (_ & _ & H & _).
    apply (H "/ws" "app"); [|reflexivity].
    apply (bool_decide_unpack _). vm_compute. exact I.
  - destruct (constructor_moves_up
                {| service_custom :=
                     Some {| serverlessMonoRepo :=
                               Some {| custom_path := Some "/ws/app/" |} |};
                   config_servicePath := None |}
                {| settings_path := "/ws/app/" |} eq_refl) as (_ & _ & H & _).
    apply (H "/ws/app" ""); [|reflexivity].
    apply (bool_decide_unpack _). vm_compute. exact I.
Defined.

(** ** Where a package is found *)

Lemma scan_paths_spec w name paths :
  match scan_paths w name paths with
  | Some pkg =>
      ∃ pre pth post,
        paths = pre ++ pth :: post ∧
        pkg = Path.join [pth; name; "package.json"] ∧
        has_manifest w name pth = true ∧
        Forall (λ q, has_manifest w name q = false) pre
  | None => Forall (λ q, has_manifest w name q = false) paths
  end.
Proof.
  unfold has_manifest.
  induction paths as [|pth rest IH]; simpl; [constructor|].
  destruct (Fs.exists_ _ _ (Path.join [pth; name; "package.json"])) eqn:He.
  - exists [], pth, rest. split_and!; [done..|constructor].
  - destruct (scan_paths w name rest) as [pkg|].
    + destruct IH as (pre & q & post & -> & -> & Hq & Hpre).
      exists (pth :: pre), q, post. split_and!; [done..|by constructor].
    + by constructor.
Qed.

(** X2.  The manifest path of a package, lines 60 to 81: the answer of
    [require.resolve] when it gives one; otherwise the manifest under the
    first of the candidate directories that has one, so the nearest
    [node_modules] on the way up; and undefined only when no candidate
    directory has one. *)
Theorem locate_takes_the_nearest require_resolve w name paths :
  match locate require_resolve w name paths with
  | Some pkg =>
      (require_resolve w (Path.join [name; "package.json"]) paths = Some pkg ∧
       pkg ≠ "") ∨
      ((require_resolve w (Path.join [name; "package.json"]) paths = None ∨
        require_resolve w (Path.join [name; "package.json"]) paths = Some "") ∧
       ∃ pre pth post,
         paths = pre ++ pth :: post ∧
         pkg = Path.join [pth; name; "package.json"] ∧
         has_manifest w name pth = true ∧
         Forall (λ q, has_manifest w name q = false) pre)
  | None =>
      (require_resolve w (Path.join [name; "package.json"]) paths = None ∨
       require_resolve w (Path.join [name; "package.json"]) paths = Some "") ∧
      Forall (λ q, has_manifest w name q = false) paths
  end.
Proof.
  unfold locate.
  pose proof (scan_paths_spec w name paths) as Hscan.
  destruct (require_resolve _ _ _) as [pkg|].
  - destruct pkg as [|c pkg]; simpl; [|by left].
    destruct (scan_paths w name paths) as [pkg|].
    + right. split; [by right|]. exact Hscan.
    + split; [by right|]. exact Hscan.
  - destruct (scan_paths w name paths) as [pkg|].
    + right. split; [by left|]. exact Hscan.
    + split; [by left|]. exact Hscan.
Qed.

(** ** What [link] leaves at the path *)

(** The errors of a path walk. *)
Lemma walk_Err (fs : FS) : ∀ n cur todo e,
  Fs.walk n fs cur todo = Err e → e = ENOENT ∨ e = ENOTDIR ∨ e = ELOOP.
Proof.
  induction n as [|n IHn]; intros cur todo; revert cur;
    (induction todo as [|s rest IH]; intros cur e;
     [by rewrite FsFacts.walk_nil|]);
    rewrite FsFacts.walk_cons; repeat case_decide; eauto;
    (destruct (fs !! (cur ++ [s])) as [[c| |t]|]; [| | |naive_solver]; eauto).
  - destruct rest; naive_solver.
  - naive_solver.
  - destruct rest; naive_solver.
  - destruct (Str.is_empty t); [naive_solver|]. eauto.
Qed.

Lemma lkey_Err fs cwd p e :
  Fs.lkey fs cwd p = Err e → e = ENOENT ∨ e = ENOTDIR ∨ e = ELOOP.
Proof.
  unfold Fs.lkey. destruct (Str.is_empty p); [naive_solver|].
  destruct (Fs.unsnoc _) as [[parent name]|]; [|done].
  case_decide; [apply walk_Err|].
  destruct (Fs.walk _ _ _ _) as [k|e'] eqn:Hw.
  - destruct (Fs.is_dir fs k); naive_solver.
  - intros; simplify_eq. by eapply walk_Err.
Qed.

Lemma link_entry target f w w' :
  link target f w = (w', Ok ()) →
  ∃ fs1,
    Fs.ensureDir (w_fs w) (w_cwd w) (Path.dirname f) = Ok fs1 ∧
    match Fs.lstat fs1 (w_cwd w) f with
    | Ok n => w_fs w' = fs1 ∧ Fs.lstat (w_fs w') (w_cwd w') f = Ok n
    | Err _ => Fs.lstat (w_fs w') (w_cwd w') f = Ok (NLink target)
    end.
Proof.
  unfold link. destruct (Fs.ensureDir _ _ _) as [fs1|] eqn:Hd; [|done].
  intros Hl. exists fs1. split; [done|].
  unfold Fs.symlink, Fs.lstat in *.
  destruct (Str.is_empty target); [by simplify_eq/=|].
  destruct (Fs.lkey fs1 (w_cwd w) f) as [k|e] eqn:Hk.
  - case_decide as Hroot.
    + simplify_eq/=. split; [done|]. by rewrite Hk, decide_True.
    + destruct (fs1 !! k) as [n|] eqn:Hn.
      * simplify_eq/=. split; [done|]. by rewrite Hk, decide_False, Hn.
      * simplify_eq/=.
        rewrite (FsFacts.lkey_mono fs1 (<[k:=NLink target]> fs1) _ _ k);
          [|by apply insert_subseteq|done].
        by rewrite decide_False, lookup_insert_eq.
  - unfold link_catch in Hl. case_decide; [|by simplify_eq].
    subst e. by destruct (lkey_Err _ _ _ _ Hk) as [?|[?|?]].
Qed.

(** X3.  After a [link] that succeeded there is an entry at the path.
    The parent directory is there from [fs.ensureDir]; if the path named
    nothing then, the entry is a symbolic link to the target; if it named
    something, that entry is left as it was, whatever it is, and nothing
    else is done. *)
Theorem link_leaves_an_entry target f w w' :
  link target f w = (w', Ok ()) →
  ∃ fs1,
    Fs.ensureDir (w_fs w) (w_cwd w) (Path.dirname f) = Ok fs1 ∧
    match Fs.lstat fs1 (w_cwd w) f with
    | Ok n => w_fs w' = fs1 ∧ Fs.lstat (w_fs w') (w_cwd w') f = Ok n
    | Err _ => Fs.lstat (w_fs w') (w_cwd w') f = Ok (NLink target)
    end.
Proof. apply link_entry. Qed.

Lemma link_leaves_an_entry_witness :
  ∃ fs1,
    Fs.ensureDir (w_fs tiny) (w_cwd tiny) (Path.dirname "/d/sub/y") = Ok fs1 ∧
    match Fs.lstat fs1 (w_cwd tiny) "/d/sub/y" with
    | Ok n =>
        w_fs (link "../t" "/d/sub/y" tiny).1 = fs1 ∧
        Fs.lstat (w_fs (link "../t" "/d/sub/y" tiny).1)
          (w_cwd (link "../t" "/d/sub/y" tiny).1) "/d/sub/y" = Ok n
    | Err _ =>
        Fs.lstat (w_fs (link "../t" "/d/sub/y" tiny).1)
          (w_cwd (link "../t" "/d/sub/y" tiny).1) "/d/sub/y"
        = Ok (NLink "../t")
    end.
Proof.
  apply (link_leaves_an_entry "../t" "/d/sub/y" tiny).
  apply pair_snd_eq. vm_compute. reflexivity.
Defined.

(** ** A pass that succeeds has made its links *)

Lemma lstat_mono (fs0 fs : FS) cwd p n :
  fs0 ⊆ fs → Fs.lstat fs0 cwd p = Ok n → Fs.lstat fs cwd p = Ok n.
Proof.
  intros Hsub. unfold Fs.lstat.
  destruct (Fs.lkey fs0 cwd p) as [k|] eqn:Hk; [|done].
  rewrite (FsFacts.lkey_mono _ _ _ _ _ Hsub Hk).
  case_decide; [done|].
  destruct (fs0 !! k) as [n0|] eqn:Hn; [|done].
  by rewrite (lookup_weaken _ _ _ _ Hn Hsub).
Qed.

(** When [Promise.all] fulfils, every task has fulfilled. *)
Lemma promise_all_ok_preserves {S A} (I : S → Prop) (tasks : list (Task S A))
    s s' l :
  (∀ t s0 s1 a, t ∈ tasks → t s0 = Some (s1, Ok a) → I s0 → I s1) →
  promise_all tasks s = Some (s', Ok l) → I s → I s'.
Proof.
  revert s s' l. induction tasks as [|t ts IH]; intros s s' l Hstep Hrun Hs.
  - simpl in Hrun. by simplify_eq.
  - simpl in Hrun.
    destruct (t s) as [[s1 r1]|] eqn:Ht; [|done].
    destruct (promise_all ts s1) as [[s2 rs]|] eqn:Hts; [|done].
    destruct r1 as [a|]; [|by simplify_eq].
    destruct rs as [l'|]; simplify_eq.
    eapply IH; [|exact Hts|].
    + intros t' s0 s1' a' Hin. apply Hstep. by right.
    + eapply Hstep; [by left|exact Ht|done].
Qed.

Lemma links_made_create t0 name toPath pkg st st1 :
  links_made t0 st → create_link name toPath pkg st = (st1, Ok ()) →
  links_made t0 st1.
Proof.
  destruct st as [w c]. intros (added & Ht & Hall).
  intros [(-> & _)|(w1 & call & -> & _ & _ & _ & _ & Hf & Hl)]%create_link_cases.
  { by exists added. }
  pose proof (link_world _ _ _ _ _ Hl) as ([Hsub _] & Hcwd & _ & Htr).
  apply link_entry in Hl as (fs1 & _ & Hl). simpl in *.
  exists (added ++ [call]). simpl. split.
  - by rewrite Htr, Ht, (assoc_L (++)).
  - apply Forall_app. split.
    + eapply Forall_impl; [exact Hall|]. intros x [n Hn]. exists n.
      rewrite Hcwd. by eapply lstat_mono.
    + constructor; [|constructor].
      destruct (Fs.lstat fs1 _ _) as [n|]; [destruct Hl as [_ Hl]|]; eauto.
Qed.

Lemma links_made_require t0 w c file w1 r :
  links_made t0 (w, c) → require w file = (w1, r) → links_made t0 (w1, c).
Proof.
  intros (added & Ht & Hall) (Hfs & Hcwd & Htr & _)%require_world.
  exists added. simpl in *. by rewrite Hfs, Hcwd, Htr.
Qed.

Section MadeLinks.

Variable require_resolve : World → string → list string → option string.

Lemma linkPackage_ok_preserves (I : World * gset string → Prop) toPath :
  (∀ name pkg st st1,
      I st → create_link name toPath pkg st = (st1, Ok ()) → I st1) →
  (∀ w c file w1 r, I (w, c) → require w file = (w1, r) → I (w1, c)) →
  ∀ fuel name fromPath resolved st st',
    linkPackage require_resolve fuel name fromPath toPath resolved st
      = Some (st', Ok ()) →
    I st → I st'.
Proof.
  intros Hcreate Hrequire.
  induction fuel as [|fuel IH]; intros name fromPath resolved st st'; [done|].
  simpl. case_bool_decide; [by intros; simplify_eq|].
  destruct (locate _ _ _ _) as [pkg|]; [|done].
  destruct (create_link name toPath pkg st) as [st1 [[]|e]] eqn:Hc; [|done].
  intros Hrun Hst.
  assert (I st1) as Hst1 by eauto.
  destruct st1 as [w1 c1]. unfold link_dependencies in Hrun.
  destruct (require w1 pkg) as [w2 [m|e]] eqn:Hr; [|done].
  assert (I (w2, c1)) as Hst2 by eauto.
  destruct (promise_all _ _) as [[st3 [l|]]|] eqn:Hall; [|done..].
  simplify_eq.
  eapply promise_all_ok_preserves; [|exact Hall|exact Hst2].
  intros t s0 s1 [] (dep & -> & _)%list_elem_of_fmap. apply IH.
Qed.

Lemma processLinkages_made fuel p w w' :
  processLinkages require_resolve fuel p w = Some (w', Ok ()) →
  ∃ c, links_made (w_trace w) (w', c).
Proof.
  unfold processLinkages.
  destruct (require w _) as [w1 [m|e]] eqn:Hr; [|done].
  destruct (promise_all _ _) as [[[w2 c2] [l|]]|] eqn:Hall; [|done..].
  intros ?; simplify_eq. exists c2.
  eapply (promise_all_ok_preserves (links_made (w_trace w))); [|exact Hall|].
  - intros t s0 s1 [] (dep & -> & _)%list_elem_of_fmap.
    apply linkPackage_ok_preserves.
    + intros name pkg st st1 Hst. by apply links_made_create.
    + intros w0 c file w3 r. apply links_made_require.
  - eapply links_made_require; [|exact Hr].
    exists []. simpl. by rewrite (right_id_L [] (++)).
Qed.

End MadeLinks.

(** X4.  A pass that fulfils has made every link it asked for: at the
    path of every call of [link] the pass has recorded, there is an entry
    when the pass is over. *)
Theorem pass_makes_its_links require_resolve fuel p w w' :
  processLinkages require_resolve fuel p w = Some (w', Ok ()) →
  ∃ added,
    w_trace w' = w_trace w ++ added ∧
    Forall (λ x, ∃ n, Fs.lstat (w_fs w') (w_cwd w') (lc_file x) = Ok n) added.
Proof.
  intros Hrun. by destruct (processLinkages_made _ _ _ _ _ Hrun) as [c Hc].
Qed.

Lemma pass_makes_its_links_witness :
  ∃ added,
    w_trace diamond_linked = w_trace diamond ++ added ∧
    Forall (λ x, ∃ n, Fs.lstat (w_fs diamond_linked) (w_cwd diamond_linked)
                        (lc_file x) = Ok n) added.
Proof.
  apply (pass_makes_its_links resolve_never 4 "/ws/app" diamond diamond_linked).
  apply run_result_eq. vm_compute. reflexivity.
Defined.

(** ** What [clean] removes, and what no hook touches *)

Lemma keeps_refl w : keeps w w.
Proof. by split_and!. Qed.

Lemma keeps_trans w0 w1 w2 : keeps w0 w1 → keeps w1 w2 → keeps w0 w2.
Proof.
  intros (S1 & F1 & ? & ? & ?) (S2 & F2 & ? & ? & ?).
  split_and!; [by etrans|auto|congruence..].
Qed.

(** The listing of [clean] has one entry per name, in order. *)
Lemma lstat_all_names p files w w1 contents :
  promise_all
    (map (λ f w0,
            Some (w0,
                  match Fs.lstat (w_fs w0) (w_cwd w0) (Path.join [p; f]) with
                  | Ok n => Ok (f, n)
                  | Err e => Err e
                  end)) files) w = Some (w1, Ok contents) →
  contents.*1 = files.
Proof.
  revert w1 contents. induction files as [|f files IH]; intros w1 contents; simpl.
  - by intros; simplify_eq.
  - destruct (promise_all _ w) as [[w2 r2]|] eqn:Hall; [|done].
    destruct (Fs.lstat _ _ _) as [n|]; [|done].
    destruct r2 as [l|]; [|done]. intros; simplify_eq. simpl.
    f_equal. by eapply IH.
Qed.

(** One [unlink] of the removal step, for any result. *)
Lemma unlink_keeps p w0 w (c : string * Node) w' r :
  keeps w0 w →
  Fs.lstat (w_fs w0) (w_cwd w0) (Path.join [p; c.1]) = Ok c.2 →
  is_symlink c.2 →
  match Fs.unlink (w_fs w) (w_cwd w) (Path.join [p; c.1]) with
  | Ok fs' => (set_fs w fs', Ok ())
  | Err e => (w, Err e)
  end = (w', r) →
  keeps w0 w' ∧
  (r = Ok () →
   ∀ k, Fs.lkey (w_fs w0) (w_cwd w0) (Path.join [p; c.1]) = Ok k →
        w_fs w' !! k = None).
Proof.
  intros Hinv Hl Hs.
  destruct (Fs.unlink _ _ _) as [fs'|e] eqn:Hu; intros; simplify_eq;
    [|by split].
  destruct Hinv as (Hsub & Hfiles & Hcwd & Hcache & Htrace).
  apply unlink_Ok in Hu as (k & n & Hk & Hne & Hn & _ & ->).
  rewrite Hcwd in Hk. apply (FsFacts.lkey_mono _ _ _ _ _ Hsub) in Hk.
  apply lstat_Ok in Hl as (k' & Hk' & [[? _]|[_ Hn']]); [congruence|].
  assert (k' = k) as -> by congruence.
  split.
  - split_and!; simpl; [|  |done..].
    + etrans; [apply delete_subseteq|done].
    + intros k0 c0 H0. rewrite lookup_delete_ne; [by apply Hfiles|].
      intros Heq. subst k0. rewrite Hn' in H0. injection H0 as H0.
      by rewrite H0 in Hs.
  - intros _ k0 Hk0. assert (k0 = k) as -> by congruence.
    simpl. by rewrite lookup_delete_eq.
Qed.

(** [clean] adds nothing, leaves every regular file, and changes nothing
    but the file system. *)
Lemma clean_keeps : ∀ fuel p w w' r,
  clean fuel p w = Some (w', r) → keeps w w'.
Proof.
  induction fuel as [|fuel IH]; intros p w w' r; [done|].
  simpl. destruct (Fs.exists_ _ _ _); simpl;
    [|intros; simplify_eq; apply keeps_refl].
  destruct (Fs.readdir _ _ _) as [files|e];
    [|intros; simplify_eq; apply keeps_refl].
  destruct (promise_all _ w) as [[w1 r1]|] eqn:Hls; [|done].
  apply lstat_all in Hls as [-> Hcontents].
  destruct r1 as [contents|e]; [|intros; simplify_eq; apply keeps_refl].
  specialize (Hcontents _ eq_refl). rewrite Forall_forall in Hcontents.
  destruct (promise_all _ w) as [[w2 r2]|] eqn:Hul; [|done].
  assert (keeps w w2) as Hinv2.
  { eapply (promise_all_preserves (keeps w)); [|exact Hul|apply keeps_refl].
    intros t s0 s1 r0 (c & -> & Hc)%list_elem_of_fmap Ht Hs0.
    apply list_elem_of_filter in Hc as [Hsym Hc].
    apply Hcontents in Hc as [_ Hl].
    eapply unlink_keeps; [exact Hs0|exact Hl|exact Hsym|].
    by simplify_eq. }
  destruct r2 as [?|e]; [|intros; simplify_eq; exact Hinv2].
  destruct (promise_all _ w2) as [[w3 r3]|] eqn:Hrec; [|done].
  assert (keeps w w3) as Hinv3.
  { eapply (promise_all_preserves (keeps w)); [|exact Hrec|exact Hinv2].
    intros t s0 s1 r0 (c & -> & Hc)%list_elem_of_fmap Ht Hs0.
    eapply keeps_trans; [exact Hs0|by eapply IH]. }
  destruct r3 as [?|e]; [|intros; simplify_eq; exact Hinv3].
  destruct (filter (λ c, ¬ isScopedPkgDir c) _);
    [|intros; simplify_eq; exact Hinv3].
  destruct (Fs.rmdir _ _ _) as [fs'|e] eqn:Hrm; intros; simplify_eq; [|done].
  apply rmdir_Ok in Hrm as (k & Hk & Hn & Hch & ->).
  destruct Hinv3 as (Hsub & Hfiles & Hcwd & Hcache & Htrace).
  split_and!; simpl; [| |done..].
  - etrans; [apply delete_subseteq|done].
  - intros k0 c0 H0. rewrite lookup_delete_ne; [by apply Hfiles|].
    intros <-. apply Hfiles in H0. congruence.
Qed.

(** When [Promise.all] fulfils, every task has run to success in a state
    between the first and the last, for any order [R] of the states along
    which every task moves. *)
Lemma promise_all_ok_each {S A} (R : S → S → Prop) `{!PreOrder R}
    (tasks : list (Task S A)) s s' l :
  (∀ t s0 s1 r, t ∈ tasks → t s0 = Some (s1, r) → R s0 s1) →
  promise_all tasks s = Some (s', Ok l) →
  ∀ t, t ∈ tasks → ∃ s0 s1 a, R s s0 ∧ t s0 = Some (s1, Ok a) ∧ R s1 s'.
Proof.
  revert s s' l. induction tasks as [|t0 ts IH]; intros s s' l Hmove Hrun t Hin.
  { by apply elem_of_nil in Hin. }
  simpl in Hrun.
  destruct (t0 s) as [[s1 r1]|] eqn:Ht; [|done].
  destruct (promise_all ts s1) as [[s2 rs]|] eqn:Hts; [|done].
  destruct r1 as [a|]; [|by simplify_eq].
  destruct rs as [l'|]; simplify_eq.
  assert (R s s1) as H01 by (eapply Hmove; [by left|done]).
  assert (R s1 s') as H12.
  { eapply (promise_all_preserves (R s1)); [|exact Hts|reflexivity].
    intros t' s0 s3 r0 Hin' Hrun' H0. etrans; [exact H0|].
    eapply Hmove; [by right|done]. }
  apply elem_of_cons in Hin as [->|Hin].
  - exists s, s1, a. split_and!; [reflexivity|done|done].
  - destruct (IH s1 s' l') with (t := t) as (s0 & s3 & a' & ? & ? & ?);
      [|done|done|].
    + intros t' s0 s3 r0 Hin'. apply Hmove. by right.
    + exists s0, s3, a'. split_and!; [by etrans|done|done].
Qed.

Global Instance shrinks_preorder : PreOrder shrinks.
Proof.
  split; [by split|]. intros w0 w1 w2 [S1 C1] [S2 C2].
  split; [by etrans|congruence].
Qed.

Lemma keeps_shrinks w w' : keeps w w' → shrinks w w'.
Proof. by intros (? & _ & ? & _). Qed.

Lemma unlink_task_shrinks p (c : string * Node) s0 s1 (r : res ()) :
  Some match Fs.unlink (w_fs s0) (w_cwd s0) (Path.join [p; c.1]) with
       | Ok fs' => (set_fs s0 fs', Ok ())
       | Err e => (s0, Err e)
       end = Some (s1, r) →
  shrinks s0 s1.
Proof.
  destruct (Fs.unlink _ _ _) as [fs'|] eqn:Hu; intros; simplify_eq;
    [|reflexivity].
  apply unlink_Ok in Hu as (? & ? & _ & _ & _ & _ & ->).
  split; [apply delete_subseteq|done].
Qed.

Lemma clean_unlinked fuel p w w' files f k t :
  clean fuel p w = Some (w', Ok ()) →
  Fs.readdir (w_fs w) (w_cwd w) p = Ok files → f ∈ files →
  Fs.lkey (w_fs w) (w_cwd w) (Path.join [p; f]) = Ok k →
  Fs.lstat (w_fs w) (w_cwd w) (Path.join [p; f]) = Ok (NLink t) →
  w_fs w' !! k = None.
Proof.
  destruct fuel as [|fuel]; [done|]. intros Hrun Hrd Hf Hk Hl.
  cut (∃ w2, shrinks w2 w' ∧ w_fs w2 !! k = None).
  { intros (w2 & (Hsub & _) & Hnone).
    destruct (w_fs w' !! k) eqn:Hk'; [|done].
    by rewrite (lookup_weaken _ _ _ _ Hk' Hsub) in Hnone. }
  revert Hrun. simpl. rewrite Hrd.
  destruct (Fs.exists_ _ _ _) eqn:Hex; simpl.
  2:{ unfold Fs.readdir, Fs.exists_ in *.
      destruct (Fs.realpath _ _ _); done. }
  destruct (promise_all _ w) as [[w1 r1]|] eqn:Hls; [|done].
  destruct r1 as [contents|e]; [|done].
  pose proof (lstat_all_names _ _ _ _ _ Hls) as Hnames.
  apply lstat_all in Hls as [-> Hcontents].
  specialize (Hcontents _ eq_refl). rewrite Forall_forall in Hcontents.
  destruct (promise_all _ w) as [[w2 r2]|] eqn:Hul; [|done].
  destruct r2 as [l2|e]; [|done].
  assert (∃ n, (f, n) ∈ contents) as [n Hin].
  { rewrite <-Hnames in Hf. apply list_elem_of_fmap in Hf as ([f' n] & -> & ?).
    eauto. }
  pose proof (Hcontents _ Hin) as [_ Hn]. simpl in Hn.
  assert (n = NLink t) as -> by congruence.
  assert (w_fs w2 !! k = None) as Hnone.
  { set (task := λ (c : string * Node) (w0 : World),
                   Some match Fs.unlink (w_fs w0) (w_cwd w0)
                                (Path.join [p; c.1]) with
                        | Ok fs' => (set_fs w0 fs', Ok ())
                        | Err e => (w0, Err e)
                        end) in *.
    destruct (promise_all_ok_each shrinks
                (map task (filter (λ c, is_symlink c.2) contents)) w w2 l2)
      with (t := task (f, NLink t))
      as (s0 & s1 & [] & [Hsub0 Hcwd0] & Hstep & [Hsub1 _]).
    - intros t1 s0 s1 r (c & -> & _)%list_elem_of_fmap.
      apply unlink_task_shrinks.
    - exact Hul.
    - apply list_elem_of_fmap. exists (f, NLink t). split; [done|].
      by apply list_elem_of_filter.
    - unfold task in Hstep. simpl in Hstep.
      destruct (Fs.unlink _ _ _) as [fs'|] eqn:Hu; [|done].
      apply unlink_Ok in Hu as (k' & n' & Hk' & _ & _ & _ & ->).
      rewrite Hcwd0 in Hk'.
      apply (FsFacts.lkey_mono _ _ _ _ _ Hsub0) in Hk'.
      assert (k' = k) as -> by congruence. simplify_eq. simpl in Hsub1.
      destruct (w_fs w2 !! k) eqn:Hk2; [|done].
      apply (lookup_weaken _ _ _ _ Hk2) in Hsub1.
      by rewrite lookup_delete_eq in Hsub1. }
  destruct (promise_all _ w2) as [[w3 r3]|] eqn:Hrec; [|done].
  assert (shrinks w2 w3) as Hinv3.
  { eapply (promise_all_preserves (shrinks w2)); [|exact Hrec|reflexivity].
    intros t0 s0 s1 r0 (c & -> & Hc)%list_elem_of_fmap Ht Hs0.
    etrans; [exact Hs0|]. by eapply keeps_shrinks, clean_keeps. }
  destruct r3 as [?|e]; [|done].
  destruct (filter (λ c, ¬ isScopedPkgDir c) _).
  - destruct (Fs.rmdir _ _ _) as [fs'|e] eqn:Hrm; [|done].
    intros ?; simplify_eq. exists w2. split; [|done].
    etrans; [exact Hinv3|].
    apply rmdir_Ok in Hrm as (k0 & Hk0 & Hn0 & Hch & ->).
    split; simpl; [apply delete_subseteq|done].
  - intros ?; simplify_eq. by exists w2.
Qed.

(** X5.  When [clean] fulfils, every entry it listed as a symbolic link
    is gone; and a directory in which it listed nothing but symbolic links
    and scope directories is gone itself. *)
Theorem clean_removes_the_links fuel p w w' files :
  clean fuel p w = Some (w', Ok ()) →
  Fs.readdir (w_fs w) (w_cwd w) p = Ok files →
  (∀ f k t,
      f ∈ files →
      Fs.lkey (w_fs w) (w_cwd w) (Path.join [p; f]) = Ok k →
      Fs.lstat (w_fs w) (w_cwd w) (Path.join [p; f]) = Ok (NLink t) →
      w_fs w' !! k = None) ∧
  ((∀ f, f ∈ files →
         (∃ t, Fs.lstat (w_fs w) (w_cwd w) (Path.join [p; f]) = Ok (NLink t)) ∨
         (Fs.lstat (w_fs w) (w_cwd w) (Path.join [p; f]) = Ok NDir ∧
          Str.startsWith "@" f = true)) →
   ∀ k, Fs.lkey (w_fs w) (w_cwd w) p = Ok k → w_fs w' !! k = None).
Proof.
  intros Hrun Hrd. split.
  { intros f k t. by eapply clean_unlinked. }
  intros Hlinks k Hk. destruct fuel as [|fuel]; [done|].
  revert Hrun. simpl. rewrite Hrd.
  destruct (Fs.exists_ _ _ _) eqn:Hex; simpl.
  2:{ unfold Fs.readdir, Fs.exists_ in *.
      destruct (Fs.realpath _ _ _); done. }
  destruct (promise_all _ w) as [[w1 r1]|] eqn:Hls; [|done].
  destruct r1 as [contents|e]; [|done].
  apply lstat_all in Hls as [-> Hcontents].
  specialize (Hcontents _ eq_refl). rewrite Forall_forall in Hcontents.
  assert (filter (λ c : string * Node, ¬ isScopedPkgDir c)
            (filter (λ c : string * Node, ¬ is_symlink c.2) contents) = [])
    as Hnone.
  { apply elem_of_nil_inv. intros c [Hsc Hc]%list_elem_of_filter.
    apply list_elem_of_filter in Hc as [Hc Hin].
    destruct (Hcontents _ Hin) as [Hf Hn].
    destruct (Hlinks _ Hf) as [[t Ht]|[Ht Hat]]; rewrite Ht in Hn;
      injection Hn as Hn.
    - rewrite <-Hn in Hc. by apply Hc.
    - apply Hsc. unfold isScopedPkgDir. by rewrite <-Hn, Hat. }
  destruct (promise_all _ w) as [[w2 r2]|] eqn:Hul; [|done].
  assert (shrinks w w2) as Hs2.
  { eapply (promise_all_preserves (shrinks w)); [|exact Hul|reflexivity].
    intros t0 s0 s1 r0 (c & -> & _)%list_elem_of_fmap Ht Hs0.
    etrans; [exact Hs0|]. by eapply unlink_task_shrinks. }
  destruct r2 as [l2|e]; [|done].
  destruct (promise_all _ w2) as [[w3 r3]|] eqn:Hrec; [|done].
  assert (shrinks w w3) as [Hsub Hcwd].
  { eapply (promise_all_preserves (shrinks w)); [|exact Hrec|exact Hs2].
    intros t0 s0 s1 r0 (c & -> & _)%list_elem_of_fmap Ht Hs0.
    etrans; [exact Hs0|]. by eapply keeps_shrinks, clean_keeps. }
  destruct r3 as [l3|e]; [|done]. rewrite Hnone.
  destruct (Fs.rmdir _ _ _) as [fs'|e] eqn:Hrm; [|done].
  intros ?; simplify_eq. simpl.
  apply rmdir_Ok in Hrm as (k0 & Hk0 & _ & _ & ->).
  rewrite Hcwd in Hk0. apply (FsFacts.lkey_mono _ _ _ _ _ Hsub) in Hk0.
  assert (k0 = k) as -> by congruence. by rewrite lookup_delete_eq.
Qed.

Lemma clean_removes_the_links_witness :
  w_fs mixed_cleaned !! ["ws"; "app"; "node_modules"; "x"] = None.
Proof.
  destruct (clean_removes_the_links 3 "/ws/app/node_modules" mixed_install
              mixed_cleaned [".yarn-integrity"; "x"; "@s"; "real"])
    as [H _].
  - apply run_result_eq. vm_compute. reflexivity.
  - vm_compute. reflexivity.
  - apply (H "x" _ "../../node_modules/x").
    + apply (bool_decide_unpack _). vm_compute. exact I.
    + vm_compute. reflexivity.
    + vm_compute. reflexivity.
Defined.

(** ** The hooks and the regular files *)

Global Instance keeps_files_preorder : PreOrder keeps_files.
Proof.
  split; [intros w; by split_and!|].
  intros w0 w1 w2 (S1 & F1 & ? & ?) (S2 & F2 & ? & ?).
  split_and!; [by etrans|auto|congruence..].
Qed.

Lemma keeps_keeps_files w w' : keeps w w' → keeps_files w w'.
Proof. by intros (? & ? & ? & _ & ?). Qed.

Lemma getWorkspaceDependencies_world s w w' r :
  getWorkspaceDependencies s w = (w', r) →
  w_fs w' = w_fs w ∧ w_cwd w' = w_cwd w ∧ w_trace w' = w_trace w.
Proof.
  unfold getWorkspaceDependencies.
  destruct (require w _) as [w1 [target|]] eqn:H1;
    apply require_world in H1 as (F1 & C1 & T1 & _);
    [|intros; simplify_eq; done].
  destruct (require w1 _) as [w2 [root|]] eqn:H2;
    apply require_world in H2 as (F2 & C2 & T2 & _);
    intros; simplify_eq; split_and!; congruence.
Qed.

Lemma cleanHook_keeps fuel s w w' r :
  cleanHook fuel s w = Some (w', r) → keeps_files w w'.
Proof.
  unfold cleanHook.
  destruct (clean fuel _ w) as [[w1 r1]|] eqn:H1; [|done].
  apply clean_keeps, keeps_keeps_files in H1.
  destruct r1 as [[]|]; [|by intros; simplify_eq].
  destruct (getWorkspaceDependencies s w1) as [w2 r2] eqn:H2.
  apply getWorkspaceDependencies_world in H2 as (F2 & C2 & T2).
  assert (keeps_files w w2) as H02.
  { destruct H1 as (? & ? & ? & ?).
    split_and!; [by rewrite F2|by setoid_rewrite F2|congruence..]. }
  destruct r2 as [ws|]; [|by intros; simplify_eq].
  destruct (promise_all _ w2) as [[w3 r3]|] eqn:H3; [|done].
  assert (keeps_files w w3).
  { eapply (promise_all_preserves (keeps_files w)); [|exact H3|exact H02].
    intros t s0 s1 r0 (c & -> & _)%list_elem_of_fmap Ht Hs0.
    etrans; [exact Hs0|]. by eapply keeps_keeps_files, clean_keeps. }
  destruct r3; by intros; simplify_eq.
Qed.

Lemma create_link_cwd name toPath pkg st st1 r :
  create_link name toPath pkg st = (st1, r) → w_cwd st1.1 = w_cwd st.1.
Proof.
  destruct st as [w c].
  intros [(-> & _)|(w1 & call & -> & _ & _ & _ & _ & _ & Hl)]%create_link_cases;
    [done|].
  by apply link_world in Hl as (_ & ? & _).
Qed.

Lemma fs_extends_same_files fs fs' : fs_extends fs fs' → same_files fs fs'.
Proof.
  intros [Hsub Hfiles] k c. split; [|apply Hfiles].
  intros Hk. by eapply lookup_weaken.
Qed.

Lemma keeps_files_same_files w w' :
  keeps_files w w' → same_files (w_fs w) (w_fs w').
Proof.
  intros (Hsub & Hfiles & _) k c. split; [apply Hfiles|].
  intros Hk. by eapply lookup_weaken.
Qed.

Lemma same_files_trans fs0 fs1 fs2 :
  same_files fs0 fs1 → same_files fs1 fs2 → same_files fs0 fs2.
Proof. intros H1 H2 k c. by rewrite (H1 k c). Qed.

Section HookFacts.

Variable require_resolve : World → string → list string → option string.

Lemma processLinkages_cwd fuel p w w' r :
  processLinkages require_resolve fuel p w = Some (w', r) →
  w_cwd w' = w_cwd w.
Proof.
  intros Hrun.
  destruct (processLinkages_preserves require_resolve
              (λ st, w_cwd st.1 = w_cwd w) fuel p w w' r)
    as [c Hc]; [| |exact Hrun|done|exact Hc].
  - intros name pkg st st1 r0 Hst Hc. rewrite <-Hst. by eapply create_link_cwd.
  - intros w0 c file w1 r0 Hst (_ & Hcwd & _)%require_world. simpl in *.
    congruence.
Qed.

Lemma initialise_cwd fuel s w w' r :
  initialise require_resolve fuel s w = Some (w', r) → w_cwd w' = w_cwd w.
Proof.
  unfold initialise.
  destruct (require w _) as [w1 [target|]] eqn:H1;
    apply require_world in H1 as (_ & C1 & _);
    [|by intros; simplify_eq].
  destruct (require w1 _) as [w2 [root|]] eqn:H2;
    apply require_world in H2 as (_ & C2 & _);
    [|intros; simplify_eq; congruence].
  destruct (getWorkspaceDependencies s w2) as [w3 [relevant|]] eqn:H3;
    apply getWorkspaceDependencies_world in H3 as (_ & C3 & _);
    [|intros; simplify_eq; congruence].
  destruct (promise_all _ w3) as [[w4 r4]|] eqn:Hall; [|done].
  assert (w_cwd w4 = w_cwd w) as H4.
  { eapply (promise_all_preserves (λ w0, w_cwd w0 = w_cwd w));
      [|exact Hall|congruence].
    intros t s0 s1 r0 (ws & -> & _)%list_elem_of_fmap Hrun Hs0.
    rewrite <-Hs0. by eapply processLinkages_cwd. }
  destruct r4; [|by intros; simplify_eq].
  intros Hrun. rewrite <-H4. by eapply processLinkages_cwd.
Qed.

End HookFacts.

(** X6.  No hook touches a regular file: the regular files, with their
    content, are the same before and after [package:cleanup],
    [package:initialize] and [deploy:function:initialize], and so is the
    working directory.  Cleanup adds no entry and calls no [link]; setup
    removes no entry. *)
Theorem hooks_leave_the_files require_resolve fuel s h w w' r :
  hooks require_resolve fuel s h w = Some (w', r) →
  same_files (w_fs w) (w_fs w') ∧ w_cwd w' = w_cwd w ∧
  (h = package_cleanup → w_fs w' ⊆ w_fs w ∧ w_trace w' = w_trace w) ∧
  (h = package_initialize → w_fs w ⊆ w_fs w').
Proof.
  destruct h; simpl.
  - intros Hk%cleanHook_keeps.
    pose proof (keeps_files_same_files _ _ Hk).
    destruct Hk as (? & _ & ? & ?). by split_and!.
  - intros Hrun. pose proof (initialise_cwd _ _ _ _ _ _ Hrun).
    apply initialise_extends in Hrun.
    pose proof (fs_extends_same_files _ _ Hrun). destruct Hrun.
    by split_and!.
  - destruct (cleanHook fuel s w) as [[w1 r1]|] eqn:H1; [|done].
    apply cleanHook_keeps in H1.
    pose proof (keeps_files_same_files _ _ H1) as Hs1.
    destruct H1 as (_ & _ & C1 & _).
    destruct r1 as [[]|]; [|by intros; simplify_eq].
    intros Hrun. pose proof (initialise_cwd _ _ _ _ _ _ Hrun).
    apply initialise_extends, fs_extends_same_files in Hrun.
    split_and!; [by eapply same_files_trans|congruence|done..].
Qed.

Lemma hooks_leave_the_files_witness :
  same_files (w_fs monorepo)
    (w_fs (state_after monorepo
             (hooks resolve_plain 4 pkgA deploy_function_initialize monorepo))).
Proof.
  destruct (hooks_leave_the_files resolve_plain 4 pkgA
              deploy_function_initialize monorepo
              (state_after monorepo
                 (hooks resolve_plain 4 pkgA deploy_function_initialize
                    monorepo)) (Ok ())) as [H _]; [|exact H].
  apply run_result_eq. vm_compute. reflexivity.
Defined.

(** ** Setup returns *)

Lemma getWorkspaceDependencies_names s w w' r :
  getWorkspaceDependencies s w = (w', r) → world_names w' ⊆ world_names w.
Proof.
  unfold getWorkspaceDependencies.
  destruct (require w _) as [w1 [target|]] eqn:H1;
    apply world_names_require in H1; [|by intros; simplify_eq].
  destruct (require w1 _) as [w2 [root|]] eqn:H2;
    apply world_names_require in H2; intros; simplify_eq; set_solver.
Qed.

Section SetupReturns.

Variable require_resolve : World → string → list string → option string.

Lemma processLinkages_returns (U : gset string) fuel p w :
  world_names w ⊆ U → size U < fuel →
  ∃ w' r, processLinkages require_resolve fuel p w = Some (w', r) ∧
          world_names w' ⊆ U.
Proof.
  intros HU Hfuel. unfold processLinkages.
  destruct (require w _) as [w1 [m|e]] eqn:Hr;
    pose proof (world_names_require _ _ _ _ Hr) as HU1;
    [|eexists _, _; split; [done|set_solver]].
  pose proof (require_names _ _ _ _ Hr) as Hm.
  destruct (promise_all_returns (λ st : World * gset string,
                                   world_names st.1 ⊆ U)
              (map (λ name, linkPackage require_resolve fuel name p
                              (Path.join [p; "node_modules"]) [])
                   (keys (deps_of m))) (w1, ∅))
    as ([w2 c2] & r2 & Hall & HU2).
  - intros t s0 (dep & -> & Hdep)%list_elem_of_fmap Hs0.
    apply linkPackage_returns; [done| |].
    + apply (elem_of_list_to_set (C:=gset string)) in Hdep. set_solver.
    + simpl. rewrite difference_empty_L. done.
  - simpl. set_solver.
  - rewrite Hall. destruct r2; eauto.
Qed.

Lemma initialise_returns fuel s w :
  size (world_names w) < fuel →
  ∃ w' r, initialise require_resolve fuel s w = Some (w', r) ∧
          world_names w' ⊆ world_names w.
Proof.
  intros Hfuel. unfold initialise.
  destruct (require w _) as [w1 [target|]] eqn:H1;
    apply world_names_require in H1; [|eauto].
  destruct (require w1 _) as [w2 [root|]] eqn:H2;
    apply world_names_require in H2;
    [|eexists _, _; split; [done|set_solver]].
  destruct (getWorkspaceDependencies s w2) as [w3 [relevant|]] eqn:H3;
    apply getWorkspaceDependencies_names in H3;
    [|eexists _, _; split; [done|set_solver]].
  destruct (promise_all_returns (λ w0, world_names w0 ⊆ world_names w)
              (map (λ currentWorkspace,
                      processLinkages require_resolve fuel
                        (Path.join [workspacePath s; currentWorkspace]))
                   (workspacesToLink (deps_of target) (workspaces_of root)
                      relevant)) w3)
    as (w4 & r4 & Hall & H4).
  - intros t s0 (ws & -> & _)%list_elem_of_fmap Hs0.
    by apply processLinkages_returns.
  - set_solver.
  - rewrite Hall. destruct r4; [|eauto].
    by apply processLinkages_returns.
Qed.

End SetupReturns.

Lemma initialise_terminates_aux require_resolve fuel s w :
  size (world_names w) < fuel →
  ∃ w' r, initialise require_resolve fuel s w = Some (w', r).
Proof.
  intros Hfuel.
  destruct (initialise_returns require_resolve fuel s w Hfuel)
    as (w' & r & Hrun & _). eauto.
Qed.

(** X7.  Setup returns: on every world, whatever [require.resolve]
    answers and whatever the dependency graph looks like, [initialise]
    comes to an end, fulfilled or rejected.  The depth of the recursion
    never exceeds the number of dependency names the manifests mention. *)
Theorem initialise_terminates require_resolve fuel s w :
  size (world_names w) < fuel →
  ∃ w' r, initialise require_resolve fuel s w = Some (w', r).
Proof. apply initialise_terminates_aux. Qed.

Lemma initialise_terminates_witness :
  ∃ w' r, initialise resolve_plain 4 pkgA monorepo = Some (w', r).
Proof. apply initialise_terminates. vm_compute. lia. Defined.

(** ** Setup without manifests, and without dependencies *)

(** A manifest that was loaded is returned again from the cache, as long
    as the path leads to the same file. *)
Lemma require_again w file w1 m w2 :
  require w file = (w1, Ok m) →
  w_fs w2 = w_fs w → w_cwd w2 = w_cwd w → w_cache w1 ⊆ w_cache w2 →
  require w2 file = (w2, Ok m).
Proof.
  unfold require. intros Hr Hfs Hcwd Hcache. rewrite Hfs, Hcwd.
  destruct (negb (Path.isAbsolute file)); [done|].
  destruct (Fs.realpath _ _ _) as [k|]; [|done].
  assert (w_cache w1 !! k = Some m) as Hk.
  { destruct (w_cache w !! k) eqn:Hc; [by simplify_eq|].
    destruct (w_fs w !! k) as [[[m'|]| |]|]; simplify_eq.
    simpl. by rewrite lookup_insert_eq. }
  by rewrite (lookup_weaken _ _ _ _ Hk Hcache).
Qed.

Lemma require_cache_grows w file w1 r :
  require w file = (w1, r) → w_cache w ⊆ w_cache w1.
Proof.
  intros (_ & _ & _ & [->|(k & m & _ & Hc & _ & ->)])%require_world; [done|].
  simpl. by apply insert_subseteq.
Qed.

Lemma truthy_get_nil ws :
  truthy_get [] ws = bool_decide (ws ∈ object_prototype_keys).
Proof. done. Qed.

(** X8.  Setup loads the manifest of the target and the manifest of the
    workspace root before it does anything else: when one of them cannot
    be loaded, [initialise] rejects with the error of the loader, having
    called no [link] and changed nothing on disk. *)
Theorem initialise_without_a_manifest require_resolve fuel s w e :
  (require w (Path.join [settings_path s; "package.json"])).2 = Err e ∨
  (∃ target,
      (require w (Path.join [settings_path s; "package.json"])).2
        = Ok target ∧
      (require (require w (Path.join [settings_path s; "package.json"])).1
         (Path.join [workspacePath s; "package.json"])).2 = Err e) →
  ∃ w', initialise require_resolve fuel s w = Some (w', Err e) ∧
        w_fs w' = w_fs w ∧ w_trace w' = w_trace w ∧ w_cwd w' = w_cwd w.
Proof.
  unfold initialise.
  destruct (require w _) as [w1 r1] eqn:H1.
  apply require_world in H1 as (F1 & C1 & T1 & _). simpl.
  intros [->|(target & -> & H2)]; [by eauto|].
  destruct (require w1 _) as [w2 r2] eqn:H2'.
  apply require_world in H2' as (F2 & C2 & T2 & _). simpl in H2. subst r2.
  eexists. split; [done|]. split_and!; congruence.
Qed.

Lemma initialise_without_a_manifest_witness :
  ∃ w', initialise resolve_never 0 app_pkg cycle
          = Some (w', Err MODULE_NOT_FOUND) ∧
        w_fs w' = w_fs cycle ∧ w_trace w' = w_trace cycle ∧
        w_cwd w' = w_cwd cycle.
Proof.
  apply initialise_without_a_manifest. right. exists (manifest_of ["A"]).
  split; vm_compute; reflexivity.
Defined.

(** X9.  A target without dependencies: when the manifest of the target
    has no [dependencies], or an empty one, and no member of the workspace
    root bears the name of a member of [Object.prototype], [initialise]
    fulfils at once, with no pass on a workspace, no [link] and no change
    on disk. *)
Theorem initialise_without_dependencies require_resolve fuel s w target root :
  (require w (Path.join [settings_path s; "package.json"])).2 = Ok target →
  (require (require w (Path.join [settings_path s; "package.json"])).1
     (Path.join [workspacePath s; "package.json"])).2 = Ok root →
  deps_of target = [] →
  (∀ ws, ws ∈ workspaces_of root → ws ∉ object_prototype_keys) →
  ∃ w', initialise require_resolve fuel s w = Some (w', Ok ()) ∧
        w_fs w' = w_fs w ∧ w_trace w' = w_trace w.
Proof.
  intros H1 H2 Hdeps Hws. unfold initialise, getWorkspaceDependencies,
    processLinkages, workspacesToLink.
  destruct (require w _) as [w1 r1] eqn:E1. simpl in H1, H2. subst r1.
  destruct (require w1 _) as [w2 r2] eqn:E2. simpl in H2. subst r2.
  pose proof (require_world _ _ _ _ E1) as (F1 & C1 & T1 & _).
  pose proof (require_world _ _ _ _ E2) as (F2 & C2 & T2 & _).
  pose proof (require_cache_grows _ _ _ _ E2) as G2.
  rewrite (require_again w _ w1 target w2 E1) by (done || congruence).
  rewrite (require_again w1 _ w2 root w2 E2) by done.
  rewrite Hdeps, !push_relevant_filter. simpl.
  assert (filter (λ ws, truthy_get [] ws) (workspaces_of root) = []) as ->.
  { apply elem_of_nil_inv. intros ws [Ht Hin]%list_elem_of_filter.
    rewrite truthy_get_nil in Ht. apply bool_decide_unpack in Ht.
    by apply (Hws ws). }
  simpl.
  rewrite (require_again w _ w1 target w2 E1) by (done || congruence).
  rewrite Hdeps. simpl. eexists. split; [done|]. split; congruence.
Qed.

Lemma initialise_without_dependencies_witness :
  ∃ w', initialise resolve_never 0 leaf lone = Some (w', Ok ()) ∧
        w_fs w' = w_fs lone ∧ w_trace w' = w_trace lone.
Proof.
  apply (initialise_without_dependencies resolve_never 0 leaf lone
           (manifest_of [])
           {| dependencies := None; workspaces := Some ["leaf"; "other"] |}).
  - vm_compute. reflexivity.
  - vm_compute. reflexivity.
  - reflexivity.
  - intros ws Hin. apply (bool_decide_unpack _).
    apply elem_of_cons in Hin as [->|Hin]; [vm_compute; exact I|].
    apply elem_of_cons in Hin as [->|Hin]; [vm_compute; exact I|].
    by apply elem_of_nil in Hin.
Defined.

(** ** Normal paths *)

Module NormFacts.
Import StrFacts PathFacts.

Lemma proper_plain f : proper f → plain f.
Proof. by intros (? & ? & ? & _). Qed.

Lemma normalize_segs_app b B : ∀ A acc,
  Path.normalize_segs b acc (A ++ B)
  = Path.normalize_segs b (rev (Path.normalize_segs b acc A)) B.
Proof.
  induction A as [|s r IH]; intros acc; simpl.
  - by rewrite rev_involutive.
  - repeat case_decide; try apply IH.
    destruct acc as [|top acc']; [apply IH|]. case_decide; apply IH.
Qed.

Lemma normalize_segs_plain b l : ∀ acc,
  Forall plain l → Path.normalize_segs b acc l = rev acc ++ l.
Proof.
  induction l as [|s r IH]; intros acc Hl; simpl.
  - by rewrite (right_id_L [] (++)).
  - apply Forall_cons in Hl as [(H1 & H2 & H3) Hr].
    rewrite decide_False by naive_solver. rewrite decide_False by done.
    rewrite IH by done. simpl. by rewrite <-(assoc_L (++)).
Qed.

(** What [normalize_segs] gives: segments it keeps as they are, after
    leading [..] segments when it may go above the start. *)
Lemma normalize_segs_normal b l : ∀ acc,
  (∃ n ps, rev acc = replicate n ".." ++ ps ∧ Forall plain ps ∧
           (b = false → n = 0)) →
  ∃ n ps, Path.normalize_segs b acc l = replicate n ".." ++ ps ∧
          Forall plain ps ∧ (b = false → n = 0).
Proof.
  induction l as [|s r IH]; intros acc Hacc; simpl; [done|].
  case_decide as Hskip; [by apply IH|].
  case_decide as Hdd.
  - destruct acc as [|top acc'].
    + apply IH. destruct b.
      * exists 1, []. by split_and!.
      * exists 0, []. by split_and!.
    + destruct Hacc as (n & ps & Hrev & Hps & Hb). simpl in Hrev.
      case_decide as Htop.
      * subst top. apply IH.
        assert (ps = []) as ->.
        { destruct ps as [|p ps _] using rev_ind; [done|].
          rewrite (assoc_L (++)) in Hrev.
          apply app_inj_tail in Hrev as [_ Hp].
          apply Forall_app in Hps as [_ [(_ & _ & ?) _]%Forall_cons].
          congruence. }
        rewrite (right_id_L [] (++)) in Hrev.
        destruct b.
        -- exists (S n), []. simpl. rewrite Hrev.
           split_and!; [|done..].
           rewrite (right_id_L [] (++)).
           change (".." :: replicate n "..") with (replicate (S n) "..").
           by rewrite replicate_S_end.
        -- rewrite (Hb eq_refl) in Hrev. by destruct (rev acc').
      * apply IH.
        destruct ps as [|p ps _] using rev_ind.
        { rewrite (right_id_L [] (++)) in Hrev. destruct n as [|n].
          - by destruct (rev acc').
          - rewrite replicate_S_end in Hrev.
            apply app_inj_tail in Hrev as [_ ?]. congruence. }
        rewrite (assoc_L (++)) in Hrev.
        apply app_inj_tail in Hrev as [Hrev _].
        exists n, ps. split_and!; [done| |done].
        by apply Forall_app in Hps as [? _].
  - apply IH. destruct Hacc as (n & ps & Hrev & Hps & Hb).
    exists n, (ps ++ [s]). simpl. rewrite Hrev, (assoc_L (++)).
    split_and!; [done| |done].
    apply Forall_app. split; [done|]. constructor; [|done].
    unfold plain. naive_solver.
Qed.

Lemma normalize_segs_dots b n ps : ∀ acc,
  (b = false → n = 0) → Forall plain ps →
  (∃ m, acc = replicate m "..") →
  Path.normalize_segs b acc (replicate n ".." ++ ps)
  = rev acc ++ replicate n ".." ++ ps.
Proof.
  induction n as [|n IH]; intros acc Hb Hps [m ->]; simpl.
  - by apply normalize_segs_plain.
  - destruct b; [|by specialize (Hb eq_refl)].
    destruct m as [|m]; simpl.
    + rewrite (IH [".."]); [done|done|done|by exists 1].
    + rewrite (IH (".." :: ".." :: replicate m ".."));
        [|done|done|by exists (S (S m))].
      simpl. by rewrite <-!(assoc_L (++)).
Qed.

(** [normalize_segs] changes nothing in what it has given. *)
Lemma normalize_segs_idem b l :
  Path.normalize_segs b [] (Path.normalize_segs b [] l)
  = Path.normalize_segs b [] l.
Proof.
  destruct (normalize_segs_normal b l []) as (n & ps & -> & Hps & Hb).
  { exists 0, []. by split_and!. }
  rewrite normalize_segs_dots; [done..|by exists 0].
Qed.

End NormFacts.

(** ** The candidate directories *)

Module JoinFacts.
Import StrFacts PathFacts NormFacts.

Lemma join_snoc l x :
  l ≠ [] → Str.join (l ++ [x]) = Str.join l +:+ String Str.slash x.
Proof.
  induction l as [|y [|z r] IH]; intros Hne; [done|done|].
  change ((y :: z :: r) ++ [x]) with (y :: (z :: r) ++ [x]).
  simpl ((z :: r) ++ [x]).
  rewrite !join_cons2. change (z :: r ++ [x]) with ((z :: r) ++ [x]).
  rewrite IH by done. by rewrite app_assoc.
Qed.

Lemma to_list_app a b : Str.to_list (a +:+ b) = Str.to_list a ++ Str.to_list b.
Proof. induction a as [|c a IH]; [done|]. simpl. by rewrite <-IH. Qed.

Lemma ends_with_slash_app a b :
  b ≠ "" → Str.ends_with_slash (a +:+ b) = Str.ends_with_slash b.
Proof.
  intros Hb. unfold Str.ends_with_slash. rewrite to_list_app.
  destruct b as [|c b]; [done|]. simpl Str.to_list.
  rewrite last_app.
  destruct (last (c :: Str.to_list b)) eqn:E; [done|].
  by apply last_None in E.
Qed.

Lemma ends_with_slash_no_slash f : no_slash f → Str.ends_with_slash f = false.
Proof.
  unfold no_slash, Str.ends_with_slash. intros Hf.
  destruct (last (Str.to_list f)) as [c|] eqn:E; [|done].
  apply last_Some in E as [l E]. rewrite E in Hf.
  by apply Forall_app in Hf as [_ [? _]%Forall_cons].
Qed.

Lemma ends_with_slash_join l f :
  proper f → Str.ends_with_slash (Str.join (l ++ [f])) = false.
Proof.
  intros (Hne & _ & _ & Hns). destruct l as [|y l].
  - by apply ends_with_slash_no_slash.
  - rewrite join_snoc by done.
    change (String Str.slash f) with ("/" +:+ f).
    rewrite <-app_assoc, ends_with_slash_app by done.
    by apply ends_with_slash_no_slash.
Qed.

Lemma proper_no_slash l : Forall proper l → Forall no_slash l.
Proof.
  intros H. eapply Forall_impl; [exact H|]. by intros f (_ & _ & _ & ?).
Qed.

Lemma proper_plains l : Forall proper l → Forall plain l.
Proof. intros H. eapply Forall_impl; [exact H|]. apply proper_plain. Qed.

(** A path of proper segments is its own normal form. *)
Lemma normalize_proper (abs : bool) ys :
  ys ≠ [] → Forall proper ys →
  Path.normalize ((if abs then "/" else "") +:+ Str.join ys)
  = (if abs then "/" else "") +:+ Str.join ys.
Proof.
  intros Hne Hys.
  destruct ys as [|f l _] using rev_ind; [done|].
  pose proof Hys as [Hl Hf%Forall_cons]%Forall_app. destruct Hf as [Hf _].
  assert (Str.is_empty (Str.join (l ++ [f])) = false) as Hbody.
  { apply join_snoc_nonempty. by destruct Hf. }
  assert (Str.split (Str.join (l ++ [f])) = l ++ [f]) as Hsplit.
  { apply split_join; [by destruct l|by apply proper_no_slash]. }
  unfold Path.normalize. destruct abs.
  - change ("/" +:+ ?x) with (String Str.slash x).
    cbn [Str.is_empty Path.isAbsolute negb Str.split].
    replace (Str.is_slash Str.slash) with true by done.
    rewrite Hsplit. cbn [Path.normalize_segs].
    rewrite decide_True by (by left).
    rewrite normalize_segs_plain by (by apply proper_plains).
    simpl rev. rewrite app_nil_l, Hbody.
    change (String Str.slash ?x) with ("/" +:+ x) at 1.
    rewrite ends_with_slash_app by (by destruct (Str.join (l ++ [f]))).
    rewrite ends_with_slash_join by done.
    by rewrite app_empty_r.
  - change ("" +:+ ?x) with x. rewrite Hbody.
    assert (Path.isAbsolute (Str.join (l ++ [f])) = false) as ->.
    { destruct (Str.join (l ++ [f])) as [|c s] eqn:E; [done|]. simpl.
      destruct (Str.is_slash c) eqn:Hc; [|done].
      rewrite <-E in Hsplit. rewrite E in Hsplit. simpl in Hsplit.
      rewrite Hc in Hsplit.
      destruct l as [|y l]; simplify_eq/=; try (by destruct Hf).
      by apply Forall_cons in Hl as [(? & _) _]. }
    simpl negb. rewrite Hsplit.
    rewrite normalize_segs_plain by (by apply proper_plains).
    simpl rev. rewrite app_nil_l, Hbody.
    rewrite ends_with_slash_join by done.
    by rewrite app_empty_r.
Qed.

Lemma join_root ys : ys ≠ [] → Str.join ("" :: ys) = "/" +:+ Str.join ys.
Proof. by destruct ys. Qed.

End JoinFacts.

Lemma getNodeModulePaths_loop_spec : ∀ n paths result,
  length paths = n →
  getNodeModulePaths_loop n paths result
  = result ++ map (λ k, candidate (take k paths)) (rev (seq 1 n)).
Proof.
  induction n as [|n IH]; intros paths result Hlen.
  - simpl. by rewrite (right_id_L [] (++)).
  - destruct paths as [|p0 ps]; [done|].
    cbn [getNodeModulePaths_loop]. fold (candidate (p0 :: ps)).
    rewrite IH.
    2:{ rewrite removelast_firstn_len, length_take. simpl in *. lia. }
    rewrite seq_S, rev_app_distr. simpl rev. cbn [app map].
    rewrite <-(assoc_L (++)). f_equal. cbn [app]. f_equal.
    + by rewrite take_ge by (simpl in *; lia).
    + apply map_ext_in. intros k Hk%in_rev%in_seq.
      rewrite removelast_firstn_len, take_take. f_equal. f_equal.
      simpl in *. lia.
Qed.

Lemma candidate_root : candidate [""] = "/node_modules".
Proof. reflexivity. Qed.

Lemma candidate_proper (abs : bool) ys :
  ys ≠ [] → Forall proper ys →
  candidate ((if abs then [""] else []) ++ ys)
  = Str.join ((if abs then [""] else []) ++ ys ++ ["node_modules"]).
Proof.
  intros Hne Hys. unfold candidate.
  assert (Str.join ((if abs then [""] else []) ++ ys)
          = (if abs then "/" else "") +:+ Str.join ys) as ->.
  { destruct abs; [by apply JoinFacts.join_root|done]. }
  assert (Str.is_empty ((if abs then "/" else "") +:+ Str.join ys) = false)
    as Hne'.
  { destruct abs; [done|]. destruct ys as [|f l _] using rev_ind; [done|].
    apply PathFacts.join_snoc_nonempty.
    apply Forall_app in Hys as [_ [(? & _) _]%Forall_cons]. done. }
  rewrite Hne'. unfold Path.join.
  rewrite filter_cons, decide_True by (by intros E; rewrite E in Hne').
  rewrite filter_cons, decide_True by done. rewrite filter_nil.
  cbn [Str.join]. rewrite PathFacts.app_assoc.
  rewrite <-JoinFacts.join_snoc by done.
  assert (Forall proper (ys ++ ["node_modules"])) as Hall.
  { apply Forall_app. split; [done|]. constructor; [|done].
    split_and!; try done. apply (bool_decide_unpack _). vm_compute. exact I. }
  rewrite JoinFacts.normalize_proper; [|by destruct ys|done].
  destruct abs; cbn [app]; [|done].
  rewrite JoinFacts.join_root; [done|by destruct ys].
Qed.

(** X10.  The candidate directories.  For an absolute path of proper
    segments, [getNodeModulePaths] gives the [node_modules] of the path and
    of every directory above it, the nearest first and that of the root
    last.  For a relative path it stops at the first segment: neither the
    working directory nor what is above it is a candidate. *)
Theorem getNodeModulePaths_walks_up segs :
  Forall proper segs →
  getNodeModulePaths (Str.join ("" :: segs))
  = map (λ k, Str.join ("" :: take k segs ++ ["node_modules"]))
        (rev (seq 0 (S (length segs)))) ∧
  (segs ≠ [] →
   getNodeModulePaths (Str.join segs)
   = map (λ k, Str.join (take k segs ++ ["node_modules"]))
         (rev (seq 1 (length segs)))).
Proof.
  intros Hsegs. unfold getNodeModulePaths. split.
  - rewrite PathFacts.split_join;
      [|done|constructor; [constructor|by apply JoinFacts.proper_no_slash]].
    rewrite getNodeModulePaths_loop_spec by done. cbn [app length].
    rewrite <-(seq_shift (S (length segs)) 0), <-map_rev, map_map.
    apply map_ext_in. intros k Hk%in_rev%in_seq. cbn [take].
    destruct (decide (take k segs = [])) as [->|Hne]; [done|].
    apply (candidate_proper true); [done|].
    by apply Forall_take.
  - intros Hne.
    rewrite PathFacts.split_join; [|done|by apply JoinFacts.proper_no_slash].
    rewrite getNodeModulePaths_loop_spec by done. cbn [app].
    apply map_ext_in. intros k Hk%in_rev%in_seq.
    apply (candidate_proper false); [|by apply Forall_take].
    destruct segs; [done|]. destruct k; [lia|done].
Qed.

Lemma getNodeModulePaths_walks_up_witness :
  getNodeModulePaths "/ws/app"
  = ["/ws/app/node_modules"; "/ws/node_modules"; "/node_modules"] ∧
  getNodeModulePaths "ws/app" = ["ws/app/node_modules"; "ws/node_modules"].
Proof.
  destruct (getNodeModulePaths_walks_up ["ws"; "app"]) as [H1 H2].
  - apply (bool_decide_unpack _). vm_compute. exact I.
  - split; [exact H1|]. by apply H2.
Defined.

(** ** Where the links point *)

Module RelFacts.
Import StrFacts PathFacts NormFacts.

Lemma resolve_segs_plain cwd p : Forall plain (Path.resolve_segs cwd p).
Proof.
  unfold Path.resolve_segs.
  destruct (normalize_segs_normal false
              (Str.split (if Path.isAbsolute p then p else cwd +:+ "/" +:+ p))
              []) as (n & ps & -> & Hps & Hn).
  { exists 0, []. by split_and!. }
  by rewrite (Hn eq_refl).
Qed.

Lemma resolve_segs_no_slash cwd p : Forall no_slash (Path.resolve_segs cwd p).
Proof.
  unfold Path.resolve_segs.
  apply normalize_segs_no_slash; [constructor|apply no_slash_split].
Qed.

Lemma strip_common_spec a : ∀ b f t,
  Path.strip_common a b = (f, t) → ∃ c, a = c ++ f ∧ b = c ++ t.
Proof.
  induction a as [|x a IH]; intros b f t; simpl.
  - intros; simplify_eq. by exists [].
  - destruct b as [|y b]; [intros; simplify_eq; by exists []|].
    case_decide as Hxy; [|intros; simplify_eq; by exists []].
    subst y. intros (c & -> & ->)%IH. by exists (x :: c).
Qed.

(** One [..] for every segment undoes the segments. *)
Lemma normalize_segs_ups rest acc : ∀ f,
  Forall plain f →
  Path.normalize_segs false (rev f ++ acc) (map (λ _, "..") f ++ rest)
  = Path.normalize_segs false acc rest.
Proof.
  induction f as [|x f IH] using rev_ind; intros Hf; [done|].
  apply Forall_app in Hf as [Hf [(_ & _ & Hx) _]%Forall_cons].
  rewrite rev_app_distr, map_app. simpl.
  assert (∀ l : list string,
            (map (λ _, "..") f ++ [".."]) ++ l
            = ".." :: map (λ _ : string, "..") f ++ l) as ->.
  { intros l. rewrite <-(assoc_L (++)). simpl.
    clear. induction f as [|y f IH]; [done|]. simpl. by rewrite IH. }
  simpl. rewrite decide_False by done. by apply IH.
Qed.

Lemma isAbsolute_app a b : a ≠ "" → Path.isAbsolute (a +:+ b) = Path.isAbsolute a.
Proof. by destruct a. Qed.

(** [path.relative(from, to)], read from [from], leads to [to]. *)
Lemma relative_resolves cwd from to :
  from ≠ "" →
  Path.resolve_segs cwd (from +:+ "/" +:+ Path.relative cwd from to)
  = Path.resolve_segs cwd to.
Proof.
  intros Hfrom. unfold Path.relative.
  destruct (Path.strip_common _ _) as [f t] eqn:Hst.
  apply strip_common_spec in Hst as (c & HF & HT).
  pose proof (resolve_segs_plain cwd from) as HFp.
  pose proof (resolve_segs_plain cwd to) as HTp.
  pose proof (resolve_segs_no_slash cwd to) as HTn.
  rewrite HF in HFp. rewrite HT in HTp, HTn.
  apply Forall_app in HFp as [_ Hf]. apply Forall_app in HTp as [_ Ht].
  apply Forall_app in HTn as [_ Htn].
  set (rel := Str.join (map (λ _, "..") f ++ t)).
  rewrite HT. unfold Path.resolve_segs in *.
  rewrite isAbsolute_app by done.
  set (base := if Path.isAbsolute from then from else cwd +:+ "/" +:+ from)
    in *.
  assert ((if Path.isAbsolute from then from +:+ "/" +:+ rel
           else cwd +:+ "/" +:+ from +:+ "/" +:+ rel)
          = base +:+ String Str.slash rel) as ->.
  { unfold base. destruct (Path.isAbsolute from); [done|].
    change ("/" +:+ ?x) with (String Str.slash x).
    by rewrite app_assoc. }
  rewrite split_app_slash, normalize_segs_app, HF.
  rewrite rev_app_distr.
  destruct (decide (map (λ _ : string, "..") f ++ t = [])) as [Hnil|Hne].
  - apply app_eq_nil in Hnil as [Hf0 ->]. destruct f; [|done].
    unfold rel. simpl. by rewrite rev_involutive, (right_id_L [] (++)).
  - unfold rel. rewrite split_join; [|done|].
    + rewrite normalize_segs_ups by done.
      rewrite normalize_segs_plain by done. by rewrite rev_involutive.
    + apply Forall_app. split; [|done].
      apply Forall_fmap, Forall_true. intros x. simpl.
      apply (bool_decide_unpack _). vm_compute. exact I.
Qed.

Lemma normalize_nonempty p : Path.normalize p ≠ "".
Proof.
  unfold Path.normalize. destruct (Str.is_empty p); [done|].
  destruct (Str.join _) as [|c body]; simpl.
  - by repeat case_match.
  - by destruct (Path.isAbsolute p).
Qed.

Lemma join_nonempty args : Path.join args ≠ "".
Proof.
  unfold Path.join. destruct (filter _ args); [done|apply normalize_nonempty].
Qed.

End RelFacts.

Lemma create_link_target name toPath pkg w c st1 r :
  create_link name toPath pkg (w, c) = (st1, r) →
  w_cwd st1.1 = w_cwd w ∧
  (w_trace st1.1 = w_trace w ∨
   ∃ call, w_trace st1.1 = w_trace w ++ [call] ∧
           leads_to_package (w_cwd w) toPath call).
Proof.
  unfold create_link.
  destruct (hoisted pkg && bool_decide (name ∉ c));
    [|intros; simplify_eq; by eauto].
  destruct (link _ _ _) as [w1 r1] eqn:Hl. intros; simplify_eq.
  apply link_world in Hl as (_ & Hcwd & _ & Htr). simpl in *.
  split; [done|]. right. eexists. split; [exact Htr|].
  unfold leads_to_package. simpl.
  apply RelFacts.relative_resolves, RelFacts.join_nonempty.
Qed.

(** X11.  Every link points to its package: the target [linkPackage]
    gives to [link], read from the directory it was taken relative to,
    [path.join(toPath, path.dirname(name))], leads to the directory of the
    manifest, [path.dirname(pkg)]. *)
Theorem link_targets_lead_to_the_packages require_resolve fuel p w w' r :
  processLinkages require_resolve fuel p w = Some (w', r) →
  ∃ added,
    w_trace w' = w_trace w ++ added ∧
    Forall (leads_to_package (w_cwd w) (Path.join [p; "node_modules"])) added.
Proof.
  intros Hrun.
  destruct (processLinkages_preserves require_resolve
              (λ st, w_cwd st.1 = w_cwd w ∧
                     ∃ added,
                       w_trace st.1 = w_trace w ++ added ∧
                       Forall (leads_to_package (w_cwd w)
                                 (Path.join [p; "node_modules"])) added)
              fuel p w w' r) as [c [_ Hc]]; [| |exact Hrun| |exact Hc].
  - intros name pkg [w0 c0] st1 r0 [Hcwd (added & Ht & Hall)] Hc.
    apply create_link_target in Hc as [Hcwd1 Hc]. simpl in *.
    split; [congruence|].
    destruct Hc as [Htr|(call & Htr & Hcall)].
    + exists added. split; [congruence|done].
    + exists (added ++ [call]). rewrite Htr, Ht, (assoc_L (++)).
      split; [done|]. apply Forall_app. split; [done|].
      constructor; [|done]. by rewrite <-Hcwd.
  - intros w0 c0 file w1 r0 [Hcwd (added & Ht & Hall)]
      (_ & Hcwd1 & Htr & _)%require_world. simpl in *.
    split; [congruence|]. exists added. split; [congruence|done].
  - split; [done|]. exists []. by rewrite (right_id_L [] (++)).
Qed.

Lemma link_targets_lead_to_the_packages_witness :
  ∃ added,
    w_trace diamond_linked = w_trace diamond ++ added ∧
    Forall (leads_to_package (w_cwd diamond)
              (Path.join ["/ws/app"; "node_modules"])) added.
Proof.
  apply (link_targets_lead_to_the_packages resolve_never 4 "/ws/app" diamond
           diamond_linked (Ok ())).
  apply run_result_eq. vm_compute. reflexivity.
Defined.

(** ** A name joined to a joined path *)

Module SettledFacts.
Import StrFacts PathFacts NormFacts JoinFacts.

Lemma split_nonempty_snoc s l c : Str.split s = l ++ [c] → c ≠ "" → s ≠ "".
Proof.
  intros Hs Hc ->. simpl in Hs.
  destruct l as [|? [|? ?]]; simplify_eq/=.
Qed.

(** The normal form of a path whose last segment is a proper name. *)
Lemma normalize_snoc s l c :
  Str.split s = l ++ [c] → proper c →
  Path.normalize s
  = (if Path.isAbsolute s then "/" else "")
    +:+ Str.join (Path.normalize_segs (negb (Path.isAbsolute s)) [] l ++ [c]).
Proof.
  intros Hs Hc. pose proof Hc as (Hne & _).
  pose proof (split_nonempty_snoc _ _ _ Hs Hne) as Hs0.
  unfold Path.normalize. destruct (Str.is_empty s) eqn:He; [by destruct s|].
  rewrite Hs, normalize_segs_snoc by done.
  rewrite join_snoc_nonempty by done.
  assert (Str.ends_with_slash s = false) as ->.
  { rewrite <-(join_split s), Hs. by apply ends_with_slash_join. }
  by rewrite app_empty_r.
Qed.

Lemma isAbsolute_join zs :
  Forall no_slash zs → head zs ≠ Some "" → Path.isAbsolute (Str.join zs) = false.
Proof.
  intros Hns Hhd. destruct zs as [|z zs]; [done|].
  apply Forall_cons in Hns as [Hz _].
  assert (Path.isAbsolute z = false) as Hz'.
  { destruct z as [|a z]; [done|]. by apply Forall_cons in Hz as [? _]. }
  destruct zs as [|y zs]; [done|].
  rewrite join_cons2. destruct z; [done|]. done.
Qed.

Lemma normalize_segs_head b l : ∀ acc,
  last acc ≠ Some "" → head (Path.normalize_segs b acc l) ≠ Some "".
Proof.
  induction l as [|s r IH]; intros acc Hacc; simpl.
  - destruct acc as [|a acc _] using rev_ind; [done|].
    rewrite rev_app_distr. simpl. rewrite last_snoc in Hacc. congruence.
  - case_decide as Hskip; [by apply IH|].
    case_decide as Hdd.
    + destruct acc as [|top acc'].
      * apply IH. by destruct b.
      * case_decide.
        -- apply IH. destruct b; [|done]. by rewrite last_cons_cons.
        -- apply IH. destruct acc' as [|a acc'] ; [done|].
           by rewrite last_cons_cons in Hacc.
    + apply IH. destruct acc as [|top acc']; [simpl; naive_solver|].
      by rewrite last_cons_cons.
Qed.

(** The shape of a settled path. *)
Lemma settled_shape s l c :
  Str.split s = l ++ [c] → proper c →
  Path.normalize s ≠ "" ∧
  Path.isAbsolute (Path.normalize s) = Path.isAbsolute s ∧
  Str.split (Path.normalize s)
  = (if Path.isAbsolute s then [""] else [])
    ++ Path.normalize_segs (negb (Path.isAbsolute s)) [] l ++ [c].
Proof.
  intros Hs Hc. pose proof Hc as (Hne & _ & _ & Hns).
  rewrite (normalize_snoc s l c Hs Hc).
  set (abs := Path.isAbsolute s).
  set (ys := Path.normalize_segs (negb abs) [] l).
  assert (Forall no_slash ys) as Hys.
  { apply normalize_segs_no_slash; [constructor|].
    pose proof (no_slash_split s) as H. rewrite Hs in H.
    by apply Forall_app in H as [? _]. }
  assert (Forall no_slash (ys ++ [c])) as Hysc.
  { apply Forall_app. split; [done|by constructor]. }
  assert (Str.is_empty (Str.join (ys ++ [c])) = false) as Hbody
    by (by apply join_snoc_nonempty).
  split_and!.
  - destruct abs; [done|]. by destruct (Str.join (ys ++ [c])).
  - destruct abs; [done|]. apply isAbsolute_join; [done|].
    destruct ys as [|y ys'] eqn:E; simpl; [congruence|].
    pose proof (normalize_segs_head (negb false) l []) as Hh.
    fold ys in Hh. rewrite E in Hh. by apply Hh.
  - destruct abs.
    + change ("/" +:+ ?x) with (String Str.slash x). simpl.
      replace (Str.is_slash Str.slash) with true by done.
      rewrite split_join; [done|by destruct ys|done].
    + apply split_join; [by destruct ys|done].
Qed.

(** [path.join] of arguments that end in a proper name is settled. *)
Lemma join_settled args c : proper c → settled (Path.join (args ++ [c])).
Proof.
  intros Hc. pose proof Hc as (Hne & _ & _ & Hns).
  unfold Path.join. rewrite filter_app, (filter_cons _ c), decide_True by done.
  rewrite filter_nil.
  destruct (filter (λ a, a ≠ "") args) as [|x xs] eqn:Hf.
  - exists c, [], c. split_and!; [done| |done]. by apply split_no_slash.
  - rewrite <-Hf. set (xs' := filter _ args).
    assert (xs' ≠ []) as Hxs by (unfold xs'; by rewrite Hf).
    destruct (xs' ++ [c]) as [|z zs] eqn:E; [by destruct xs'|].
    rewrite <-E.
    exists (Str.join (xs' ++ [c])), (Str.split (Str.join xs')), c.
    split_and!; [done| |done].
    by rewrite join_snoc, split_app_slash, (split_no_slash c).
Qed.

Lemma settled_nonempty P : settled P → P ≠ "".
Proof.
  intros (s & l & c & Hc & Hs & ->). by apply (settled_shape s l c).
Qed.

(** A proper name joined to a settled path is the path, the separator and
    the name. *)
Lemma settled_join P c' :
  settled P → proper c' →
  Path.join [P; c'] = P +:+ String Str.slash c'.
Proof.
  intros (s & l & c & Hc & Hs & HP) Hc'.
  pose proof Hc as (Hne & _ & _ & Hns).
  pose proof Hc' as (Hne' & _ & _ & Hns').
  destruct (settled_shape s l c Hs Hc) as (HP0 & Habs & HsP).
  rewrite <-HP in HP0, Habs, HsP.
  set (abs := Path.isAbsolute s) in *.
  set (ys := Path.normalize_segs (negb abs) [] l) in *.
  unfold Path.join.
  rewrite filter_cons, decide_True by done.
  rewrite filter_cons, decide_True by done. rewrite filter_nil.
  cbn [Str.join].
  rewrite (normalize_snoc (P +:+ String Str.slash c') (Str.split P) c');
    [|by rewrite split_app_slash, (split_no_slash c')|done].
  rewrite RelFacts.isAbsolute_app, Habs by done.
  rewrite HsP.
  assert (Path.normalize_segs (negb abs) []
            ((if abs then [""] else []) ++ ys ++ [c]) = ys ++ [c]) as ->.
  { assert (Path.normalize_segs (negb abs) []
              ((if abs then [""] else []) ++ ys ++ [c])
            = Path.normalize_segs (negb abs) [] (ys ++ [c])) as ->.
    { by destruct abs. }
    rewrite normalize_segs_snoc by done.
    unfold ys. by rewrite normalize_segs_idem. }
  rewrite join_snoc by (by destruct ys).
  rewrite HP, (normalize_snoc s l c Hs Hc).
  fold abs ys. by rewrite app_assoc.
Qed.

(** The segments a settled path is walked by end in its name. *)
Lemma settled_segments cwd P :
  settled P →
  ∃ l c, proper c ∧
         filter (λ s, s ≠ "" ∧ s ≠ ".") (Fs.segments cwd P) = l ++ [c].
Proof.
  intros (s & l & c & Hc & Hs & ->).
  destruct (settled_shape s l c Hs Hc) as (_ & _ & HsP).
  pose proof Hc as (Hne & Hd & _).
  unfold Fs.segments.
  assert (∀ pfx, ∃ l0,
             filter (λ s, s ≠ "" ∧ s ≠ ".")
               (pfx ++ Str.split (Path.normalize s)) = l0 ++ [c]) as H.
  { intros pfx. rewrite HsP, !filter_app.
    rewrite (filter_cons _ c), decide_True by done. rewrite filter_nil.
    eexists. by rewrite !(assoc_L (++)). }
  destruct (Path.isAbsolute (Path.normalize s)).
  - destruct (H []) as [l0 Hl0]. eauto.
  - destruct (H (Str.split cwd)) as [l0 Hl0]. eauto.
Qed.

End SettledFacts.

(** ** [clean] returns *)

Module WalkFacts.
Import FsFacts.

Lemma walk_skips (n : nat) (fs : FS) cur l :
  filter (λ s, s ≠ "" ∧ s ≠ ".") l = [] → Fs.walk n fs cur l = Ok cur.
Proof.
  induction l as [|s r IH]; [by rewrite walk_nil|].
  rewrite filter_cons. case_decide as Hs; [done|].
  intros Hr. rewrite walk_cons, decide_True; [by apply IH|].
  destruct (decide (s = "")); [by left|].
  destruct (decide (s = ".")); [by right|]. by destruct Hs.
Qed.

Lemma is_dir_file (fs : FS) cur s c :
  fs !! (cur ++ [s]) = Some (NFile c) → Fs.is_dir fs (cur ++ [s]) = false.
Proof.
  intros Hk. unfold Fs.is_dir. rewrite Hk.
  rewrite bool_decide_eq_false_2 by (by destruct cur).
  by rewrite bool_decide_eq_false_2.
Qed.

(** A walk to a directory does not mind the segments that are skipped. *)
Lemma walk_filter_eq (fs : FS) : ∀ n cur l l' k,
  filter (λ s, s ≠ "" ∧ s ≠ ".") l = filter (λ s, s ≠ "" ∧ s ≠ ".") l' →
  Fs.walk n fs cur l = Ok k → Fs.is_dir fs k = true →
  Fs.walk n fs cur l' = Ok k.
Proof.
  induction n as [n IHn] using lt_wf_ind.
  intros cur l. revert cur.
  induction l as [|s r IHl]; intros cur l' k Hf Hw Hd.
  { rewrite walk_nil in Hw. simplify_eq. by apply walk_skips. }
  destruct (decide (s = "" ∨ s = ".")) as [Hs|Hs].
  { rewrite walk_cons, decide_True in Hw by done.
    rewrite filter_cons, decide_False in Hf by naive_solver. by eapply IHl. }
  rewrite filter_cons, decide_True in Hf by naive_solver.
  revert cur Hw. induction l' as [|s' r' IHl']; intros cur Hw; [done|].
  destruct (decide (s' = "" ∨ s' = ".")) as [Hs'|Hs'].
  { rewrite walk_cons, decide_True by done.
    rewrite filter_cons, decide_False in Hf by naive_solver. by apply IHl'. }
  rewrite filter_cons, decide_True in Hf by naive_solver.
  injection Hf as <- Hf.
  rewrite walk_cons in Hw |- *. rewrite decide_False in Hw |- * by done.
  case_decide; [by eapply IHl|].
  destruct (fs !! (cur ++ [s])) as [[c| |t]|] eqn:Hk; [| | |done].
  - destruct r; [|done]. simplify_eq.
    by rewrite (is_dir_file _ _ _ _ Hk) in Hd.
  - by eapply IHl.
  - destruct n as [|m]; [done|].
    destruct (Str.is_empty t); [done|].
    eapply (IHn m); [lia| |exact Hw|done].
    by rewrite !filter_app, Hf.
Qed.

(** One more segment, when it names a directory. *)
Lemma walk_snoc_dir (fs : FS) c : plain c → ∀ n cur l k,
  Fs.walk n fs cur l = Ok k → Fs.is_dir fs k = true →
  fs !! (k ++ [c]) = Some NDir →
  Fs.walk n fs cur (l ++ [c]) = Ok (k ++ [c]).
Proof.
  intros (Hc1 & Hc2 & Hc3).
  induction n as [n IHn] using lt_wf_ind.
  intros cur l. revert cur.
  induction l as [|s r IHl]; intros cur k Hw Hd Hk.
  { rewrite walk_nil in Hw. simplify_eq. simpl.
    rewrite walk_cons, decide_False by naive_solver.
    rewrite decide_False by done. by rewrite Hk, walk_nil. }
  change ((s :: r) ++ [c]) with (s :: (r ++ [c])).
  rewrite walk_cons in Hw |- *.
  case_decide; [by apply IHl|]. case_decide; [by apply IHl|].
  destruct (fs !! (cur ++ [s])) as [[c0| |t]|] eqn:Hs; [| | |done].
  - destruct r; [|done]. simplify_eq.
    by rewrite (is_dir_file _ _ _ _ Hs) in Hd.
  - by apply IHl.
  - destruct n as [|m]; [done|].
    destruct (Str.is_empty t); [done|].
    rewrite (assoc_L (++)). by apply (IHn m); [lia|..].
Qed.

Lemma filter_skips_idem (l : list string) :
  filter (λ s, s ≠ "" ∧ s ≠ ".") (filter (λ s, s ≠ "" ∧ s ≠ ".") l)
  = filter (λ s, s ≠ "" ∧ s ≠ ".") l.
Proof. by apply list_filter_filter_l. Qed.

(** A settled path that names a directory leads to that directory. *)
Lemma settled_dir (fs : FS) cwd P :
  settled P → Fs.lstat fs cwd P = Ok NDir →
  ∃ k, Fs.lkey fs cwd P = Ok k ∧ Fs.realpath fs cwd P = Ok k ∧
       fs !! k = Some NDir ∧ k ≠ [].
Proof.
  intros HP. destruct (SettledFacts.settled_segments cwd P HP)
    as (l & c & Hc & Hl).
  pose proof (SettledFacts.settled_nonempty P HP) as Hne.
  unfold Fs.lstat, Fs.lkey, Fs.realpath.
  assert (Str.is_empty P = false) as -> by (by destruct P).
  rewrite Hl, unsnoc_snoc.
  pose proof Hc as (_ & _ & Hdd & _). rewrite decide_False by done.
  destruct (Fs.walk _ fs [] l) as [k0|] eqn:Hw; [|done].
  destruct (Fs.is_dir fs k0) eqn:Hd; [|done].
  rewrite decide_False by (by destruct k0).
  destruct (fs !! (k0 ++ [c])) as [n|] eqn:Hk; [|done].
  intros ?; simplify_eq. exists (k0 ++ [c]).
  split_and!; [done| |done|by destruct k0].
  apply (walk_filter_eq fs _ _ (l ++ [c])).
  - by rewrite <-Hl, filter_skips_idem.
  - apply walk_snoc_dir; [by apply NormFacts.proper_plain|done..].
  - unfold Fs.is_dir. rewrite Hk.
    rewrite (bool_decide_eq_true_2 (_ = Some _)) by done.
    by rewrite orb_true_r.
Qed.

Lemma segments_snoc cwd P c :
  P ≠ "" → no_slash c →
  Fs.segments cwd (P +:+ String Str.slash c) = Fs.segments cwd P ++ [c].
Proof.
  intros HP Hc. unfold Fs.segments.
  rewrite RelFacts.isAbsolute_app by done.
  rewrite PathFacts.split_app_slash, (PathFacts.split_no_slash c) by done.
  destruct (Path.isAbsolute P); [done|]. by rewrite (assoc_L (++)).
Qed.

(** The entry a name joined to a settled path names is the entry of that
    name in the directory the path leads to. *)
Lemma settled_child_key (fs : FS) cwd P f k :
  settled P → proper f →
  Fs.realpath fs cwd P = Ok k → Fs.is_dir fs k = true →
  Fs.lkey fs cwd (Path.join [P; f]) = Ok (k ++ [f]).
Proof.
  intros HP Hf. rewrite SettledFacts.settled_join by done.
  pose proof (SettledFacts.settled_nonempty P HP) as Hne.
  pose proof Hf as (Hne' & Hd' & Hdd' & Hns').
  unfold Fs.realpath, Fs.lkey.
  assert (Str.is_empty P = false) as -> by (by destruct P).
  assert (Str.is_empty (P +:+ String Str.slash f) = false) as ->
    by (by destruct P).
  rewrite segments_snoc by done.
  intros Hw Hd. rewrite filter_app, (filter_cons _ f), decide_True by done.
  rewrite filter_nil, unsnoc_snoc, decide_False by done.
  rewrite (walk_filter_eq fs _ _ (Fs.segments cwd P) _ k);
    [|by rewrite filter_skips_idem|done|done].
  by rewrite Hd.
Qed.

(** Below a settled path, a name listed as a directory is one level
    deeper than the path. *)
Lemma realpath_child (fs : FS) cwd P c k :
  settled P → proper c →
  Fs.realpath fs cwd P = Ok k → Fs.is_dir fs k = true →
  Fs.lstat fs cwd (Path.join [P; c]) = Ok NDir →
  Fs.realpath fs cwd (Path.join [P; c]) = Ok (k ++ [c]).
Proof.
  intros HP Hc Hk Hd Hl.
  pose proof (settled_child_key fs cwd P c k HP Hc Hk Hd) as Hkey.
  destruct (settled_dir fs cwd (Path.join [P; c])) as (k' & Hk' & Hr & _);
    [apply (SettledFacts.join_settled [P] c Hc)|done|].
  congruence.
Qed.

End WalkFacts.

Lemma depth_le (fs : FS) k n : fs !! k = Some n → length k ≤ depth fs.
Proof.
  intros Hk. apply max_list_elem_of_le, list_elem_of_fmap.
  exists (k, n). split; [done|]. by apply elem_of_map_to_list.
Qed.

(** A call of [clean] returns when the calls it makes return. *)
Lemma clean_step_returns fuel p w :
  (∀ files c s0,
      Fs.readdir (w_fs w) (w_cwd w) p = Ok files → c ∈ files →
      Fs.lstat (w_fs w) (w_cwd w) (Path.join [p; c]) = Ok NDir →
      Str.startsWith "@" c = true →
      shrinks w s0 →
      ∃ y, clean fuel (Path.join [p; c]) s0 = Some y) →
  ∃ y, clean (S fuel) p w = Some y.
Proof.
  intros Hrec. simpl.
  destruct (Fs.exists_ _ _ _); simpl; [|eauto].
  destruct (Fs.readdir _ _ _) as [files|e] eqn:Hrd; [|eauto].
  specialize (Hrec files).
  destruct (promise_all_returns (λ _, True)
              (map (λ f w0,
                      Some (w0,
                            match Fs.lstat (w_fs w0) (w_cwd w0)
                                    (Path.join [p; f]) with
                            | Ok n => Ok (f, n)
                            | Err e => Err e
                            end)) files) w)
    as (w1 & r1 & Hls & _); [|done|].
  { intros t s0 (f & -> & _)%list_elem_of_fmap _. eauto. }
  rewrite Hls. apply lstat_all in Hls as [-> Hcontents].
  destruct r1 as [contents|e]; [|eauto].
  specialize (Hcontents _ eq_refl). rewrite Forall_forall in Hcontents.
  destruct (promise_all_returns (shrinks w)
              (map (λ c w0,
                      Some match Fs.unlink (w_fs w0) (w_cwd w0)
                                   (Path.join [p; c.1]) with
                           | Ok fs' => (set_fs w0 fs', Ok ())
                           | Err e => (w0, Err e)
                           end)
                   (filter (λ c, is_symlink c.2) contents)) w)
    as (w2 & r2 & Hul & Hw2); [|reflexivity|].
  { intros t s0 (c & -> & _)%list_elem_of_fmap Hs0.
    destruct (Fs.unlink (w_fs s0) (w_cwd s0) (Path.join [p; c.1]))
      as [fs'|e] eqn:Hu.
    - exists (set_fs s0 fs'), (Ok ()). split; [done|].
      etrans; [exact Hs0|].
      apply unlink_Ok in Hu as (? & ? & _ & _ & _ & _ & ->).
      split; [apply delete_subseteq|done].
    - by exists s0, (Err e). }
  rewrite Hul. destruct r2 as [l2|e]; [|eauto].
  destruct (promise_all_returns (shrinks w)
              (map (λ c, clean fuel (Path.join [p; c.1]))
                   (filter (λ c, isScopedPkgDir c)
                      (filter (λ c, ¬ is_symlink c.2) contents))) w2)
    as (w3 & r3 & Hrc & Hw3); [|done|].
  { intros t s0 (c & -> & Hc)%list_elem_of_fmap Hs0.
    apply list_elem_of_filter in Hc as [Hsc Hc].
    apply list_elem_of_filter in Hc as [_ Hc].
    apply Hcontents in Hc as [Hin Hl].
    apply andb_prop_elim in Hsc as [Hdir Hat].
    destruct c as [f n]. simpl in *. destruct n; try done.
    destruct (Hrec f s0 eq_refl Hin Hl) as [[s1 r1] Hrun];
      [by apply Is_true_true|done|].
    exists s1, r1. split; [done|]. etrans; [exact Hs0|].
    by eapply keeps_shrinks, clean_keeps. }
  rewrite Hrc. destruct r3 as [l3|e]; [|eauto].
  destruct (filter (λ c, ¬ isScopedPkgDir c) _); [|eauto].
  destruct (Fs.rmdir _ _ _); eauto.
Qed.

(** Below a settled path the recursion goes one level down at a time,
    and no canonical path is longer than [d]. *)
Lemma clean_returns_below (fs0 : FS) d :
  wf_names fs0 → (∀ k n, fs0 !! k = Some n → length k ≤ d) →
  ∀ fuel P w,
    w_fs w ⊆ fs0 → settled P → 0 < fuel →
    (∀ k, Fs.realpath (w_fs w) (w_cwd w) P = Ok k → d < length k + fuel) →
    ∃ y, clean fuel P w = Some y.
Proof.
  intros Hwf Hdeep.
  induction fuel as [|fuel IH]; intros P w Hsub HP Hpos Hbound; [lia|].
  apply clean_step_returns. intros files c' s0 Hrd Hin Hl Hat [Hsub0 Hcwd0].
  apply readdir_Ok in Hrd as (k & Hk & Hd & ->).
  apply FsFacts.elem_of_children in Hin as [n Hn].
  assert (proper c') as Hc'.
  { apply startsWith_at_proper; [done|].
    apply (lookup_weaken _ _ _ _ Hn), Hwf in Hsub.
    by apply Forall_app in Hsub as [_ [? _]%Forall_cons]. }
  pose proof (WalkFacts.realpath_child _ _ _ _ _ HP Hc' Hk Hd Hl) as Hk'.
  assert (length (k ++ [c']) ≤ d) as Hlen.
  { eapply Hdeep, lookup_weaken; [exact Hn|exact Hsub]. }
  rewrite length_app in Hlen. simpl in Hlen.
  specialize (Hbound k Hk).
  apply IH; [by etrans|apply (SettledFacts.join_settled [P] c' Hc')|lia|].
  intros k'' Hk''. rewrite Hcwd0 in Hk''.
  unfold Fs.realpath in Hk'', Hk'.
  destruct (Str.is_empty _); [done|].
  apply (FsFacts.walk_mono _ _ Hsub0) in Hk''.
  assert (k'' = k ++ [c']) as -> by congruence.
  rewrite length_app. simpl. lia.
Qed.

Lemma clean_returns (fs0 : FS) fuel p w :
  wf_names fs0 → w_fs w ⊆ fs0 → depth fs0 < fuel →
  ∃ y, clean fuel p w = Some y.
Proof.
  intros Hwf Hsub Hfuel. destruct fuel as [|fuel]; [lia|].
  apply clean_step_returns. intros files c s0 Hrd Hin Hl Hat [Hsub0 Hcwd0].
  apply readdir_Ok in Hrd as (k & Hk & Hd & ->).
  apply FsFacts.elem_of_children in Hin as [n Hn].
  assert (proper c) as Hc.
  { apply startsWith_at_proper; [done|].
    apply (lookup_weaken _ _ _ _ Hn), Hwf in Hsub.
    by apply Forall_app in Hsub as [_ [? _]%Forall_cons]. }
  pose proof (SettledFacts.join_settled [p] c Hc) as HP. simpl in HP.
  destruct (WalkFacts.settled_dir _ _ _ HP Hl) as (k0 & _ & Hk0 & Hn0 & Hne).
  assert (length k0 ≤ depth fs0) as Hlen.
  { eapply depth_le, lookup_weaken; [exact Hn0|exact Hsub]. }
  assert (0 < length k0) by (destruct k0; [done|simpl; lia]).
  apply (clean_returns_below fs0 (depth fs0)); [done| |by etrans|done|lia|].
  { intros k1 n1. apply depth_le. }
  intros k'' Hk''. rewrite Hcwd0 in Hk''.
  unfold Fs.realpath in Hk'', Hk0.
  destruct (Str.is_empty _); [done|].
  apply (FsFacts.walk_mono _ _ Hsub0) in Hk''.
  assert (k'' = k0) as -> by congruence. lia.
Qed.

(** X12.  [clean] returns, on every path and every file system whose
    entry names have no separator in them: its recursion goes into scope
    directories only, one level down at a time, so that its depth never
    exceeds the length of the longest canonical path. *)
Theorem clean_terminates fuel p w :
  wf_names (w_fs w) → depth (w_fs w) < fuel →
  ∃ w' r, clean fuel p w = Some (w', r).
Proof.
  intros Hwf Hfuel.
  destruct (clean_returns (w_fs w) fuel p w Hwf) as [[w' r] Hrun];
    [done|done|eauto].
Qed.

Lemma clean_terminates_witness :
  ∃ w' r, clean 7 "/ws/app/node_modules" scoped_install = Some (w', r).
Proof.
  apply clean_terminates.
  - apply (bool_decide_unpack _). vm_compute. exact I.
  - vm_compute. lia.
Defined.

(** ** The hooks return *)

Lemma world_names_shrink w w' :
  w_fs w' ⊆ w_fs w → w_cache w' = w_cache w → world_names w' ⊆ world_names w.
Proof.
  intros Hsub Hc n. rewrite !elem_of_world_names, Hc.
  intros [(k & m & Hk & Hn)|?]; [left|by right].
  exists k, m. split; [|done]. by eapply lookup_weaken.
Qed.

Lemma clean_names fuel p w w' r :
  clean fuel p w = Some (w', r) → world_names w' ⊆ world_names w.
Proof.
  intros (? & _ & _ & ? & _)%clean_keeps. by apply world_names_shrink.
Qed.

Lemma cleanHook_returns (fs0 : FS) fuel s w :
  wf_names fs0 → w_fs w ⊆ fs0 → depth fs0 < fuel →
  ∃ w' r, cleanHook fuel s w = Some (w', r) ∧
          world_names w' ⊆ world_names w.
Proof.
  intros Hwf Hsub Hfuel. unfold cleanHook.
  destruct (clean_returns fs0 fuel
              (Path.join [settings_path s; "node_modules"]) w Hwf Hsub Hfuel)
    as [[w1 r1] H1].
  rewrite H1. pose proof (clean_names _ _ _ _ _ H1) as N1.
  apply clean_keeps in H1 as (S1 & _).
  destruct r1 as [[]|]; [|eauto].
  destruct (getWorkspaceDependencies s w1) as [w2 r2] eqn:H2.
  pose proof (getWorkspaceDependencies_names _ _ _ _ H2) as N2.
  apply getWorkspaceDependencies_world in H2 as (F2 & _).
  destruct r2 as [ws|]; [|eexists _, _; split; [done|set_solver]].
  destruct (promise_all_returns
              (λ w0, w_fs w0 ⊆ fs0 ∧ world_names w0 ⊆ world_names w)
              (map (λ workspace,
                      clean fuel
                        (Path.join [workspacePath s; workspace;
                                    "node_modules"])) ws) w2)
    as (w3 & r3 & H3 & _ & N3).
  - intros t s0 (c & -> & _)%list_elem_of_fmap [Hs0 Hn0].
    destruct (clean_returns fs0 fuel
                (Path.join [workspacePath s; c; "node_modules"]) s0 Hwf Hs0
                Hfuel) as [[s1 r1] Hrun].
    exists s1, r1. split; [done|].
    pose proof (clean_names _ _ _ _ _ Hrun).
    apply clean_keeps in Hrun as (? & _).
    split; [by etrans|set_solver].
  - split; [rewrite F2; by etrans|set_solver].
  - rewrite H3. destruct r3; eauto.
Qed.

(** X13.  Every hook returns.  On a file system whose entry names have no
    separator in them, [package:cleanup], [package:initialize] and
    [deploy:function:initialize] come to an end, fulfilled or rejected,
    whatever [require.resolve] answers: the recursion of [clean] is no
    deeper than the longest canonical path, that of [linkPackage] no
    deeper than the number of dependency names. *)
Theorem hooks_terminate require_resolve fuel s h w :
  wf_names (w_fs w) → depth (w_fs w) < fuel → size (world_names w) < fuel →
  ∃ w' r, hooks require_resolve fuel s h w = Some (w', r).
Proof.
  intros Hwf Hdepth Hnames. destruct h; simpl.
  - destruct (cleanHook_returns (w_fs w) fuel s w) as (w' & r & Hrun & _);
      eauto.
  - by apply initialise_terminates_aux.
  - destruct (cleanHook_returns (w_fs w) fuel s w) as (w1 & r1 & Hrun & N1);
      [done..|].
    rewrite Hrun. destruct r1 as [[]|]; [|eauto].
    apply initialise_terminates_aux.
    eapply Nat.le_lt_trans; [|exact Hnames]. by apply subseteq_size.
Qed.

Lemma hooks_terminate_witness :
  ∃ w' r,
    hooks resolve_plain 5 pkgA deploy_function_initialize monorepo
    = Some (w', r).
Proof.
  apply hooks_terminate.
  - apply (bool_decide_unpack _). vm_compute. exact I.
  - vm_compute. lia.
  - vm_compute. lia.
Defined.

(** ** A link that is there is kept *)

Lemma mkdirs_again todo : ∀ (fs : FS) cur fs1,
  Fs.mkdirs fs cur todo = Ok fs1 →
  ∀ fs2 : FS, fs1 ⊆ fs2 → Fs.mkdirs fs2 cur todo = Ok fs2.
Proof.
  induction todo as [|s rest IH]; intros fs cur fs1 Hm fs2 Hsub; [done|].
  pose proof (mkdirs_extends _ _ _ _ Hm) as [Hfs _].
  simpl in Hm |- *. repeat case_decide; eauto.
  destruct (fs !! (cur ++ [s])) as [[c| |t]|] eqn:Hk.
  - by destruct rest.
  - rewrite (lookup_weaken _ _ _ _ Hk (transitivity Hfs Hsub)). eauto.
  - rewrite (lookup_weaken _ _ _ _ Hk (transitivity Hfs Hsub)).
    destruct (Fs.walk _ fs _ _) as [k|] eqn:Hw; [|done].
    rewrite (FsFacts.walk_mono _ _ (transitivity Hfs Hsub) _ _ _ _ Hw).
    destruct (Fs.is_dir fs k) eqn:Hd; [|done].
    rewrite (FsFacts.is_dir_mono _ _ _ (transitivity Hfs Hsub) Hd). eauto.
  - pose proof (mkdirs_extends _ _ _ _ Hm) as [Hins _].
    assert (fs2 !! (cur ++ [s]) = Some NDir) as ->.
    { eapply lookup_weaken; [|exact Hsub].
      eapply lookup_weaken; [|exact Hins]. by rewrite lookup_insert_eq. }
    eauto.
Qed.

(** X14.  A second [link] for a path keeps what the first has left,
    whatever its target: it changes nothing.  It fulfils, unless its target
    is the empty string, which [fs.symlink] refuses.  A link that is there
    is never pointed elsewhere. *)
Theorem link_keeps_what_is_there target f w w1 target' :
  link target f w = (w1, Ok ()) →
  link target' f w1
  = (w1, if Str.is_empty target' then Err ENOENT else Ok ()).
Proof.
  unfold link at 1.
  destruct (Fs.ensureDir (w_fs w) _ _) as [fs1|] eqn:Hd; [|done].
  unfold Fs.symlink at 1.
  destruct (Str.is_empty target); [by intros; simplify_eq/=|].
  destruct (Fs.lkey fs1 (w_cwd w) f) as [k|e] eqn:Hk.
  2:{ unfold link_catch. case_decide; [|done]. subst e.
      by destruct (lkey_Err _ _ _ _ Hk) as [?|[?|?]]. }
  assert (∀ fs2 : FS, fs1 ⊆ fs2 → (k = [] ∨ is_Some (fs2 !! k)) →
            link target' f (set_fs w fs2)
            = (set_fs w fs2,
               if Str.is_empty target' then Err ENOENT else Ok ())) as Hagain.
  { intros fs2 Hsub Hthere. unfold link. simpl.
    unfold Fs.ensureDir in *.
    destruct (Str.is_empty (Path.dirname f)); [done|].
    rewrite (mkdirs_again _ _ _ _ Hd fs2 Hsub).
    unfold Fs.symlink. destruct (Str.is_empty target'); [done|].
    rewrite (FsFacts.lkey_mono _ _ _ _ _ Hsub Hk).
    case_decide; [done|].
    destruct Hthere as [?|[n Hn]]; [done|]. by rewrite Hn. }
  case_decide as Hroot.
  { intros ?; simplify_eq. apply Hagain; [done|by left]. }
  destruct (fs1 !! k) as [n|] eqn:Hn.
  - intros ?; simplify_eq. apply Hagain; [done|by right].
  - intros ?; simplify_eq. apply Hagain; [by apply insert_subseteq|].
    right. by rewrite lookup_insert_eq.
Qed.

Lemma link_keeps_what_is_there_witness :
  link "elsewhere" "/d/sub/y" (link "../t" "/d/sub/y" tiny).1
  = ((link "../t" "/d/sub/y" tiny).1, Ok ()).
Proof.
  apply (link_keeps_what_is_there "../t" "/d/sub/y" tiny _ "elsewhere").
  apply pair_snd_eq. vm_compute. reflexivity.
Defined.

(** ** [clean] stays in its directory *)

Lemma wf_entries_subseteq (fs fs' : FS) :
  fs' ⊆ fs → wf_entries fs → wf_entries fs'.
Proof. intros Hsub Hwf k n Hk. eapply Hwf, lookup_weaken; done. Qed.

Lemma lost_below_refl kp w : lost_below kp w w.
Proof. split; [reflexivity|]. intros k n H1 H2. congruence. Qed.

Lemma lost_below_trans kp w0 w1 w2 :
  lost_below kp w0 w1 → lost_below kp w1 w2 → lost_below kp w0 w2.
Proof.
  intros [S1 L1] [S2 L2]. split; [by etrans|].
  intros k n H0 H2. destruct (w_fs w1 !! k) as [n1|] eqn:H1; eauto.
Qed.

Lemma lost_below_prefix kp kp' w w' :
  kp `prefix_of` kp' → lost_below kp' w w' → lost_below kp w w'.
Proof.
  intros Hp [S1 L1]. split; [done|]. intros k n H0 H1.
  etrans; [exact Hp|]. by eapply L1.
Qed.

Lemma lost_below_delete kp w k :
  kp `prefix_of` k → lost_below kp w (set_fs w (delete k (w_fs w))).
Proof.
  intros Hp. split; [split; [apply delete_subseteq|done]|].
  intros k0 n H0 H1. simpl in H1. rewrite lookup_delete in H1.
  case_decide; [by subst|congruence].
Qed.

(** Called on a settled path, [clean] removes nothing outside the
    directory the path leads to. *)
Lemma clean_below : ∀ fuel P w w' r,
  wf_entries (w_fs w) → settled P →
  clean fuel P w = Some (w', r) →
  w' = w ∨
  ∃ kp, Fs.realpath (w_fs w) (w_cwd w) P = Ok kp ∧ lost_below kp w w'.
Proof.
  induction fuel as [|fuel IH]; intros P w w' r Hwf HP; [done|].
  simpl. destruct (Fs.exists_ _ _ _); simpl; [|intros; simplify_eq; by left].
  destruct (Fs.readdir _ _ _) as [files|e] eqn:Hrd;
    [|intros; simplify_eq; by left].
  apply readdir_Ok in Hrd as (kp & Hkp & Hd & Hfiles).
  intros Hrun. right. exists kp. split; [done|]. revert Hrun.
  destruct (promise_all _ w) as [[w1 r1]|] eqn:Hls; [|done].
  apply lstat_all in Hls as [-> Hcontents].
  destruct r1 as [contents|e]; [|intros; simplify_eq; apply lost_below_refl].
  specialize (Hcontents _ eq_refl). rewrite Forall_forall in Hcontents.
  assert (∀ c, c ∈ contents → proper c.1) as Hproper.
  { intros c [Hin _]%Hcontents. rewrite Hfiles in Hin.
    apply FsFacts.elem_of_children in Hin as [n Hn]. apply Hwf in Hn.
    by apply Forall_app in Hn as [_ [? _]%Forall_cons]. }
  destruct (promise_all _ w) as [[w2 r2]|] eqn:Hul; [|done].
  assert (lost_below kp w w2) as Hinv2.
  { eapply (promise_all_preserves (lost_below kp w));
      [|exact Hul|apply lost_below_refl].
    intros t s0 s1 r0 (c & -> & Hc)%list_elem_of_fmap Ht Hs0.
    apply list_elem_of_filter in Hc as [_ Hc].
    destruct (Fs.unlink _ _ _) as [fs'|] eqn:Hu; simplify_eq; [|done].
    apply unlink_Ok in Hu as (k & n & Hk & _ & _ & _ & ->).
    pose proof Hs0 as [[Hsub Hcwd] Hlost]. rewrite Hcwd in Hk.
    apply (FsFacts.lkey_mono _ _ _ _ _ Hsub) in Hk.
    rewrite (WalkFacts.settled_child_key _ _ _ _ kp HP (Hproper _ Hc) Hkp Hd)
      in Hk.
    simplify_eq.
    eapply lost_below_trans; [exact Hs0|].
    apply lost_below_delete. by apply prefix_app_r. }
  destruct r2 as [?|e]; [|intros; simplify_eq; exact Hinv2].
  destruct (promise_all _ w2) as [[w3 r3]|] eqn:Hrec; [|done].
  assert (lost_below kp w w3) as Hinv3.
  { eapply (promise_all_preserves (lost_below kp w));
      [|exact Hrec|exact Hinv2].
    intros t s0 s1 r0 (c & -> & Hc)%list_elem_of_fmap Ht Hs0.
    apply list_elem_of_filter in Hc as [Hsc Hc].
    apply list_elem_of_filter in Hc as [_ Hc].
    pose proof (Hproper _ Hc) as Hc1.
    apply Hcontents in Hc as [_ Hl].
    assert (c.2 = NDir) as Hdir.
    { apply andb_prop_elim in Hsc as [Hdir _]. by destruct (c.2). }
    rewrite Hdir in Hl.
    pose proof Hs0 as [[Hsub Hcwd] _].
    destruct (IH _ _ _ _ (wf_entries_subseteq _ _ Hsub Hwf)
                (SettledFacts.join_settled [P] c.1 Hc1) Ht)
      as [->|(k' & Hk' & Hlost)]; [done|].
    eapply lost_below_trans; [exact Hs0|].
    eapply lost_below_prefix; [|exact Hlost].
    cbn [app] in Hk'. rewrite Hcwd in Hk'. unfold Fs.realpath in Hk'.
    destruct (Str.is_empty (Path.join [P; c.1])) eqn:He; [done|].
    apply (FsFacts.walk_mono _ _ Hsub) in Hk'.
    pose proof (WalkFacts.realpath_child _ _ _ _ _ HP Hc1 Hkp Hd Hl) as Hk''.
    unfold Fs.realpath in Hk''. simpl in He. rewrite He in Hk''.
    assert (k' = kp ++ [c.1]) as -> by (simpl in *; congruence).
    by apply prefix_app_r. }
  destruct r3 as [?|e]; [|intros; simplify_eq; exact Hinv3].
  destruct (filter (λ c, ¬ isScopedPkgDir c) _);
    [|intros; simplify_eq; exact Hinv3].
  destruct (Fs.rmdir _ _ _) as [fs'|e] eqn:Hrm; intros; simplify_eq; [|done].
  apply rmdir_Ok in Hrm as (k & Hk & Hn & _ & ->).
  eapply lost_below_trans; [exact Hinv3|]. apply lost_below_delete.
  destruct Hinv3 as [[Hsub Hcwd] _]. rewrite Hcwd in Hk.
  apply (FsFacts.lkey_mono _ _ _ _ _ Hsub) in Hk.
  apply (lookup_weaken _ _ _ _ Hn) in Hsub.
  destruct (WalkFacts.settled_dir (w_fs w) (w_cwd w) P HP)
    as (k' & Hk1 & Hk2 & _).
  { unfold Fs.lstat. rewrite Hk, Hsub. case_decide; [|done].
    subst k. unfold Fs.rmdir in *. done. }
  assert (k' = k) as -> by congruence.
  assert (k = kp) as -> by congruence. done.
Qed.

(** X15.  Cleanup stays in its directories.  On a file system whose entry
    names are proper names, every entry the [clean] hook removes lies in
    one of the directories the hook calls [clean] on in that run: the
    [node_modules] of the target, or the [node_modules] of a workspace that
    [getWorkspaceDependencies] has returned to the hook. *)
Theorem cleanup_stays_in_node_modules fuel s w w' r :
  wf_entries (w_fs w) →
  cleanHook fuel s w = Some (w', r) →
  ∀ k n, w_fs w !! k = Some n → w_fs w' !! k = None →
    ∃ p kp, cleaned_path fuel s w p ∧
            Fs.realpath (w_fs w) (w_cwd w) p = Ok kp ∧ kp `prefix_of` k.
Proof.
  intros Hwf.
  set (J := λ w0 : World,
         shrinks w w0 ∧
         ∀ k n, w_fs w !! k = Some n → w_fs w0 !! k = None →
           ∃ p kp, cleaned_path fuel s w p ∧
                   Fs.realpath (w_fs w) (w_cwd w) p = Ok kp ∧
                   kp `prefix_of` k).
  assert (∀ p s0 s1 r0, cleaned_path fuel s w p → J s0 →
            clean fuel p s0 = Some (s1, r0) → J s1) as Hstep.
  { intros p s0 s1 r0 Hp [[Hsub Hcwd] Hlost] Hrun.
    assert (settled p) as HP.
    { destruct Hp as [->|(? & ? & ? & ws & _ & _ & _ & ->)].
      - apply (SettledFacts.join_settled [settings_path s] "node_modules").
        apply (bool_decide_unpack _). vm_compute. exact I.
      - apply (SettledFacts.join_settled [workspacePath s; ws]
                 "node_modules").
        apply (bool_decide_unpack _). vm_compute. exact I. }
    destruct (clean_below _ _ _ _ _ (wf_entries_subseteq _ _ Hsub Hwf) HP Hrun)
      as [->|(kp & Hkp & [[Hsub1 Hcwd1] Hlost1])].
    { split; [by split|exact Hlost]. }
    split; [split; [by etrans|congruence]|].
    intros k n H0 H1. destruct (w_fs s0 !! k) as [n0|] eqn:Hk0.
    2:{ exact (Hlost k n H0 Hk0). }
    exists p, kp. split; [exact Hp|]. split; [|exact (Hlost1 k n0 Hk0 H1)].
    rewrite Hcwd in Hkp. unfold Fs.realpath in Hkp |- *.
    destruct (Str.is_empty p); [done|].
    exact (FsFacts.walk_mono _ _ Hsub _ _ _ _ Hkp). }
  unfold cleanHook.
  destruct (clean fuel _ w) as [[w1 r1]|] eqn:H1; [|done].
  assert (J w1) as J1.
  { eapply Hstep; [by left| |exact H1]. split; [reflexivity|].
    intros k n Ha Hb. congruence. }
  destruct r1 as [[]|]; [|intros [= <- <-]; exact (proj2 J1)].
  destruct (getWorkspaceDependencies s w1) as [w2 r2] eqn:H2.
  pose proof (getWorkspaceDependencies_world _ _ _ _ H2) as (F2 & C2 & _).
  assert (J w2) as J2.
  { destruct J1 as [[? ?] Hlost].
    split; [split; [by rewrite F2|by rewrite C2]|].
    rewrite F2. exact Hlost. }
  destruct r2 as [ws|]; [|intros [= <- <-]; exact (proj2 J2)].
  destruct (promise_all _ w2) as [[w3 r3]|] eqn:H3; [|done].
  assert (J w3) as J3.
  { eapply (promise_all_preserves J); [|exact H3|exact J2].
    intros t s0 s1 r0 (c & -> & Hin)%list_elem_of_fmap Ht Hs0.
    eapply Hstep; [|exact Hs0|exact Ht]. right.
    exists w1, w2, ws, c. split_and!; [exact H1|exact H2|exact Hin|done]. }
  destruct r3; intros [= <- <-]; exact (proj2 J3).
Qed.

Lemma cleanup_stays_in_node_modules_witness :
  ∃ p kp, cleaned_path 3 pkgA monorepo_linked p ∧
          Fs.realpath (w_fs monorepo_linked) (w_cwd monorepo_linked) p
            = Ok kp ∧
          kp `prefix_of` ["ws"; "pkgB"; "node_modules"; "lodash"].
Proof.
  apply (cleanup_stays_in_node_modules 3 pkgA monorepo_linked
           (state_after monorepo_linked (cleanHook 3 pkgA monorepo_linked))
           (Ok ()) ltac:(apply (bool_decide_unpack _);
                         vm_compute; exact I)
           ltac:(apply run_result_eq; vm_compute; reflexivity)
           ["ws"; "pkgB"; "node_modules"; "lodash"]
           (NLink "../../node_modules/lodash")).
  - vm_compute. reflexivity.
  - vm_compute. reflexivity.
Defined.

(** ** A setup that succeeds has made its links *)

Lemma calls_made_pass require_resolve fuel p t0 w w' :
  calls_made t0 w →
  processLinkages require_resolve fuel p w = Some (w', Ok ()) →
  calls_made t0 w'.
Proof.
  intros (added & Ht & Hall) Hrun.
  pose proof (processLinkages_cwd _ _ _ _ _ _ Hrun) as Hcwd.
  pose proof (processLinkages_extends _ _ _ _ _ _ Hrun) as [Hsub _].
  apply processLinkages_made in Hrun as (c & added' & Ht' & Hall').
  simpl in *. exists (added ++ added'). split.
  - by rewrite Ht', Ht, (assoc_L (++)).
  - apply Forall_app. split; [|done].
    eapply Forall_impl; [exact Hall|]. intros x [n Hn]. exists n.
    rewrite Hcwd. by eapply lstat_mono.
Qed.

Lemma calls_made_same t0 w w' :
  calls_made t0 w → w_fs w' = w_fs w → w_cwd w' = w_cwd w →
  w_trace w' = w_trace w → calls_made t0 w'.
Proof.
  intros (added & Ht & Hall) Hfs Hcwd Htr. exists added.
  by rewrite Hfs, Hcwd, Htr.
Qed.

(** X16.  A setup that fulfils has made every link it asked for: after
    [initialise], at the path of every call of [link] made in any of its
    passes, there is an entry. *)
Theorem setup_makes_its_links require_resolve fuel s w w' :
  initialise require_resolve fuel s w = Some (w', Ok ()) →
  ∃ added,
    w_trace w' = w_trace w ++ added ∧
    Forall (λ x, ∃ n, Fs.lstat (w_fs w') (w_cwd w') (lc_file x) = Ok n) added.
Proof.
  unfold initialise.
  destruct (require w _) as [w1 [target|]] eqn:H1; [|done].
  apply require_world in H1 as (F1 & C1 & T1 & _).
  destruct (require w1 _) as [w2 [root|]] eqn:H2; [|done].
  apply require_world in H2 as (F2 & C2 & T2 & _).
  destruct (getWorkspaceDependencies s w2) as [w3 [relevant|]] eqn:H3; [|done].
  apply getWorkspaceDependencies_world in H3 as (F3 & C3 & T3).
  assert (calls_made (w_trace w) w3) as H03.
  { apply (calls_made_same _ w); [|congruence..].
    exists []. by rewrite (right_id_L [] (++)). }
  destruct (promise_all _ w3) as [[w4 [l|]]|] eqn:Hall; [|done..].
  intros Hrun.
  eapply calls_made_pass; [|exact Hrun].
  eapply (promise_all_ok_preserves (calls_made (w_trace w)));
    [|exact Hall|exact H03].
  intros t s0 s1 [] (ws & -> & _)%list_elem_of_fmap Ht Hs0.
  by eapply calls_made_pass.
Qed.

Lemma setup_makes_its_links_witness :
  ∃ added,
    w_trace shadowed_once = w_trace shadowed ++ added ∧
    Forall (λ x, ∃ n, Fs.lstat (w_fs shadowed_once) (w_cwd shadowed_once)
                        (lc_file x) = Ok n) added.
Proof.
  apply (setup_makes_its_links resolve_never 4 app_pkg shadowed shadowed_once).
  apply run_result_eq. vm_compute. reflexivity.
Defined.

(** ** The directory [clean] decides to remove *)

(** X17.  When everything [clean] lists in a directory is a symbolic link
    or a scope directory, it goes on to remove the directory, whatever the
    scope directories still hold: it fulfils only if nothing is left in the
    directory, and rejects when an entry is left there, such as a scope
    directory with a package installed in place. *)
Theorem clean_rejects_unless_emptied fuel p w w' r files k f :
  clean fuel p w = Some (w', r) →
  Fs.readdir (w_fs w) (w_cwd w) p = Ok files →
  (∀ f, f ∈ files →
        (∃ t, Fs.lstat (w_fs w) (w_cwd w) (Path.join [p; f]) = Ok (NLink t)) ∨
        (Fs.lstat (w_fs w) (w_cwd w) (Path.join [p; f]) = Ok NDir ∧
         Str.startsWith "@" f = true)) →
  Fs.lkey (w_fs w) (w_cwd w) p = Ok k →
  is_Some (w_fs w' !! (k ++ [f])) →
  ∃ e, r = Err e.
Proof.
  intros Hrun Hrd Hlinks Hk Hleft. destruct r as [[]|e]; [|by eauto].
  exfalso. destruct fuel as [|fuel]; [done|].
  revert Hrun. simpl. rewrite Hrd.
  destruct (Fs.exists_ _ _ _) eqn:Hex; simpl.
  2:{ unfold Fs.readdir, Fs.exists_ in *.
      destruct (Fs.realpath _ _ _); done. }
  destruct (promise_all _ w) as [[w1 r1]|] eqn:Hls; [|done].
  destruct r1 as [contents|e]; [|done].
  apply lstat_all in Hls as [-> Hcontents].
  specialize (Hcontents _ eq_refl). rewrite Forall_forall in Hcontents.
  assert (filter (λ c : string * Node, ¬ isScopedPkgDir c)
            (filter (λ c : string * Node, ¬ is_symlink c.2) contents) = [])
    as Hnone.
  { apply elem_of_nil_inv. intros c [Hsc Hc]%list_elem_of_filter.
    apply list_elem_of_filter in Hc as [Hc Hin].
    destruct (Hcontents _ Hin) as [Hf Hn].
    destruct (Hlinks _ Hf) as [[t Ht]|[Ht Hat]]; rewrite Ht in Hn;
      injection Hn as Hn.
    - rewrite <-Hn in Hc. by apply Hc.
    - apply Hsc. unfold isScopedPkgDir. by rewrite <-Hn, Hat. }
  destruct (promise_all _ w) as [[w2 r2]|] eqn:Hul; [|done].
  assert (shrinks w w2) as Hs2.
  { eapply (promise_all_preserves (shrinks w)); [|exact Hul|reflexivity].
    intros t0 s0 s1 r0 (c & -> & _)%list_elem_of_fmap Ht Hs0.
    etrans; [exact Hs0|]. by eapply unlink_task_shrinks. }
  destruct r2 as [l2|e]; [|done].
  destruct (promise_all _ w2) as [[w3 r3]|] eqn:Hrec; [|done].
  assert (shrinks w w3) as [Hsub Hcwd].
  { eapply (promise_all_preserves (shrinks w)); [|exact Hrec|exact Hs2].
    intros t0 s0 s1 r0 (c & -> & _)%list_elem_of_fmap Ht Hs0.
    etrans; [exact Hs0|]. by eapply keeps_shrinks, clean_keeps. }
  destruct r3 as [l3|e]; [|done]. rewrite Hnone.
  destruct (Fs.rmdir _ _ _) as [fs'|e] eqn:Hrm; [|done].
  intros ?; simplify_eq. simpl in Hleft.
  apply rmdir_Ok in Hrm as (k0 & Hk0 & _ & Hch & ->).
  rewrite Hcwd in Hk0. apply (FsFacts.lkey_mono _ _ _ _ _ Hsub) in Hk0.
  assert (k0 = k) as -> by congruence.
  rewrite FsFacts.children_nil in Hch.
  destruct Hleft as [n Hn]. apply lookup_delete_Some in Hn as [_ Hn].
  by rewrite Hch in Hn.
Qed.

Lemma clean_rejects_unless_emptied_witness :
  ∃ e, result_of (clean 3 "/ws/app/node_modules" scoped_install)
       = Some (Err e).
Proof.
  destruct (clean_rejects_unless_emptied 3 "/ws/app/node_modules"
              scoped_install
              (state_after scoped_install
                 (clean 3 "/ws/app/node_modules" scoped_install))
              (Err ENOTEMPTY) ["x"; "@s"] ["ws"; "app"; "node_modules"] "@s")
    as [e He].
  - apply run_result_eq. vm_compute. reflexivity.
  - vm_compute. reflexivity.
  - intros f Hf.
    apply elem_of_cons in Hf as [->|Hf].
    { left. exists "../../node_modules/x". vm_compute. reflexivity. }
    apply elem_of_cons in Hf as [->|Hf]; [|by apply elem_of_nil in Hf].
    right. split; vm_compute; reflexivity.
  - vm_compute. reflexivity.
  - apply (bool_decide_unpack _). vm_compute. exact I.
  - exists e. injection He as <-. vm_compute. reflexivity.
Defined.

(** * Whole runs

    What follows speaks of a whole pass or a whole run of a hook, and rests
    on the lemmas above. *)

(** ** One link per name in a pass *)

Lemma processLinkages_fuel_result require_resolve fuel extra p w w' r :
  processLinkages require_resolve fuel p w = Some (w', r) →
  processLinkages require_resolve (fuel + extra) p w = Some (w', r).
Proof. apply processLinkages_fuel_mono. lia. Qed.

(** C2.  The calls of [link] one pass adds to the record have distinct
    names, and each is for the path of its name under the [node_modules] of
    the pass: at most one link per destination and name; when the pass
    fulfils, there is an entry on disk at the path of each.  This is so
    because a name in [created] is never linked again, and a name that is
    linked is in [created] from before [link] runs, even when [link]
    fails.  For the diamond A→B, A→C, B→D, C→D the pass on [app] fulfils;
    [link] is called once for each of [A], [B], [C] and [D], so once for
    [D], in whatever order; the links on disk afterwards are these four,
    the one for [D] among them. *)
Theorem one_link_per_name :
  (∀ require_resolve fuel p w w' r,
      processLinkages require_resolve fuel p w = Some (w', r) →
      ∃ added,
        w_trace w' = w_trace w ++ added ∧
        NoDup (lc_name <$> added) ∧
        Forall (λ x, lc_file x
                     = Path.join [Path.join [p; "node_modules"]; lc_name x])
               added ∧
        (r = Ok () →
         Forall (λ x, ∃ n, Fs.lstat (w_fs w') (w_cwd w') (lc_file x) = Ok n)
                added)) ∧
  (∀ name toPath pkg w created,
      name ∈ created →
      create_link name toPath pkg (w, created) = ((w, created), Ok ())) ∧
  (∀ name toPath pkg w created st1 r,
      create_link name toPath pkg (w, created) = (st1, r) →
      w_trace st1.1 ≠ w_trace w → (name ∉ created) ∧ name ∈ st1.2) ∧
  (∀ require_resolve extra,
      require_resolve = resolve_never ∨ require_resolve = resolve_plain →
      ∃ w',
        processLinkages require_resolve (4 + extra) "/ws/app" diamond
          = Some (w', Ok ()) ∧
        lc_name <$> w_trace w' ≡ₚ ["A"; "B"; "C"; "D"] ∧
        length (filter (λ x, lc_name x = "D") (w_trace w')) = 1 ∧
        Fs.lstat (w_fs w') (w_cwd w') "/ws/app/node_modules/D"
          = Ok (NLink "../../node_modules/D") ∧
        symlinks w'
          = [(["ws"; "app"; "node_modules"; "D"], "../../node_modules/D");
             (["ws"; "app"; "node_modules"; "C"], "../../node_modules/C");
             (["ws"; "app"; "node_modules"; "B"], "../../node_modules/B");
             (["ws"; "app"; "node_modules"; "A"], "../../node_modules/A")]).
Proof.
  split_and!.
  - intros require_resolve fuel p w w' r Hrun.
    destruct (processLinkages_preserves require_resolve
                (pass_invariant (Path.join [p; "node_modules"]) (w_trace w))
                fuel p w w' r) as [c (added & Ht & Hnd & Hall)];
      [| |exact Hrun| |].
    + intros name pkg st st1 r0. apply pass_invariant_create.
    + intros w0 c file w1 r0. apply pass_invariant_require.
    + exists []. simpl. rewrite (right_id_L [] (++)).
      split_and!; [done|constructor|constructor].
    + exists added. split_and!; [done..| |].
      * eapply Forall_impl; [exact Hall|]. by intros x (_ & ? & _).
      * intros ->.
        destruct (processLinkages_made _ _ _ _ _ Hrun)
          as [c' (added' & Ht' & Hmade)].
        simpl in Ht, Ht'. rewrite Ht in Ht'. apply app_inv_head in Ht'.
        by subst added'.
  - intros name toPath pkg w created Hin. unfold create_link.
    rewrite (bool_decide_eq_false_2 (name ∉ created)) by auto.
    by rewrite andb_false_r.
  - intros name toPath pkg w created st1 r
      [(-> & _)|(w1 & call & -> & _ & Hc & _)]%create_link_cases Htr;
      [done|]. split; [done|]. simpl. set_solver.
  - intros require_resolve extra Hrr.
    exists (state_after diamond
              (processLinkages require_resolve 4 "/ws/app" diamond)).
    assert (∀ l : list string, l = ["A"; "B"; "D"; "C"] →
                               l ≡ₚ ["A"; "B"; "C"; "D"]) as Hperm.
    { intros l ->. do 2 constructor. apply perm_swap. }
    destruct Hrr as [-> | ->]; (split_and!;
      [apply processLinkages_fuel_result, run_result_eq; vm_compute;
       reflexivity
      |apply Hperm; vm_compute; reflexivity
      |vm_compute; reflexivity..]).
Qed.

Lemma one_link_per_name_witness :
  (∃ added,
      w_trace diamond_linked = w_trace diamond ++ added ∧
      NoDup (lc_name <$> added) ∧
      Forall (λ x, lc_file x
                   = Path.join [Path.join ["/ws/app"; "node_modules"];
                                lc_name x]) added ∧
      Forall (λ x, ∃ n, Fs.lstat (w_fs diamond_linked) (w_cwd diamond_linked)
                          (lc_file x) = Ok n) added) ∧
  create_link "D" "/ws/app/node_modules" "/ws/node_modules/D/package.json"
    (diamond, {["D"]}) = ((diamond, {["D"]}), Ok ()) ∧
  ∃ w',
    processLinkages resolve_never (4 + 0) "/ws/app" diamond
      = Some (w', Ok ()) ∧
    Fs.lstat (w_fs w') (w_cwd w') "/ws/app/node_modules/D"
      = Ok (NLink "../../node_modules/D").
Proof.
  pose proof one_link_per_name as (H1 & H2 & _ & H4).
  split_and!.
  - destruct (H1 resolve_never 4 "/ws/app" diamond diamond_linked (Ok ()))
      as (added & Ht & Hnd & Hfile & Hdisk).
    { apply run_result_eq. vm_compute. reflexivity. }
    exists added. split_and!; [exact Ht|exact Hnd|exact Hfile|].
    apply Hdisk. reflexivity.
  - apply (H2 "D" "/ws/app/node_modules" "/ws/node_modules/D/package.json"
             diamond {["D"]}).
    apply (bool_decide_unpack _). vm_compute. exact I.
  - destruct (H4 resolve_never 0) as (w' & Hrun & _ & _ & Hd & _);
      [by left|].
    exists w'. split; [exact Hrun|exact Hd].
Defined.

(** ** A dependency nothing locates *)






Section Doomed.

Variable require_resolve : World → string → list string → option string.






End Doomed.











(** ** The module cache

    The path walk, and with it every operation of the file system, sees
    the kinds of the entries and the targets of the links, not the content
    of the files. *)

Module ShapeFacts.

Lemma walk_shape (fs : FS) : ∀ n cur todo,
  Fs.walk n (shape <$> fs) cur todo = Fs.walk n fs cur todo.
Proof.
  induction n as [|n IHn]; intros cur todo; revert cur;
    (induction todo as [|s rest IH]; intros cur;
     [by rewrite !FsFacts.walk_nil|]);
    rewrite !FsFacts.walk_cons, lookup_fmap; repeat case_decide; eauto;
    destruct (fs !! (cur ++ [s])) as [[c| |t]|]; simpl; eauto.
  destruct (Str.is_empty t); eauto.
Qed.

Lemma is_dir_shape (fs : FS) k : Fs.is_dir (shape <$> fs) k = Fs.is_dir fs k.
Proof.
  unfold Fs.is_dir. f_equal. apply bool_decide_ext. rewrite lookup_fmap.
  destruct (fs !! k) as [[c| |t]|]; simpl; naive_solver.
Qed.

Lemma lkey_shape (fs : FS) cwd p :
  Fs.lkey (shape <$> fs) cwd p = Fs.lkey fs cwd p.
Proof.
  unfold Fs.lkey. destruct (Str.is_empty p); [done|].
  destruct (Fs.unsnoc _) as [[parent name]|]; [|done].
  rewrite !walk_shape. case_decide; [done|].
  destruct (Fs.walk _ _ _ _) as [k|]; [|done]. by rewrite is_dir_shape.
Qed.

Lemma realpath_shape (fs : FS) cwd p :
  Fs.realpath (shape <$> fs) cwd p = Fs.realpath fs cwd p.
Proof. unfold Fs.realpath. by rewrite walk_shape. Qed.

Lemma exists_shape (fs : FS) cwd p :
  Fs.exists_ (shape <$> fs) cwd p = Fs.exists_ fs cwd p.
Proof. unfold Fs.exists_. by rewrite realpath_shape. Qed.

Lemma children_shape (fs : FS) k :
  Fs.children (shape <$> fs) k = Fs.children fs k.
Proof.
  unfold Fs.children. rewrite map_to_list_fmap.
  induction (map_to_list fs) as [|[k' n] l IH]; csimpl; [done|].
  destruct (Fs.child_of k k'); csimpl; by rewrite IH.
Qed.

Lemma readdir_shape (fs : FS) cwd p :
  Fs.readdir (shape <$> fs) cwd p = Fs.readdir fs cwd p.
Proof.
  unfold Fs.readdir. rewrite realpath_shape.
  destruct (Fs.realpath _ _ _) as [k|]; [|done].
  by rewrite is_dir_shape, children_shape.
Qed.

Lemma lstat_shape (fs : FS) cwd p :
  Fs.lstat (shape <$> fs) cwd p = res_map shape (Fs.lstat fs cwd p).
Proof.
  unfold Fs.lstat. rewrite lkey_shape.
  destruct (Fs.lkey _ _ _) as [k|]; [|done]. case_decide; [done|].
  rewrite lookup_fmap. by destruct (fs !! k).
Qed.

Lemma unlink_shape (fs : FS) cwd p :
  Fs.unlink (shape <$> fs) cwd p = res_map (fmap shape) (Fs.unlink fs cwd p).
Proof.
  unfold Fs.unlink. rewrite lkey_shape.
  destruct (Fs.lkey _ _ _) as [k|]; [|done]. case_decide; [done|].
  rewrite lookup_fmap.
  destruct (fs !! k) as [[c| |t]|]; simpl; by rewrite ?fmap_delete.
Qed.

Lemma rmdir_shape (fs : FS) cwd p :
  Fs.rmdir (shape <$> fs) cwd p = res_map (fmap shape) (Fs.rmdir fs cwd p).
Proof.
  unfold Fs.rmdir. rewrite lkey_shape.
  destruct (Fs.lkey _ _ _) as [k|]; [|done]. case_decide; [done|].
  rewrite lookup_fmap, children_shape.
  destruct (fs !! k) as [[c| |t]|]; simpl; try done.
  destruct (Fs.children fs k); simpl; by rewrite ?fmap_delete.
Qed.

Lemma symlink_shape (fs : FS) cwd target p :
  Fs.symlink (shape <$> fs) cwd target p
  = res_map (fmap shape) (Fs.symlink fs cwd target p).
Proof.
  unfold Fs.symlink. destruct (Str.is_empty target); [done|].
  rewrite lkey_shape.
  destruct (Fs.lkey _ _ _) as [k|]; [|done]. case_decide; [done|].
  rewrite lookup_fmap.
  destruct (fs !! k) as [n|]; simpl; by rewrite ?fmap_insert.
Qed.

Lemma mkdirs_shape todo : ∀ (fs : FS) cur,
  Fs.mkdirs (shape <$> fs) cur todo = res_map (fmap shape) (Fs.mkdirs fs cur todo).
Proof.
  induction todo as [|s rest IH]; intros fs cur; simpl; [done|].
  repeat case_decide; eauto.
  rewrite lookup_fmap, walk_shape.
  destruct (fs !! (cur ++ [s])) as [[c| |t]|]; simpl; eauto.
  - by destruct rest.
  - destruct (Fs.walk _ _ _ _) as [k|]; [|done].
    rewrite is_dir_shape. destruct (Fs.is_dir fs k); eauto.
  - rewrite <-IH. by rewrite fmap_insert.
Qed.

Lemma ensureDir_shape (fs : FS) cwd p :
  Fs.ensureDir (shape <$> fs) cwd p = res_map (fmap shape) (Fs.ensureDir fs cwd p).
Proof.
  unfold Fs.ensureDir. destruct (Str.is_empty p); [done|]. apply mkdirs_shape.
Qed.

End ShapeFacts.

(** Two worlds that differ only in files the cache holds: every step of
    the plugin does the same in both. *)

Section Rewritten.
Import ShapeFacts.

Lemma rewritten_refl w : rewritten w w.
Proof. by split_and!. Qed.

Lemma same_shape_lookup (fs fsA : FS) k :
  shape <$> fsA = shape <$> fs → shape <$> (fsA !! k) = shape <$> (fs !! k).
Proof. intros H. by rewrite <-!lookup_fmap, H. Qed.

(** Results of an operation on two file systems of the same shape. *)
Lemma same_shape_res (r rA : res FS) :
  res_map (fmap shape) rA = res_map (fmap shape) r →
  match r, rA with
  | Ok fs, Ok fsA => shape <$> fsA = shape <$> fs
  | Err e, Err eA => eA = e
  | _, _ => False
  end.
Proof. destruct r, rA; simpl; intros; by simplify_eq. Qed.

Lemma rewritten_grow (w wA : World) (fs' fsA' : FS) :
  rewritten w wA → fs_extends (w_fs w) fs' → fs_extends (w_fs wA) fsA' →
  shape <$> fsA' = shape <$> fs' →
  rewritten (set_fs w fs') (set_fs wA fsA').
Proof.
  intros (Hcwd & Hc & Ht & Hs & Ha) [_ Hf] [HsubA _] Hs'.
  split_and!; [done..|]. simpl. intros k c Hk Hfile.
  eapply lookup_weaken; [|exact HsubA]. eauto.
Qed.

Lemma rewritten_delete w wA k :
  rewritten w wA →
  rewritten (set_fs w (delete k (w_fs w))) (set_fs wA (delete k (w_fs wA))).
Proof.
  intros (Hcwd & Hc & Ht & Hs & Ha).
  split_and!; [done..| |]; simpl.
  - by rewrite !fmap_delete, Hs.
  - intros k' c Hk'. rewrite !lookup_delete_Some. intros [? ?]. eauto.
Qed.

Lemma rewritten_record w wA c :
  rewritten w wA → rewritten (record_link w c) (record_link wA c).
Proof.
  intros (Hcwd & Hc & Ht & Hs & Ha). split_and!; simpl; [done..| |done|done].
  by rewrite Ht.
Qed.

Lemma link_rel target f w wA :
  rewritten w wA →
  ∃ w' wA' r,
    link target f w = (w', r) ∧ link target f wA = (wA', r) ∧
    rewritten w' wA'.
Proof.
  intros Hr. pose proof Hr as (Hcwd & Hc & Ht & Hs & Ha).
  unfold link. rewrite Hcwd.
  pose proof (ensureDir_shape (w_fs wA) (w_cwd w) (Path.dirname f)) as E.
  rewrite Hs, ensureDir_shape in E. symmetry in E.
  apply same_shape_res in E.
  destruct (Fs.ensureDir (w_fs w) _ _) as [fs1|e] eqn:Hd,
           (Fs.ensureDir (w_fs wA) _ _) as [fs1A|eA] eqn:HdA; try done.
  2:{ subst eA. by eexists _, _, _. }
  apply ensureDir_extends in Hd, HdA.
  pose proof (symlink_shape fs1A (w_cwd w) target f) as E'.
  rewrite E, symlink_shape in E'. symmetry in E'.
  apply same_shape_res in E'.
  destruct (Fs.symlink fs1 _ _ _) as [fs2|e] eqn:Hl,
           (Fs.symlink fs1A _ _ _) as [fs2A|eA] eqn:HlA; try done.
  - apply symlink_extends in Hl, HlA.
    eexists _, _, _. split_and!; [done..|].
    apply rewritten_grow; eauto using fs_extends_trans.
  - subst eA. eexists _, _, _. split_and!; [done..|].
    by apply rewritten_grow.
Qed.

Lemma require_rel file w wA :
  rewritten w wA →
  ∃ w' wA' r,
    require w file = (w', r) ∧ require wA file = (wA', r) ∧
    rewritten w' wA'.
Proof.
  intros Hr. pose proof Hr as (Hcwd & Hc & Ht & Hs & Ha).
  unfold require. destruct (negb (Path.isAbsolute file)); [by eexists _, _, _|].
  rewrite Hcwd, Hc, <-(realpath_shape (w_fs wA)), Hs, realpath_shape.
  destruct (Fs.realpath _ _ _) as [k|]; [|by eexists _, _, _].
  destruct (w_cache w !! k) as [m|] eqn:Hk; [by eexists _, _, _|].
  pose proof (same_shape_lookup _ _ k Hs) as Hsk.
  destruct (w_fs w !! k) as [[[m|]| |t]|] eqn:Hf.
  - rewrite (Ha _ _ Hk Hf). eexists _, _, _. split_and!; [done..|].
    split_and!; simpl; [done|by rewrite Hc|done..|].
    intros k' c. rewrite lookup_insert_None. intros [? _]. eauto.
  - rewrite (Ha _ _ Hk Hf). by eexists _, _, _.
  - destruct (w_fs wA !! k) as [[c| |t]|]; simplify_eq/=. by eexists _, _, _.
  - destruct (w_fs wA !! k) as [[c| |t']|]; simplify_eq/=. by eexists _, _, _.
  - destruct (w_fs wA !! k) as [[c| |t']|]; simplify_eq/=. by eexists _, _, _.
Qed.

Lemma getWorkspaceDependencies_rel s w wA :
  rewritten w wA →
  ∃ w' wA' r,
    getWorkspaceDependencies s w = (w', r) ∧
    getWorkspaceDependencies s wA = (wA', r) ∧ rewritten w' wA'.
Proof.
  intros Hr. unfold getWorkspaceDependencies.
  destruct (require_rel (Path.join [settings_path s; "package.json"]) _ _ Hr)
    as (w1 & w1A & r1 & -> & -> & Hr1).
  destruct r1 as [target|e]; [|by eexists _, _, _].
  destruct (require_rel (Path.join [workspacePath s; "package.json"]) _ _ Hr1)
    as (w2 & w2A & r2 & -> & -> & Hr2).
  destruct r2 as [root|e]; by eexists _, _, _.
Qed.

Lemma promise_all_rel {S A X} (R : S → S → Prop) (f : X → Task S A) l :
  (∀ x s sA, x ∈ l → R s sA → out_rel R (f x s) (f x sA)) →
  ∀ s sA, R s sA →
    out_rel R (promise_all (map f l) s) (promise_all (map f l) sA).
Proof.
  induction l as [|x l IH]; intros Hf s sA Hs; simpl; [done|].
  pose proof (Hf x s sA ltac:(by left) Hs) as Hx.
  destruct (f x s) as [[s1 r1]|], (f x sA) as [[s1A r1A]|]; try done.
  destruct Hx as [-> Hs1].
  assert (out_rel R (promise_all (map f l) s1) (promise_all (map f l) s1A))
    as Hl.
  { apply IH; [|done]. intros y s0 s0A Hy. apply Hf. by right. }
  destruct (promise_all _ s1) as [[s2 r2]|],
           (promise_all _ s1A) as [[s2A r2A]|]; try done.
  destruct Hl as [-> Hs2]. done.
Qed.

End Rewritten.

Section RewrittenLinking.
Import ShapeFacts.

Variable require_resolve : World → string → list string → option string.

Hypothesis resolve_blind : ∀ w wA request paths,
  rewritten w wA →
  require_resolve wA request paths = require_resolve w request paths.

Lemma scan_paths_rel name paths w wA :
  rewritten w wA → scan_paths wA name paths = scan_paths w name paths.
Proof.
  intros (Hcwd & _ & _ & Hs & _).
  induction paths as [|pth rest IH]; simpl; [done|].
  by rewrite Hcwd, <-(exists_shape (w_fs wA)), Hs, exists_shape, IH.
Qed.

Lemma locate_rel name paths w wA :
  rewritten w wA →
  locate require_resolve wA name paths = locate require_resolve w name paths.
Proof.
  intros Hr. unfold locate.
  by rewrite (resolve_blind _ _ _ _ Hr), (scan_paths_rel _ _ _ _ Hr).
Qed.

Lemma create_link_rel name toPath pkg st stA :
  same_state st stA →
  ∃ st1 st1A r,
    create_link name toPath pkg st = (st1, r) ∧
    create_link name toPath pkg stA = (st1A, r) ∧ same_state st1 st1A.
Proof.
  destruct st as [w c], stA as [wA cA]. intros [Hr Hc]. simpl in *. subst cA.
  unfold create_link. rewrite (proj1 Hr).
  destruct (hoisted pkg && bool_decide (name ∉ c)); [|by eexists _, _, _].
  match goal with
  | |- context [link ?t ?f (record_link w ?x)] =>
      destruct (link_rel t f _ _ (rewritten_record _ _ x Hr))
        as (w1 & w1A & r & -> & -> & Hr1)
  end.
  by eexists _, _, _.
Qed.

Lemma linkPackage_rel toPath : ∀ fuel name fromPath resolved st stA,
  same_state st stA →
  out_rel same_state
    (linkPackage require_resolve fuel name fromPath toPath resolved st)
    (linkPackage require_resolve fuel name fromPath toPath resolved stA).
Proof.
  induction fuel as [|fuel IH]; intros name fromPath resolved st stA Hst;
    [done|].
  simpl. case_bool_decide; [done|].
  rewrite (locate_rel _ _ _ _ (proj1 Hst)).
  destruct (locate _ _ _ _) as [pkg|]; [|done].
  destruct (create_link_rel name toPath pkg _ _ Hst)
    as ([w1 c1] & [w1A c1A] & r1 & -> & -> & [Hr1 Hc1]).
  simpl in *. subst c1A.
  destruct r1 as [[]|e]; [|done].
  unfold link_dependencies.
  destruct (require_rel pkg _ _ Hr1) as (w2 & w2A & r2 & -> & -> & Hr2).
  destruct r2 as [m|e]; [|done].
  pose proof (promise_all_rel same_state
                (λ dep, linkPackage require_resolve fuel dep (Path.dirname pkg)
                          toPath (resolved ++ [name]))
                (keys (deps_of m))
                (λ dep s sA _ Hs, IH dep _ _ s sA Hs)
                (w2, c1) (w2A, c1) ltac:(done)) as Hall.
  destruct (promise_all _ (w2, c1)) as [[s3 r3]|],
           (promise_all _ (w2A, c1)) as [[s3A r3A]|]; try done.
  destruct Hall as [-> Hs3]. by destruct r3.
Qed.

Lemma processLinkages_rel fuel p w wA :
  rewritten w wA →
  same_outcome (processLinkages require_resolve fuel p w)
               (processLinkages require_resolve fuel p wA).
Proof.
  intros Hr. unfold processLinkages.
  destruct (require_rel (Path.join [p; "package.json"]) _ _ Hr)
    as (w1 & w1A & r1 & -> & -> & Hr1).
  destruct r1 as [m|e]; [|done].
  pose proof (promise_all_rel same_state
                (λ name, linkPackage require_resolve fuel name p
                           (Path.join [p; "node_modules"]) [])
                (keys (deps_of m))
                (λ dep s sA _ Hs, linkPackage_rel _ fuel dep _ _ s sA Hs)
                (w1, ∅) (w1A, ∅) ltac:(done)) as Hall.
  destruct (promise_all _ (w1, ∅)) as [[[w2 c2] r2]|],
           (promise_all _ (w1A, ∅)) as [[[w2A c2A] r2A]|]; try done.
  destruct Hall as [-> [Hr2 _]]. by destruct r2.
Qed.

Lemma initialise_rel fuel s w wA :
  rewritten w wA →
  same_outcome (initialise require_resolve fuel s w)
               (initialise require_resolve fuel s wA).
Proof.
  intros Hr. unfold initialise.
  destruct (require_rel (Path.join [settings_path s; "package.json"]) _ _ Hr)
    as (w1 & w1A & r1 & -> & -> & Hr1).
  destruct r1 as [target|e]; [|done].
  destruct (require_rel (Path.join [workspacePath s; "package.json"]) _ _ Hr1)
    as (w2 & w2A & r2 & -> & -> & Hr2).
  destruct r2 as [root|e]; [|done].
  destruct (getWorkspaceDependencies_rel s _ _ Hr2)
    as (w3 & w3A & r3 & -> & -> & Hr3).
  destruct r3 as [relevant|e]; [|done].
  pose proof (promise_all_rel rewritten
                (λ currentWorkspace,
                   processLinkages require_resolve fuel
                     (Path.join [workspacePath s; currentWorkspace]))
                (workspacesToLink (deps_of target) (workspaces_of root)
                   relevant)
                (λ ws s0 s0A _ Hs, processLinkages_rel fuel _ s0 s0A Hs)
                w3 w3A Hr3) as Hall.
  destruct (promise_all _ w3) as [[w4 r4]|],
           (promise_all _ w3A) as [[w4A r4A]|]; try done.
  destruct Hall as [-> Hr4]. destruct r4; [|done].
  by apply processLinkages_rel.
Qed.

End RewrittenLinking.

Section RewrittenClean.
Import ShapeFacts.

Lemma lstat_rel p w wA :
  rewritten w wA →
  res_map shape (Fs.lstat (w_fs wA) (w_cwd wA) p)
  = res_map shape (Fs.lstat (w_fs w) (w_cwd w) p).
Proof.
  intros (Hcwd & _ & _ & Hs & _). by rewrite <-!lstat_shape, Hs, Hcwd.
Qed.

(** The listing [clean] takes, on two worlds of the same shape. *)
Lemma lstat_all_rel p files w wA :
  rewritten w wA →
  ∃ r rA,
    promise_all
      (map (λ f w0,
              Some (w0,
                    match Fs.lstat (w_fs w0) (w_cwd w0) (Path.join [p; f]) with
                    | Ok n => Ok (f, n)
                    | Err e => Err e
                    end)) files) w = Some (w, r) ∧
    promise_all
      (map (λ f w0,
              Some (w0,
                    match Fs.lstat (w_fs w0) (w_cwd w0) (Path.join [p; f]) with
                    | Ok n => Ok (f, n)
                    | Err e => Err e
                    end)) files) wA = Some (wA, rA) ∧
    res_map (fmap shape_entry) rA = res_map (fmap shape_entry) r.
Proof.
  intros Hr. induction files as [|f files (r & rA & E & EA & IH)]; simpl.
  { by eexists _, _. }
  rewrite E, EA.
  pose proof (lstat_rel (Path.join [p; f]) _ _ Hr) as Hl.
  destruct (Fs.lstat (w_fs w) _ _) as [n|e],
           (Fs.lstat (w_fs wA) _ _) as [nA|eA]; simplify_eq/=.
  - destruct r as [l|e], rA as [lA|eA]; simplify_eq/=; eexists _, _;
      split_and!; try done.
    cbn [res_map]. rewrite !fmap_cons, IH. unfold shape_entry at 1 3.
    simpl. by rewrite Hl.
  - by eexists _, _.
Qed.

Lemma filter_same_shape (P : string * Node → Prop) `{!∀ c, Decision (P c)}
    (l lA : list (string * Node)) :
  (∀ c cA, shape_entry cA = shape_entry c → P cA ↔ P c) →
  shape_entry <$> lA = shape_entry <$> l →
  shape_entry <$> filter P lA = shape_entry <$> filter P l.
Proof.
  intros HP. revert lA. induction l as [|c l IH]; intros [|cA lA] Hl;
    try done.
  rewrite !fmap_cons in Hl. injection Hl as Hc1 Hc2 Hl.
  assert (shape_entry cA = shape_entry c) as Hc
    by (unfold shape_entry; congruence).
  rewrite !filter_cons. specialize (IH _ Hl). pose proof (HP _ _ Hc) as HPc.
  destruct (decide (P cA)), (decide (P c)); try tauto;
    rewrite ?fmap_cons; by rewrite ?IH, ?Hc.
Qed.

Lemma map_same_shape {B} (h : string → B) (l lA : list (string * Node)) :
  shape_entry <$> lA = shape_entry <$> l →
  map (λ c, h c.1) lA = map (λ c, h c.1) l.
Proof.
  intros Hl.
  change (((λ c, h c.1) ∘ shape_entry) <$> lA
          = ((λ c, h c.1) ∘ shape_entry) <$> l).
  by rewrite !list_fmap_compose, Hl.
Qed.

Lemma unlink_rel f w wA :
  rewritten w wA →
  out_rel (A:=unit) rewritten
    (Some match Fs.unlink (w_fs w) (w_cwd w) f with
          | Ok fs' => (set_fs w fs', Ok ())
          | Err e => (w, Err e)
          end)
    (Some match Fs.unlink (w_fs wA) (w_cwd wA) f with
          | Ok fs' => (set_fs wA fs', Ok ())
          | Err e => (wA, Err e)
          end).
Proof.
  intros Hr. pose proof Hr as (Hcwd & _ & _ & Hs & _). rewrite Hcwd.
  pose proof (unlink_shape (w_fs wA) (w_cwd w) f) as E.
  rewrite Hs, unlink_shape in E. symmetry in E. apply same_shape_res in E.
  destruct (Fs.unlink (w_fs w) _ _) as [fs1|e] eqn:Hu,
           (Fs.unlink (w_fs wA) _ _) as [fs1A|eA] eqn:HuA; try done.
  2:{ by subst eA. }
  simpl. split; [done|].
  apply unlink_Ok in Hu as (k & n & Hk & _ & _ & _ & ->).
  apply unlink_Ok in HuA as (kA & nA & HkA & _ & _ & _ & ->).
  rewrite <-lkey_shape, Hs, lkey_shape, Hk in HkA. injection HkA as <-.
  by apply rewritten_delete.
Qed.

Lemma rmdir_rel p w wA :
  rewritten w wA →
  out_rel (A:=unit) rewritten
    (match Fs.rmdir (w_fs w) (w_cwd w) p with
     | Ok fs' => Some (set_fs w fs', Ok ())
     | Err e => Some (w, Err e)
     end)
    (match Fs.rmdir (w_fs wA) (w_cwd wA) p with
     | Ok fs' => Some (set_fs wA fs', Ok ())
     | Err e => Some (wA, Err e)
     end).
Proof.
  intros Hr. pose proof Hr as (Hcwd & _ & _ & Hs & _). rewrite Hcwd.
  pose proof (rmdir_shape (w_fs wA) (w_cwd w) p) as E.
  rewrite Hs, rmdir_shape in E. symmetry in E. apply same_shape_res in E.
  destruct (Fs.rmdir (w_fs w) _ _) as [fs1|e] eqn:Hu,
           (Fs.rmdir (w_fs wA) _ _) as [fs1A|eA] eqn:HuA; try done.
  2:{ by subst eA. }
  simpl. split; [done|].
  apply rmdir_Ok in Hu as (k & Hk & _ & _ & ->).
  apply rmdir_Ok in HuA as (kA & HkA & _ & _ & ->).
  rewrite <-lkey_shape, Hs, lkey_shape, Hk in HkA. injection HkA as <-.
  by apply rewritten_delete.
Qed.

Lemma clean_rel : ∀ fuel p w wA,
  rewritten w wA → same_outcome (clean fuel p w) (clean fuel p wA).
Proof.
  induction fuel as [|fuel IH]; intros p w wA Hr; [done|].
  pose proof Hr as (Hcwd & _ & _ & Hs & _).
  simpl. rewrite Hcwd, <-(exists_shape (w_fs wA)), Hs, exists_shape.
  destruct (Fs.exists_ _ _ _); simpl; [|done].
  rewrite <-(readdir_shape (w_fs wA)), Hs, readdir_shape.
  destruct (Fs.readdir _ _ _) as [files|e]; [|done].
  destruct (lstat_all_rel p files _ _ Hr) as (r1 & r1A & -> & -> & H1).
  destruct r1 as [contents|e], r1A as [contentsA|eA]; simplify_eq/=; [|done].
  assert (∀ c cA : string * Node,
            shape_entry cA = shape_entry c →
            is_symlink cA.2 = is_symlink c.2 ∧
            isScopedPkgDir cA = isScopedPkgDir c) as Hsame.
  { intros [f n] [fA nA] [= -> Hn]. unfold isScopedPkgDir. simpl.
    by destruct n, nA. }
  rewrite (map_same_shape
             (λ f w0, Some match Fs.unlink (w_fs w0) (w_cwd w0)
                                   (Path.join [p; f]) with
                           | Ok fs' => (set_fs w0 fs', Ok ())
                           | Err e => (w0, Err e)
                           end)
             (filter (λ c, is_symlink c.2) contents)
             (filter (λ c, is_symlink c.2) contentsA)).
  2:{ apply filter_same_shape; [|done].
      intros c cA [-> _]%Hsame. done. }
  pose proof (promise_all_rel rewritten
                (λ (c : string * Node) w0,
                   Some match Fs.unlink (w_fs w0) (w_cwd w0)
                                (Path.join [p; c.1]) with
                        | Ok fs' => (set_fs w0 fs', Ok ())
                        | Err e => (w0, Err e)
                        end)
                (filter (λ c, is_symlink c.2) contents)
                (λ c s sA _ Hs0, unlink_rel _ s sA Hs0) w wA Hr) as H2.
  destruct (promise_all _ w) as [[w2 r2]|],
           (promise_all _ wA) as [[w2A r2A]|]; try done.
  destruct H2 as [-> Hr2]. destruct r2 as [?|e]; [|done].
  assert (shape_entry <$> filter (λ c, ¬ is_symlink c.2) contentsA
          = shape_entry <$> filter (λ c, ¬ is_symlink c.2) contents) as H1'.
  { apply filter_same_shape; [|done].
    intros c cA [-> _]%Hsame. done. }
  rewrite (map_same_shape (λ f, clean fuel (Path.join [p; f]))
             (filter (λ c, isScopedPkgDir c)
                (filter (λ c, ¬ is_symlink c.2) contents))
             (filter (λ c, isScopedPkgDir c)
                (filter (λ c, ¬ is_symlink c.2) contentsA))).
  2:{ apply filter_same_shape; [|done].
      intros c cA [_ ->]%Hsame. done. }
  pose proof (promise_all_rel rewritten
                (λ c : string * Node, clean fuel (Path.join [p; c.1]))
                (filter (λ c, isScopedPkgDir c)
                   (filter (λ c, ¬ is_symlink c.2) contents))
                (λ c s sA _ Hs0, IH _ s sA Hs0) w2 w2A Hr2) as H3.
  destruct (promise_all _ w2) as [[w3 r3]|],
           (promise_all _ w2A) as [[w3A r3A]|]; try done.
  destruct H3 as [-> Hr3]. destruct r3 as [?|e]; [|done].
  assert (shape_entry <$> filter (λ c, ¬ isScopedPkgDir c)
                            (filter (λ c, ¬ is_symlink c.2) contentsA)
          = shape_entry <$> filter (λ c, ¬ isScopedPkgDir c)
                              (filter (λ c, ¬ is_symlink c.2) contents)) as H4.
  { apply filter_same_shape; [|done].
    intros c cA [_ ->]%Hsame. done. }
  destruct (filter (λ c, ¬ isScopedPkgDir c) _) as [|c2 l2],
           (filter (λ c, ¬ isScopedPkgDir c) _) as [|c2A l2A];
    simplify_eq/=; [|done].
  by apply rmdir_rel.
Qed.

Lemma cleanHook_rel fuel s w wA :
  rewritten w wA → same_outcome (cleanHook fuel s w) (cleanHook fuel s wA).
Proof.
  intros Hr. unfold cleanHook.
  pose proof (clean_rel fuel (Path.join [settings_path s; "node_modules"])
                _ _ Hr) as H1.
  destruct (clean fuel _ w) as [[w1 r1]|],
           (clean fuel _ wA) as [[w1A r1A]|]; try done.
  destruct H1 as [-> Hr1]. destruct r1 as [[]|e]; [|done].
  destruct (getWorkspaceDependencies_rel s _ _ Hr1)
    as (w2 & w2A & r2 & -> & -> & Hr2).
  destruct r2 as [ws|e]; [|done].
  pose proof (promise_all_rel rewritten
                (λ workspace,
                   clean fuel
                     (Path.join [workspacePath s; workspace; "node_modules"]))
                ws (λ c s0 s0A _ Hs0, clean_rel fuel _ s0 s0A Hs0)
                w2 w2A Hr2) as H3.
  destruct (promise_all _ w2) as [[w3 r3]|],
           (promise_all _ w2A) as [[w3A r3A]|]; try done.
  destruct H3 as [-> Hr3]. by destruct r3.
Qed.

End RewrittenClean.

(** The cache over a run. *)

Lemma cache_inv_refl w : cache_inv w w.
Proof. split; [split; [done|eauto]|eauto]. Qed.

Lemma cache_inv_require w0 w file w1 r :
  cache_inv w0 w → require w file = (w1, r) → cache_inv w0 w1.
Proof.
  intros [[Hsub Hfrom] Hfiles]
    (Hfs & _ & _ & [->|(k & m & _ & Hc & Hk & ->)])%require_world; [done|].
  split; [split|]; simpl.
  - etrans; [exact Hsub|]. by apply insert_subseteq.
  - intros k' m'. rewrite lookup_insert. case_decide; [|by apply Hfrom].
    intros [= <-]. subst k'. right. by apply Hfiles.
  - exact Hfiles.
Qed.

Lemma cache_inv_fs w0 w w1 :
  cache_inv w0 w → w_cache w1 = w_cache w →
  (∀ k c, w_fs w1 !! k = Some (NFile c) → w_fs w !! k = Some (NFile c)) →
  cache_inv w0 w1.
Proof.
  intros [[Hsub Hfrom] Hfiles] Hc Hf. split; [split|]; rewrite ?Hc; eauto.
Qed.

Lemma cache_inv_create w0 name toPath pkg st st1 r :
  cache_inv w0 st.1 → create_link name toPath pkg st = (st1, r) →
  cache_inv w0 st1.1.
Proof.
  destruct st as [w c]. intros Hinv
    [(-> & _)|(w1 & call & -> & _ & _ & _ & _ & _ & Hl)]%create_link_cases;
    [done|].
  apply link_world in Hl as ([_ Hf] & _ & Hc & _). simpl in *.
  by eapply cache_inv_fs.
Qed.

Lemma cache_inv_clean w0 fuel p w w1 r :
  cache_inv w0 w → clean fuel p w = Some (w1, r) → cache_inv w0 w1.
Proof.
  intros Hinv (Hsub & _ & _ & Hc & _)%clean_keeps.
  eapply cache_inv_fs; [exact Hinv|exact Hc|].
  intros k c Hk. by eapply lookup_weaken.
Qed.

Lemma cache_inv_getWorkspaceDependencies w0 s w w1 r :
  cache_inv w0 w → getWorkspaceDependencies s w = (w1, r) → cache_inv w0 w1.
Proof.
  unfold getWorkspaceDependencies. intros Hinv.
  destruct (require w _) as [w' [target|]] eqn:H1;
    [|intros; simplify_eq; by eapply cache_inv_require].
  apply (cache_inv_require w0) in H1; [|done].
  destruct (require w' _) as [w'' [root|]] eqn:H2;
    intros; simplify_eq; by eapply cache_inv_require.
Qed.

Lemma cache_inv_cleanHook w0 fuel s w w' r :
  cache_inv w0 w → cleanHook fuel s w = Some (w', r) → cache_inv w0 w'.
Proof.
  intros Hinv. unfold cleanHook.
  destruct (clean fuel _ w) as [[w1 r1]|] eqn:H1; [|done].
  apply (cache_inv_clean w0) in H1; [|done].
  destruct r1 as [[]|]; [|by intros; simplify_eq].
  destruct (getWorkspaceDependencies s w1) as [w2 r2] eqn:H2.
  apply (cache_inv_getWorkspaceDependencies w0) in H2; [|done].
  destruct r2 as [ws|]; [|by intros; simplify_eq].
  destruct (promise_all _ w2) as [[w3 r3]|] eqn:H3; [|done].
  assert (cache_inv w0 w3).
  { eapply (promise_all_preserves (cache_inv w0)); [|exact H3|exact H2].
    intros t s0 s1 r0 (c & -> & _)%list_elem_of_fmap Ht Hs0.
    by eapply cache_inv_clean. }
  destruct r3; by intros; simplify_eq.
Qed.

Section CacheLinking.

Variable require_resolve : World → string → list string → option string.

Lemma cache_inv_processLinkages w0 fuel p w w' r :
  cache_inv w0 w →
  processLinkages require_resolve fuel p w = Some (w', r) → cache_inv w0 w'.
Proof.
  intros Hinv Hrun.
  destruct (processLinkages_preserves require_resolve
              (λ st, cache_inv w0 st.1) fuel p w w' r)
    as [c Hc]; [| |exact Hrun|exact Hinv|exact Hc].
  - intros name pkg st st1 r0 Hst. by apply cache_inv_create.
  - intros w1 c file w2 r0 Hst. by apply cache_inv_require.
Qed.

Lemma cache_inv_initialise w0 fuel s w w' r :
  cache_inv w0 w →
  initialise require_resolve fuel s w = Some (w', r) → cache_inv w0 w'.
Proof.
  intros Hinv. unfold initialise.
  destruct (require w _) as [w1 [target|]] eqn:H1;
    apply (cache_inv_require w0) in H1; try done;
    [|by intros; simplify_eq].
  destruct (require w1 _) as [w2 [root|]] eqn:H2;
    apply (cache_inv_require w0) in H2; try done;
    [|by intros; simplify_eq].
  destruct (getWorkspaceDependencies s w2) as [w3 [relevant|]] eqn:H3;
    apply (cache_inv_getWorkspaceDependencies w0) in H3; try done;
    [|by intros; simplify_eq].
  destruct (promise_all _ w3) as [[w4 r4]|] eqn:Hall; [|done].
  assert (cache_inv w0 w4) as H4.
  { eapply (promise_all_preserves (cache_inv w0)); [|exact Hall|exact H3].
    intros t s0 s1 r0 (ws & -> & _)%list_elem_of_fmap Hrun Hs0.
    by eapply cache_inv_processLinkages. }
  destruct r4; [|by intros; simplify_eq].
  by apply cache_inv_processLinkages.
Qed.

Lemma cache_inv_hooks fuel s h w w' r :
  hooks require_resolve fuel s h w = Some (w', r) → cache_grown w w'.
Proof.
  pose proof (cache_inv_refl w) as Hinv. destruct h; simpl.
  - intros Hrun. by destruct (cache_inv_cleanHook _ _ _ _ _ _ Hinv Hrun).
  - intros Hrun. by destruct (cache_inv_initialise _ _ _ _ _ _ Hinv Hrun).
  - destruct (cleanHook fuel s w) as [[w1 r1]|] eqn:H1; [|done].
    apply (cache_inv_cleanHook w) in H1; [|done].
    destruct r1 as [[]|]; [|intros; simplify_eq; by destruct H1].
    intros Hrun. by destruct (cache_inv_initialise _ _ _ _ _ _ H1 Hrun).
Qed.

Hypothesis resolve_blind : ∀ w wA request paths,
  rewritten w wA →
  require_resolve wA request paths = require_resolve w request paths.

Lemma hooks_rel fuel s h w wA :
  rewritten w wA →
  same_outcome (hooks require_resolve fuel s h w)
               (hooks require_resolve fuel s h wA).
Proof.
  intros Hr. destruct h; simpl.
  - by apply cleanHook_rel.
  - by apply initialise_rel.
  - pose proof (cleanHook_rel fuel s _ _ Hr) as H1.
    destruct (cleanHook fuel s w) as [[w1 r1]|],
             (cleanHook fuel s wA) as [[w1A r1A]|]; try done.
    destruct H1 as [-> Hr1]. destruct r1 as [[]|]; [|done].
    by apply initialise_rel.
Qed.

End CacheLinking.

(** The loader on an absolute file name that leads to the file [k]. *)
Lemma require_hit_or_read w file k :
  Path.isAbsolute file = true →
  Fs.realpath (w_fs w) (w_cwd w) file = Ok k →
  (∀ m, w_cache w !! k = Some m → require w file = (w, Ok m)) ∧
  (w_cache w !! k = None → (require w file).2 = read_manifest w file) ∧
  (∀ m, (require w file).2 = Ok m →
        w_cache (require w file).1 !! k = Some m ∧
        ∀ fs', Fs.realpath fs' (w_cwd w) file = Ok k →
               require (set_fs (require w file).1 fs') file
               = (set_fs (require w file).1 fs', Ok m)).
Proof.
  intros Habs Hk.
  assert (∀ w0 m, Fs.realpath (w_fs w0) (w_cwd w0) file = Ok k →
                  w_cache w0 !! k = Some m → require w0 file = (w0, Ok m))
    as Hhit.
  { intros w0 m H0 Hc. unfold require. by rewrite Habs, H0, Hc. }
  split_and!.
  - intros m. by apply Hhit.
  - intros Hc. unfold require, read_manifest. rewrite Habs, Hk, Hc.
    by destruct (w_fs w !! k) as [[[m|]| |]|].
  - intros m Hm.
    assert (w_cache (require w file).1 !! k = Some m) as Hc.
    { revert Hm. unfold require. rewrite Habs, Hk.
      destruct (w_cache w !! k) as [m'|] eqn:Hc; simpl; [congruence|].
      destruct (w_fs w !! k) as [[[m'|]| |]|]; simpl; try done.
      intros; simplify_eq. by rewrite lookup_insert_eq. }
    split; [done|]. intros fs' Hfs'. apply Hhit; [|done].
    destruct (require_world w file _ _ (surjective_pairing _)) as (_ & Hcwd & _).
    simpl. by rewrite Hcwd.
Qed.

(** C9, as the code has it.  Every manifest is loaded through [require]
    and its cache.  For the loader: a manifest the cache holds is returned
    as it was loaded, whatever the file says now; one it does not hold is
    read from the file and is in the cache from then on, for every later
    state of the disk.  For a run of any hook: the cache keeps what it
    held and gains only contents of manifest files as they are on disk;
    and started in two worlds that differ only in the content of files
    whose manifest the cache holds, the hook gives the same result, makes
    the same calls of [link] and ends in two worlds that again differ only
    there: a file rewritten after it was first loaded is never read
    again.  The answer of [require.resolve] is taken not to depend on the
    content of such files. *)
Theorem manifests_come_through_the_cache :
  (∀ w file k,
      Path.isAbsolute file = true →
      Fs.realpath (w_fs w) (w_cwd w) file = Ok k →
      (∀ m, w_cache w !! k = Some m → require w file = (w, Ok m)) ∧
      (w_cache w !! k = None → (require w file).2 = read_manifest w file) ∧
      (∀ m, (require w file).2 = Ok m →
            w_cache (require w file).1 !! k = Some m ∧
            ∀ fs', Fs.realpath fs' (w_cwd w) file = Ok k →
                   require (set_fs (require w file).1 fs') file
                   = (set_fs (require w file).1 fs', Ok m))) ∧
  (∀ require_resolve fuel s h w w' r,
      hooks require_resolve fuel s h w = Some (w', r) → cache_grown w w') ∧
  (∀ require_resolve,
      (∀ w wA request paths,
          rewritten w wA →
          require_resolve wA request paths = require_resolve w request paths) →
      ∀ fuel s h w wA,
        rewritten w wA →
        same_outcome (hooks require_resolve fuel s h w)
                     (hooks require_resolve fuel s h wA)).
Proof.
  split_and!.
  - apply require_hit_or_read.
  - apply cache_inv_hooks.
  - apply hooks_rel.
Qed.

Lemma rewritten_overwrite w k m m' :
  w_cache w !! k = Some m → w_fs w !! k = Some (NFile m') →
  ∀ c, rewritten w (overwrite w k (NFile c)).
Proof.
  intros Hc Hf c. unfold overwrite. split_and!; simpl; [done..| |].
  - rewrite fmap_insert. apply insert_id. by rewrite lookup_fmap, Hf.
  - intros k' c' Hk' Hf'. rewrite lookup_insert_ne; [done|]. congruence.
Qed.

Lemma manifests_come_through_the_cache_witness :
  cache_grown monorepo
    (state_after monorepo
       (hooks resolve_plain 3 pkgA package_initialize monorepo)) ∧
  same_outcome
    (hooks resolve_never 3 pkgA deploy_function_initialize
       (require monorepo "/ws/pkgA/package.json").1)
    (hooks resolve_never 3 pkgA deploy_function_initialize monorepo_rewritten).
Proof.
  pose proof manifests_come_through_the_cache as (_ & H2 & H3).
  split.
  - apply (H2 resolve_plain 3 pkgA package_initialize monorepo _ (Ok ())).
    apply run_result_eq. vm_compute. reflexivity.
  - apply (H3 resolve_never); [done|].
    apply (rewritten_overwrite _ _ (manifest_of ["pkgB"; "lodash"])
             (Some (manifest_of ["pkgB"; "lodash"]))).
    + vm_compute. reflexivity.
    + vm_compute. reflexivity.
Defined.

(** C9, as the claim words it, fails: after a first read, the file is
    rewritten to depend on nothing; the second read in the same run returns
    the first content, not what is on disk, [getWorkspaceDependencies]
    selects by it, and setup links the dependencies the file no longer
    has. *)
Lemma require_returns_stale_manifest :
  (require monorepo_rewritten "/ws/pkgA/package.json").2
    = Ok (manifest_of ["pkgB"; "lodash"]) ∧
  read_manifest monorepo_rewritten "/ws/pkgA/package.json"
    = Ok (manifest_of []) ∧
  manifest_of ["pkgB"; "lodash"] ≠ manifest_of [] ∧
  read_manifest monorepo_rewritten "/ws/package.json"
    = Ok {| dependencies := None; workspaces := Some ["pkgA"; "pkgB"] |} ∧
  (getWorkspaceDependencies pkgA monorepo_rewritten).2 = Ok ["pkgB"] ∧
  push_relevant (deps_of (manifest_of [])) ["pkgA"; "pkgB"] [] = [] ∧
  pass_files (initialise resolve_plain 3 pkgA monorepo_rewritten)
    = Some ["/ws/pkgB/node_modules/lodash"; "/ws/pkgB/node_modules/lodash";
            "/ws/pkgA/node_modules/pkgB"; "/ws/pkgA/node_modules/lodash"].
Proof.
  split_and!; try discriminate; vm_compute; reflexivity.
Qed.
